(** * Discord blacklist checker: persistence core

    A shallow embedding of the validation module, the connection manager,
    the repository and the service of the blacklist bot, with the
    properties of its specification stated and proved against it.

    Conventions of the embedding.
    - A JavaScript string is a [string]; each [ascii] stands for one UTF-16
      code unit below 256, so [String.length] is the [.length] of the source.
    - A value that reaches the validators at run time is a [JsVal]: the
      declared types say [string], the validators test [typeof] anyway.
    - A rejected promise or a [throw] is [Throw msg], where [msg] is the
      [message] of the [Error]; all asynchronous code is run sequentially.
    - Calls to the logger are left out, except the ones a property speaks
      about; they are recorded as [EvLog] in the trace of the world. *)

From Stdlib Require Import String Ascii List ZArith Bool Lia Arith.
From Stdlib Require Import DecimalString Sorted.
Import ListNotations.
Open Scope string_scope.
Open Scope list_scope.
Open Scope nat_scope.

Set Implicit Arguments.

(* ================================================================== *)
(** ** JavaScript strings and values *)

Module Js.

(** [String.prototype.trim] strips WhiteSpace and LineTerminator code
    points; below 256 these are TAB, LF, VT, FF, CR, SPACE and NBSP. *)
Definition is_ws (c : ascii) : bool :=
  let n := nat_of_ascii c in
  ((9 <=? n) && (n <=? 13)) || (n =? 32) || (n =? 160).

Fixpoint trimStart (s : string) : string :=
  match s with
  | EmptyString => EmptyString
  | String c r => if is_ws c then trimStart r else s
  end.

Fixpoint trimEnd (s : string) : string :=
  match s with
  | EmptyString => EmptyString
  | String c r =>
      match trimEnd r with
      | EmptyString => if is_ws c then EmptyString else String c EmptyString
      | r' => String c r'
      end
  end.

Definition trim (s : string) : string := trimEnd (trimStart s).

Definition is_empty (s : string) : bool :=
  match s with EmptyString => true | _ => false end.

(** [s.includes(needle)]: exact, case-sensitive containment. *)
Fixpoint includes (needle s : string) : bool :=
  prefix needle s
  || match s with
     | EmptyString => false
     | String _ r => includes needle r
     end.

(** [xs.join(sep)] *)
Fixpoint join (sep : string) (xs : list string) : string :=
  match xs with
  | [] => ""
  | [x] => x
  | x :: rest => (x ++ sep ++ join sep rest)%string
  end.

(** [`${n}`] for a non-negative integer. *)
Definition of_nat (n : nat) : string := NilEmpty.string_of_uint (Nat.to_uint n).

Fixpoint replicate (n : nat) (c : ascii) : string :=
  match n with
  | O => EmptyString
  | S k => String c (replicate k c)
  end.

(** The double quote character, as a one-character string. *)
Definition dquote : string := String (ascii_of_nat 34) EmptyString.

Inductive JsVal : Type :=
| JUndefined
| JNull
| JBool (b : bool)
| JNumber (n : Z)
| JString (s : string).

(** ToBoolean *)
Definition truthy (v : JsVal) : bool :=
  match v with
  | JUndefined | JNull => false
  | JBool b => b
  | JNumber n => negb (n =? 0)%Z
  | JString s => negb (is_empty s)
  end.

(** Outcome of a call: a value or a thrown error (its message). *)
Inductive Res (A : Type) : Type :=
| Ok (a : A)
| Throw (msg : string).
Arguments Ok {A} a.
Arguments Throw {A} msg.

(** Calling [.trim()] on a value that is not a string. *)
Definition not_a_function (expr : string) : string :=
  (expr ++ " is not a function")%string.

End Js.
Import Js.

(* ================================================================== *)
(** ** models/BlacklistEntry.ts *)

Module BlacklistEntry.

(** The entity returned to callers. [None] is an absent property. *)
Record BlacklistEntry : Type := mkEntry {
  id : option Z;
  identifier : string;
  firstName : option string;
  lastName : option string;
  createdAt : Z;
  createdBy : string
}.

Record ValidationResult : Type := mkValidation {
  isValid : bool;
  errors : list string
}.

End BlacklistEntry.

Module CreateInput.

(** [CreateBlacklistEntryInput] as it is met at run time. *)
Record CreateBlacklistEntryInput : Type := mkInput {
  identifier : JsVal;
  firstName : JsVal;
  lastName : JsVal;
  createdBy : JsVal
}.

End CreateInput.

Import BlacklistEntry.
Definition CreateBlacklistEntryInput : Type := CreateInput.CreateBlacklistEntryInput.

Definition validateBlacklistEntry (input : CreateBlacklistEntryInput)
  : ValidationResult :=
  let errors : list string := [] in
  (* Validate identifier (required) *)
  let errors :=
    match CreateInput.identifier input with
    | JString s =>
        if String.length (trim s) =? 0 then errors ++ ["Identifier cannot be empty"]
        else if 255 <? String.length s
             then errors ++ ["Identifier cannot exceed 255 characters"]
             else errors
    | _ => errors ++ ["Identifier is required and must be a string"]
    end in
  (* Validate createdBy (required) *)
  let errors :=
    match CreateInput.createdBy input with
    | JString s =>
        if String.length (trim s) =? 0 then errors ++ ["CreatedBy cannot be empty"]
        else if 20 <? String.length s
             then errors ++ ["CreatedBy cannot exceed 20 characters"]
             else errors
    | _ => errors ++ ["CreatedBy is required and must be a string"]
    end in
  (* Validate firstName (optional) *)
  let errors :=
    match CreateInput.firstName input with
    | JUndefined => errors
    | JString s =>
        if 100 <? String.length s
        then errors ++ ["FirstName cannot exceed 100 characters"]
        else errors
    | _ => errors ++ ["FirstName must be a string"]
    end in
  (* Validate lastName (optional) *)
  let errors :=
    match CreateInput.lastName input with
    | JUndefined => errors
    | JString s =>
        if 100 <? String.length s
        then errors ++ ["LastName cannot exceed 100 characters"]
        else errors
    | _ => errors ++ ["LastName must be a string"]
    end in
  {| isValid := List.length errors =? 0; errors := errors |}.

(** [input.f?.trim() || ''] *)
Definition trim_or_empty (expr : string) (v : JsVal) : Res string :=
  match v with
  | JUndefined | JNull => Ok ""
  | JString s => Ok (trim s)
  | _ => Throw (not_a_function expr)
  end.

(** [if (input.f && input.f.trim()) result.f = input.f.trim()]: the value
    of the property [f] of the result, [JUndefined] when it is not set. *)
Definition trim_if_present (expr : string) (v : JsVal) : Res JsVal :=
  if truthy v then
    match v with
    | JString s => if is_empty (trim s) then Ok JUndefined else Ok (JString (trim s))
    | _ => Throw (not_a_function expr)
    end
  else Ok JUndefined.

Definition sanitizeBlacklistEntryInput (input : CreateBlacklistEntryInput)
  : Res CreateBlacklistEntryInput :=
  match trim_or_empty "input.identifier?.trim" (CreateInput.identifier input) with
  | Throw e => Throw e
  | Ok ident =>
  match trim_or_empty "input.createdBy?.trim" (CreateInput.createdBy input) with
  | Throw e => Throw e
  | Ok by_ =>
  match trim_if_present "input.firstName.trim" (CreateInput.firstName input) with
  | Throw e => Throw e
  | Ok fn =>
  match trim_if_present "input.lastName.trim" (CreateInput.lastName input) with
  | Throw e => Throw e
  | Ok ln =>
      Ok {| CreateInput.identifier := JString ident;
            CreateInput.firstName := fn;
            CreateInput.lastName := ln;
            CreateInput.createdBy := JString by_ |}
  end end end end.

(* ================================================================== *)
(** ** models/SearchCriteria.ts *)

Module Criteria.

Record SearchCriteria : Type := mkCriteria {
  identifier : JsVal;
  firstName : JsVal;
  lastName : JsVal
}.

End Criteria.
Definition SearchCriteria : Type := Criteria.SearchCriteria.

Definition validateSearchCriteria (criteria : SearchCriteria)
  : ValidationResult :=
  let errors : list string := [] in
  (* At least one search criterion must be provided *)
  let errors :=
    if negb (truthy (Criteria.identifier criteria))
       && negb (truthy (Criteria.firstName criteria))
       && negb (truthy (Criteria.lastName criteria))
    then errors ++ ["At least one search criterion must be provided (identifier, firstName, or lastName)"]
    else errors in
  (* Validate identifier if provided *)
  let errors :=
    match Criteria.identifier criteria with
    | JUndefined => errors
    | JString s =>
        if String.length (trim s) =? 0
        then errors ++ ["Identifier cannot be empty when provided"]
        else if 255 <? String.length s
             then errors ++ ["Identifier cannot exceed 255 characters"]
             else errors
    | _ => errors ++ ["Identifier must be a string"]
    end in
  (* Validate firstName if provided *)
  let errors :=
    match Criteria.firstName criteria with
    | JUndefined => errors
    | JString s =>
        if String.length (trim s) =? 0
        then errors ++ ["FirstName cannot be empty when provided"]
        else if 100 <? String.length s
             then errors ++ ["FirstName cannot exceed 100 characters"]
             else errors
    | _ => errors ++ ["FirstName must be a string"]
    end in
  (* Validate lastName if provided *)
  let errors :=
    match Criteria.lastName criteria with
    | JUndefined => errors
    | JString s =>
        if String.length (trim s) =? 0
        then errors ++ ["LastName cannot be empty when provided"]
        else if 100 <? String.length s
             then errors ++ ["LastName cannot exceed 100 characters"]
             else errors
    | _ => errors ++ ["LastName must be a string"]
    end in
  {| isValid := List.length errors =? 0; errors := errors |}.

Definition sanitizeSearchCriteria (criteria : SearchCriteria)
  : Res SearchCriteria :=
  match trim_if_present "criteria.identifier.trim" (Criteria.identifier criteria) with
  | Throw e => Throw e
  | Ok ident =>
  match trim_if_present "criteria.firstName.trim" (Criteria.firstName criteria) with
  | Throw e => Throw e
  | Ok fn =>
  match trim_if_present "criteria.lastName.trim" (Criteria.lastName criteria) with
  | Throw e => Throw e
  | Ok ln =>
      Ok {| Criteria.identifier := ident;
            Criteria.firstName := fn;
            Criteria.lastName := ln |}
  end end end.

(* ================================================================== *)
(** ** The relational store

    The table [blacklist_entries] of [DatabaseSchema.createBlacklistTable]
    and the statements the repository sends to it. *)

Module Sql.

Record Row : Type := mkRow {
  id : Z;                       (* INT PRIMARY KEY AUTO_INCREMENT *)
  identifier : string;          (* VARCHAR(255) NOT NULL *)
  first_name : option string;   (* VARCHAR(100), nullable *)
  last_name : option string;    (* VARCHAR(100), nullable *)
  created_at : Z;               (* TIMESTAMP DEFAULT CURRENT_TIMESTAMP *)
  created_by : string           (* VARCHAR(20) NOT NULL *)
}.

(** The table is declared [COLLATE=utf8mb4_unicode_ci]: the server
    compares texts by the primary weights of the Unicode Collation
    Algorithm (version 4.0.0), so that neither letter case nor accents
    count.  A code unit of the model is one character of U+0000..U+00FF.
    [weights] gives the primary weights of a character, each of them
    named by the code point of a character that has this weight and no
    other (for a letter, the unaccented capital):
    - the control characters (but the line breaks and the tabulations)
      and the soft hyphen have no weight at all;
    - a letter has the weight of its unaccented capital; [AE], [ETH],
      [O WITH STROKE] and [THORN] are letters of their own, and the
      sharp s has the weights of two [S];
    - the no-break space weighs as the space, the ordinal indicators as
      [A] and [O], a superscript digit as the digit, the micro sign as
      the Greek mu, and a vulgar fraction as digit, fraction slash,
      digit;
    - every other character has one weight, its own. *)
Definition between (lo hi n : nat) : bool := (lo <=? n) && (n <=? hi).

Definition ignorable (n : nat) : bool :=
  (n <=? 8) || between 14 31 n || between 127 132 n || between 134 159 n
  || (n =? 173).

(** The capital of a small letter, by code point. *)
Definition capital (n : nat) : nat :=
  if between 97 122 n || (between 224 254 n && negb (n =? 247))
  then n - 32 else n.

Definition fraction_slash : nat := 8260.   (* U+2044 *)
Definition greek_mu : nat := 924.          (* U+039C *)

Definition weights (c : ascii) : list nat :=
  let n := nat_of_ascii c in
  if ignorable n then []
  else if n =? 255 then [89]                      (* y with diaeresis *)
  else
    let u := capital n in
    if between 192 197 u then [65]                (* A with an accent *)
    else if u =? 199 then [67]                    (* C with cedilla *)
    else if between 200 203 u then [69]           (* E with an accent *)
    else if between 204 207 u then [73]           (* I with an accent *)
    else if u =? 209 then [78]                    (* N with tilde *)
    else if between 210 214 u then [79]           (* O with an accent *)
    else if between 217 220 u then [85]           (* U with an accent *)
    else if u =? 221 then [89]                    (* Y with acute *)
    else if u =? 223 then [83; 83]                (* sharp s *)
    else if u =? 160 then [32]                    (* no-break space *)
    else if u =? 170 then [65]                    (* feminine ordinal *)
    else if u =? 186 then [79]                    (* masculine ordinal *)
    else if u =? 185 then [49]                    (* superscript one *)
    else if between 178 179 u then [u - 128]      (* superscript two, three *)
    else if u =? 181 then [greek_mu]              (* micro sign *)
    else if u =? 188 then [49; fraction_slash; 52]  (* one quarter *)
    else if u =? 189 then [49; fraction_slash; 50]  (* one half *)
    else if u =? 190 then [51; fraction_slash; 52]  (* three quarters *)
    else [u].

Fixpoint same_weights (x y : list nat) : bool :=
  match x, y with
  | [], [] => true
  | a :: x', b :: y' => (a =? b) && same_weights x' y'
  | _, _ => false
  end.

(** Two characters as LIKE compares them: by all their weights. *)
Definition coll_eqb (a b : ascii) : bool := same_weights (weights a) (weights b).

(** The weights of a text, one character after the other. *)
Fixpoint weight_string (s : string) : list nat :=
  match s with
  | EmptyString => []
  | String c r => weights c ++ weight_string r
  end.

Definition space_weight : nat := 32.

Definition all_spaces (ws : list nat) : bool := forallb (Nat.eqb space_weight) ws.

(** Weight by weight; where one text ends the rest of the other must
    weigh as spaces (the collation is PAD SPACE). *)
Fixpoint weights_eq (x y : list nat) : bool :=
  match x, y with
  | [], _ => all_spaces y
  | _, [] => all_spaces x
  | a :: x', b :: y' => (a =? b) && weights_eq x' y'
  end.

(** [col = ?] on a VARCHAR column. *)
Definition str_eq (a b : string) : bool :=
  weights_eq (weight_string a) (weight_string b).

(** [col LIKE ?]: [%] stands for any run of characters, [_] for any one
    character, and a backslash takes the next character literally. *)
Inductive Tok : Type := TAny | TOne | TLit (c : ascii).

Definition percent : ascii := ascii_of_nat 37.
Definition underscore : ascii := ascii_of_nat 95.
Definition backslash : ascii := ascii_of_nat 92.

Fixpoint like_tokens (p : string) : list Tok :=
  match p with
  | EmptyString => []
  | String c r =>
      if Ascii.eqb c percent then TAny :: like_tokens r
      else if Ascii.eqb c underscore then TOne :: like_tokens r
      else if Ascii.eqb c backslash then
        match r with
        | EmptyString => [TLit c]
        | String d r' => TLit d :: like_tokens r'
        end
      else TLit c :: like_tokens r
  end.

Fixpoint match_tokens (ts : list Tok) (s : string) : bool :=
  match ts with
  | [] => is_empty s
  | TAny :: ts' =>
      (fix skip (s : string) : bool :=
         match_tokens ts' s
         || match s with
            | EmptyString => false
            | String _ r => skip r
            end) s
  | TOne :: ts' =>
      match s with
      | EmptyString => false
      | String _ r => match_tokens ts' r
      end
  | TLit c :: ts' =>
      match s with
      | EmptyString => false
      | String d r => coll_eqb c d && match_tokens ts' r
      end
  end.

Definition like (pattern s : string) : bool :=
  match_tokens (like_tokens pattern) s.

(** The conjuncts the repository appends to [WHERE 1=1]. *)
Inductive Pred : Type :=
| IdentifierEq (v : string)         (* AND identifier = ? *)
| FirstNameLike (pattern : string)  (* AND first_name LIKE ? *)
| LastNameLike (pattern : string).  (* AND last_name LIKE ? *)

(** A comparison with NULL is not true. *)
Definition holds (p : Pred) (r : Row) : bool :=
  match p with
  | IdentifierEq v => str_eq (identifier r) v
  | FirstNameLike pat =>
      match first_name r with Some n => like pat n | None => false end
  | LastNameLike pat =>
      match last_name r with Some n => like pat n | None => false end
  end.

(** What [connection.execute] resolves to (its first component): an
    array of rows for a SELECT, a header for INSERT and DELETE. *)
Record ResultSetHeader : Type := mkHeader {
  insertId : Z;
  affectedRows : Z
}.

(** The row of [SELECT COUNT( * ) as count]. *)
Record CountPacket : Type := mkCount { count : Z }.

(** A statement, indexed by the type [T] of [query<T>]. *)
Inductive Stmt : Type -> Type :=
| Insert (identifier : string) (first_name last_name : option string)
         (created_by : string) : Stmt ResultSetHeader
| SelectWhere (preds : list Pred)   (* ... ORDER BY created_at DESC *)
    : Stmt (list Row)
| SelectById (id : Z) : Stmt (list Row)
| DeleteById (id : Z) : Stmt ResultSetHeader
| CountByIdentifier (identifier : string) : Stmt (list CountPacket).

Record Database : Type := mkDatabase {
  rows : list Row;
  auto_increment : Z;
  clock : Z
}.

(** ORDER BY created_at DESC *)
Fixpoint insert_desc (r : Row) (sorted : list Row) : list Row :=
  match sorted with
  | [] => [r]
  | x :: rest =>
      if (created_at x <? created_at r)%Z then r :: sorted
      else x :: insert_desc r rest
  end.

Fixpoint order_by_created_at_desc (rs : list Row) : list Row :=
  match rs with
  | [] => []
  | r :: rest => insert_desc r (order_by_created_at_desc rest)
  end.

Definition has_id (i : Z) (r : Row) : bool := (id r =? i)%Z.

Definition exec {T : Type} (s : Stmt T) (d : Database) : T * Database :=
  match s in Stmt T return T * Database with
  | Insert ident fn ln by_ =>
      let r := {| id := auto_increment d; identifier := ident;
                  first_name := fn; last_name := ln;
                  created_at := clock d; created_by := by_ |} in
      ({| insertId := auto_increment d; affectedRows := 1 |},
       {| rows := rows d ++ [r];
          auto_increment := (auto_increment d + 1)%Z;
          clock := (clock d + 1)%Z |})
  | SelectWhere preds =>
      (order_by_created_at_desc
         (filter (fun r => forallb (fun p => holds p r) preds) (rows d)),
       d)
  | SelectById i => (filter (has_id i) (rows d), d)
  | DeleteById i =>
      ({| insertId := 0;
          affectedRows := Z.of_nat (List.length (filter (has_id i) (rows d))) |},
       {| rows := filter (fun r => negb (has_id i r)) (rows d);
          auto_increment := auto_increment d;
          clock := clock d |})
  | CountByIdentifier ident =>
      ([ {| count := Z.of_nat (List.length
                       (filter (fun r => str_eq (identifier r) ident) (rows d))) |} ],
       d)
  end.

Definition is_insert {T : Type} (s : Stmt T) : bool :=
  match s with Insert _ _ _ _ => true | _ => false end.

Definition is_delete {T : Type} (s : Stmt T) : bool :=
  match s with DeleteById _ => true | _ => false end.

End Sql.

(* ================================================================== *)
(** ** utils/ErrorHandler.ts: which errors are retryable *)

Module ErrorHandler.

(** The patterns are alternatives of literals joined by [.*], all with
    the [i] flag: an alternative is the list of its literals. *)
Definition Alternative : Type := list string.
Definition Pattern : Type := list Alternative.

Definition is_line_terminator (c : ascii) : bool :=
  let n := nat_of_ascii c in (n =? 10) || (n =? 13).

(** The [i] flag: a letter of a pattern matches its capital and its small
    form.  The literals of the patterns below are ASCII, and no character
    outside ASCII is brought into ASCII by the flag, so that folding the
    ASCII letters is all it takes. *)
Definition fold_case (c : ascii) : ascii :=
  let n := nat_of_ascii c in
  if (65 <=? n) && (n <=? 90) then ascii_of_nat (n + 32) else c.

Definition char_eqb (a b : ascii) : bool :=
  Ascii.eqb (fold_case a) (fold_case b).

(** The rest of [s] after the literal [lit], compared without case. *)
Fixpoint strip_prefix_ci (lit s : string) : option string :=
  match lit, s with
  | EmptyString, _ => Some s
  | String a lit', String b s' =>
      if char_eqb a b then strip_prefix_ci lit' s' else None
  | String _ _, EmptyString => None
  end.

(** [.*lit] followed by what [k] accepts; [.] stops at a line end. *)
Fixpoint gap_then (lit : string) (k : string -> bool) (s : string) : bool :=
  match strip_prefix_ci lit s with
  | Some r => k r
  | None => false
  end
  || match s with
     | EmptyString => false
     | String c r => if is_line_terminator c then false else gap_then lit k r
     end.

Fixpoint after_gaps (lits : list string) (s : string) : bool :=
  match lits with
  | [] => true
  | lit :: lits' => gap_then lit (after_gaps lits') s
  end.

Definition alternative_at (alt : Alternative) (s : string) : bool :=
  match alt with
  | [] => true
  | lit :: lits =>
      match strip_prefix_ci lit s with
      | Some r => after_gaps lits r
      | None => false
      end
  end.

(** [pattern.test(s)] *)
Fixpoint test (p : Pattern) (s : string) : bool :=
  existsb (fun alt => alternative_at alt s) p
  || match s with
     | EmptyString => false
     | String _ r => test p r
     end.

(** [initializeErrorPatterns], in insertion order, with [retryable]. *)
Definition errorPatterns : list (Pattern * bool) :=
  [ ([["ECONNREFUSED"]; ["ENOTFOUND"]; ["ETIMEDOUT"]; ["connection"; "refused"]], true);
    ([["timeout"]; ["query"; "timeout"]], true);
    ([["duplicate"; "entry"]; ["already"; "exists"]], false);
    ([["validation"; "failed"]; ["invalid"; "input"]; ["required"; "field"]], false);
    ([["permission"; "denied"]; ["access"; "denied"]; ["unauthorized"]], false);
    ([["discord"; "api"]; ["rate"; "limit"]; ["interaction"; "failed"]], true);
    ([["network"; "error"]; ["connection"; "lost"]; ["socket"; "hang"]], true);
    ([["missing"; "environment"]; ["configuration"; "error"]; ["invalid"; "config"]], false) ].

(** [categorizeError(error).retryable]: the first pattern that matches
    decides; an unknown error is retryable. *)
Fixpoint categorize (ps : list (Pattern * bool)) (message : string) : bool :=
  match ps with
  | [] => true
  | (p, retryable) :: rest =>
      if test p message then retryable else categorize rest message
  end.

(** [handleDatabaseError(error, ...).shouldRetry] *)
Definition shouldRetry (message : string) : bool :=
  categorize errorPatterns message.

End ErrorHandler.

(* ================================================================== *)
(** ** The world: connection manager state, store and environment *)

Inductive Event : Type :=
| EvCreatePool                       (* mysql.createPool(...) returned *)
| EvPoolEnd                          (* pool.end() called *)
| EvAcquire (c : nat)                (* pool.getConnection() resolved to c *)
| EvRelease (c : nat)                (* c.release() *)
| EvPing (c : nat)
| EvSleep (ms : nat)                 (* setTimeout(resolve, ms) awaited *)
| EvExecute (c : nat) (T : Type) (s : Sql.Stmt T)
| EvBegin (c : nat)
| EvCommit (c : nat)
| EvRollback (c : nat)
| EvLog (level message : string).

Record World : Type := mkWorld {
  pool : bool;                       (* this.pool !== null *)
  reconnectAttempts : nat;
  database : Sql.Database;
  next_conn : nat;                   (* connections handed out so far *)
  script : list (option string);     (* outcome of the next driver calls:
                                        [Some msg] rejects with [msg] *)
  trace : list Event                 (* most recent event first *)
}.

Definition set_pool (b : bool) (w : World) : World :=
  {| pool := b; reconnectAttempts := reconnectAttempts w;
     database := database w; next_conn := next_conn w;
     script := script w; trace := trace w |}.

Definition set_reconnectAttempts (n : nat) (w : World) : World :=
  {| pool := pool w; reconnectAttempts := n;
     database := database w; next_conn := next_conn w;
     script := script w; trace := trace w |}.

Definition set_database (d : Sql.Database) (w : World) : World :=
  {| pool := pool w; reconnectAttempts := reconnectAttempts w;
     database := d; next_conn := next_conn w;
     script := script w; trace := trace w |}.

Definition set_next_conn (n : nat) (w : World) : World :=
  {| pool := pool w; reconnectAttempts := reconnectAttempts w;
     database := database w; next_conn := n;
     script := script w; trace := trace w |}.

Definition set_script (s : list (option string)) (w : World) : World :=
  {| pool := pool w; reconnectAttempts := reconnectAttempts w;
     database := database w; next_conn := next_conn w;
     script := s; trace := trace w |}.

Definition emit (e : Event) (w : World) : World :=
  {| pool := pool w; reconnectAttempts := reconnectAttempts w;
     database := database w; next_conn := next_conn w;
     script := script w; trace := e :: trace w |}.

(** Computations of the program: state passing with exceptions. *)
Definition M (A : Type) : Type := World -> Res A * World.

Definition ret {A : Type} (a : A) : M A := fun w => (Ok a, w).

Definition throw {A : Type} (msg : string) : M A := fun w => (Throw msg, w).

Definition bind {A B : Type} (m : M A) (k : A -> M B) : M B :=
  fun w =>
    match m w with
    | (Ok a, w') => k a w'
    | (Throw e, w') => (Throw e, w')
    end.

Notation "x <- m ;; k" := (bind m (fun x => k))
  (at level 61, m at next level, right associativity).
Notation "m ;;; k" := (bind m (fun _ => k))
  (at level 61, right associativity).

(** [try { m } catch (error) { handler error }] *)
Definition try_catch {A : Type} (m : M A) (handler : string -> M A) : M A :=
  fun w =>
    match m w with
    | (Ok a, w') => (Ok a, w')
    | (Throw e, w') => handler e w'
    end.

(** [try { m } finally { cleanup }]; an error of [cleanup] replaces the
    outcome of [m]. *)
Definition try_finally {A : Type} (m : M A) (cleanup : M unit) : M A :=
  fun w =>
    let (r, w') := m w in
    match cleanup w' with
    | (Ok _, w'') => (r, w'')
    | (Throw e, w'') => (Throw e, w'')
    end.

Definition modify (f : World -> World) : M unit := fun w => (Ok tt, f w).

Definition get {A : Type} (f : World -> A) : M A := fun w => (Ok (f w), w).

Definition log (level message : string) : M unit := modify (emit (EvLog level message)).

(** A call into the driver: the environment decides whether it rejects. *)
Definition driver_call : M unit :=
  fun w =>
    match script w with
    | [] => (Ok tt, w)
    | None :: rest => (Ok tt, set_script rest w)
    | Some msg :: rest => (Throw msg, set_script rest w)
    end.

(* ================================================================== *)
(** ** database/connection.ts: the connection manager *)

Module DatabaseConnection.

Definition maxReconnectAttempts : nat := 5.
Definition reconnectDelay : nat := 1000. (* Start with 1 second *)

(** *** The driver (mysql2/promise) *)

(** [this.pool = mysql.createPool({...})] *)
Definition createPool : M unit :=
  driver_call ;;; modify (emit EvCreatePool) ;;; modify (set_pool true).

(** [await this.pool.getConnection()] *)
Definition pool_getConnection : M nat :=
  driver_call ;;;
  c <- get next_conn ;;
  modify (set_next_conn (S c)) ;;;
  modify (emit (EvAcquire c)) ;;;
  ret c.

Definition pool_end : M unit := modify (emit EvPoolEnd) ;;; driver_call.

Definition ping (c : nat) : M unit := modify (emit (EvPing c)) ;;; driver_call.

Definition release (c : nat) : M unit := modify (emit (EvRelease c)).

Definition execute {T : Type} (c : nat) (s : Sql.Stmt T) : M T :=
  modify (emit (EvExecute c s)) ;;;
  driver_call ;;;
  fun w => let (r, d) := Sql.exec s (database w) in (Ok r, set_database d w).

Definition beginTransaction (c : nat) : M unit :=
  modify (emit (EvBegin c)) ;;; driver_call.

Definition commit (c : nat) : M unit :=
  modify (emit (EvCommit c)) ;;; driver_call.

Definition rollback (c : nat) : M unit :=
  modify (emit (EvRollback c)) ;;; driver_call.

(** [await new Promise(resolve => setTimeout(resolve, delay))] *)
Definition sleep (ms : nat) : M unit := modify (emit (EvSleep ms)).

(** *** The class *)

Definition testConnection : M unit :=
  p <- get pool ;;
  if negb p then throw "Database pool not initialized"
  else
    connection <- pool_getConnection ;;
    try_finally
      (try_catch (ping connection)
         (fun error =>
            log "error" "Database connection test failed" ;;; throw error))
      (release connection).

(** The [try] block of [connect]. *)
Definition connect_try : M unit :=
  p <- get pool ;;
  if p then ret tt (* Already connected *)
  else
    createPool ;;;
    (* Test the connection *)
    testConnection ;;;
    modify (set_reconnectAttempts 0). (* Reset on successful connection *)

(** [connect] and [handleConnectionError] call each other; [fuel] bounds
    the depth of the calls and [None] means it ran out. *)
Definition Fueled (A : Type) : Type := World -> option (Res A * World).

Definition handleConnectionError (connect : Fueled unit) (error : string)
  : Fueled unit :=
  fun w =>
    if maxReconnectAttempts <=? reconnectAttempts w then
      Some (Throw ("Failed to connect to database after "
                   ++ of_nat maxReconnectAttempts ++ " attempts: " ++ error)%string,
            w)
    else
      let w := set_reconnectAttempts (S (reconnectAttempts w)) w in
      let delay := reconnectDelay * 2 ^ (reconnectAttempts w - 1) in
      match sleep delay w with
      | (_, w) => connect w
      end.

Fixpoint connect_fuel (fuel : nat) : Fueled unit :=
  fun w =>
    match fuel with
    | O => None
    | S fuel' =>
        match connect_try w with
        | (Ok u, w') => Some (Ok u, w')
        | (Throw error, w') =>
            if ErrorHandler.shouldRetry error
            then handleConnectionError (connect_fuel fuel') error w'
            else Some (Throw error, w')
        end
    end.

(** One more call than there are attempts always suffices
    ([connect_fuel_total] below). *)
Definition connect : M unit :=
  fun w =>
    match connect_fuel (S maxReconnectAttempts) w with
    | Some r => r
    | None => (Throw "connect: call depth exceeded", w)
    end.

Definition disconnect : M unit :=
  p <- get pool ;;
  if p then
    try_catch (pool_end ;;; modify (set_pool false))
      (fun error =>
         log "error" "Error closing database connection pool" ;;; throw error)
  else ret tt.

Definition reconnect : M unit :=
  try_catch (disconnect ;;; connect)
    (fun error => log "error" "Database reconnection failed" ;;; throw error).

Definition getConnection : M nat :=
  p <- get pool ;;
  (if negb p then connect else ret tt) ;;;
  p <- get pool ;;
  if negb p then throw "Database connection pool not available"
  else
    try_catch pool_getConnection
      (fun error =>
         if ErrorHandler.shouldRetry error then
           (* Try to reconnect and get connection again *)
           reconnect ;;;
           p <- get pool ;;
           if negb p then throw "Failed to reconnect to database"
           else pool_getConnection
         else throw error).

Definition query {T : Type} (sql : Sql.Stmt T) : M T :=
  connection <- getConnection ;;
  try_finally
    (try_catch (execute connection sql)
       (fun error => log "error" "Database query failed" ;;; throw error))
    (release connection).

Definition transaction {T : Type} (callback : nat -> M T) : M T :=
  connection <- getConnection ;;
  try_finally
    (try_catch
       (beginTransaction connection ;;;
        result <- callback connection ;;
        commit connection ;;;
        ret result)
       (fun error =>
          log "warn" "Database transaction failed, rolling back" ;;;
          try_catch (rollback connection)
            (fun rollbackError =>
               log "error" "Failed to rollback transaction") ;;;
          throw error))
    (release connection).

End DatabaseConnection.

(* ================================================================== *)
(** ** database/BlacklistRepository.ts *)

(** [String(v)], as a template literal converts its holes. *)
Definition to_template (v : JsVal) : string :=
  match v with
  | JUndefined => "undefined"
  | JNull => "null"
  | JBool true => "true"
  | JBool false => "false"
  | JNumber n => NilEmpty.string_of_int (Z.to_int n)
  | JString s => s
  end.

(** The text bound to a placeholder; only strings pass the validators. *)
Definition text_of (v : JsVal) : string :=
  match v with JString s => s | _ => to_template v end.

(** [v || null] as a bound parameter. *)
Definition or_null (v : JsVal) : option string :=
  if truthy v then Some (text_of v) else None.

Definition lift {A : Type} (r : Res A) : M A :=
  match r with Ok a => ret a | Throw e => throw e end.

(** The interface the service is written against. *)
Record IBlacklistRepository : Type := mkRepository {
  create : CreateBlacklistEntryInput -> M Z;
  search : SearchCriteria -> M (list BlacklistEntry);
  findById : Z -> M (option BlacklistEntry);
  deleteById : Z -> M bool;
  exists_ : JsVal -> M bool
}.

Module BlacklistRepository.

Import DatabaseConnection.

Definition mapRowToEntry (row : Sql.Row) : BlacklistEntry :=
  {| id := Some (Sql.id row);
     identifier := Sql.identifier row;
     createdAt := Sql.created_at row;
     createdBy := Sql.created_by row;
     firstName :=
       match Sql.first_name row with
       | Some n => if is_empty n then None else Some n
       | None => None
       end;
     lastName :=
       match Sql.last_name row with
       | Some n => if is_empty n then None else Some n
       | None => None
       end |}.

Definition create (entry : CreateBlacklistEntryInput) : M Z :=
  (* Validate and sanitize input *)
  sanitizedEntry <- lift (sanitizeBlacklistEntryInput entry) ;;
  let validation := validateBlacklistEntry sanitizedEntry in
  if negb (isValid validation) then
    throw ("Invalid blacklist entry: " ++ join ", " (errors validation))%string
  else
    let sql :=
      Sql.Insert (text_of (CreateInput.identifier sanitizedEntry))
                 (or_null (CreateInput.firstName sanitizedEntry))
                 (or_null (CreateInput.lastName sanitizedEntry))
                 (text_of (CreateInput.createdBy sanitizedEntry)) in
    try_catch
      (result <- query sql ;; ret (Sql.insertId result))
      (fun error => throw "Failed to create blacklist entry").

Definition search (criteria : SearchCriteria) : M (list BlacklistEntry) :=
  (* Validate and sanitize search criteria *)
  sanitizedCriteria <- lift (sanitizeSearchCriteria criteria) ;;
  let validation := validateSearchCriteria sanitizedCriteria in
  if negb (isValid validation) then
    throw ("Invalid search criteria: " ++ join ", " (errors validation))%string
  else
    let params : list Sql.Pred := [] in
    (* Search by identifier (exact match) *)
    let params :=
      if truthy (Criteria.identifier sanitizedCriteria)
      then params ++ [Sql.IdentifierEq (text_of (Criteria.identifier sanitizedCriteria))]
      else params in
    (* Search by first name (partial match) *)
    let params :=
      if truthy (Criteria.firstName sanitizedCriteria)
      then params ++ [Sql.FirstNameLike
                        ("%" ++ to_template (Criteria.firstName sanitizedCriteria) ++ "%")%string]
      else params in
    (* Search by last name (partial match) *)
    let params :=
      if truthy (Criteria.lastName sanitizedCriteria)
      then params ++ [Sql.LastNameLike
                        ("%" ++ to_template (Criteria.lastName sanitizedCriteria) ++ "%")%string]
      else params in
    try_catch
      (rows <- query (Sql.SelectWhere params) ;;
       ret (map mapRowToEntry rows))
      (fun error => throw "Failed to search blacklist entries").

Definition invalid_id (id : Z) : bool := ((id =? 0) || (id <=? 0))%Z.

Definition findById (id : Z) : M (option BlacklistEntry) :=
  if invalid_id id then throw "ID must be a positive number"
  else
    try_catch
      (rows <- query (Sql.SelectById id) ;;
       match rows with
       | row :: _ => ret (Some (mapRowToEntry row))
       | [] => ret None
       end)
      (fun error => throw "Failed to find blacklist entry").

Definition deleteById (id : Z) : M bool :=
  if invalid_id id then throw "ID must be a positive number"
  else
    try_catch
      (result <- query (Sql.DeleteById id) ;;
       let deleted := (0 <? Sql.affectedRows result)%Z in
       ret deleted)
      (fun error => throw "Failed to delete blacklist entry").

(** [!identifier || typeof identifier !== 'string' ||
     identifier.trim().length === 0] *)
Definition blank_identifier (identifier : JsVal) : bool :=
  match identifier with
  | JString s => is_empty s || (String.length (trim s) =? 0)
  | _ => true
  end.

Definition exists_ (identifier : JsVal) : M bool :=
  if blank_identifier identifier then
    throw "Identifier is required and must be a non-empty string"
  else
    try_catch
      (rows <- query (Sql.CountByIdentifier (trim (text_of identifier))) ;;
       match rows with
       | row :: _ => ret (0 <? Sql.count row)%Z
       | [] => throw "Cannot read properties of undefined (reading 'count')"
       end)
      (fun error => throw "Failed to check blacklist entry existence").

Definition repository : IBlacklistRepository :=
  mkRepository create search findById deleteById exists_.

End BlacklistRepository.

(* ================================================================== *)
(** ** services/BlacklistService.ts *)

Module BlacklistService.

Section Service.

(** [constructor(repository?: IBlacklistRepository)] *)
Variable repository : IBlacklistRepository.

Definition checkDuplicate (identifier : JsVal) : M bool :=
  if BlacklistRepository.blank_identifier identifier then
    throw "Invalid identifier: Identifier must be a non-empty string"
  else
    try_catch
      (exists_ repository (JString (trim (text_of identifier))))
      (fun error => throw "Failed to check for duplicate entry").

Definition addEntry (entry : CreateBlacklistEntryInput) : M Z :=
  (* Sanitize input data *)
  sanitizedEntry <- lift (sanitizeBlacklistEntryInput entry) ;;
  (* Validate entry data *)
  let validation := validateBlacklistEntry sanitizedEntry in
  if negb (isValid validation) then
    throw ("Validation failed: " ++ join ", " (errors validation))%string
  else
    (* Check for duplicate entries *)
    try_catch
      (isDuplicate <- checkDuplicate (CreateInput.identifier sanitizedEntry) ;;
       if isDuplicate : bool then
         throw ("Duplicate entry: An entry with identifier " ++ dquote
                ++ to_template (CreateInput.identifier sanitizedEntry)
                ++ dquote ++ " already exists")%string
       else ret tt)
      (fun error =>
         if includes "Duplicate entry" error
         then throw error (* Re-throw duplicate errors *)
         else throw "Failed to verify entry uniqueness") ;;;
    try_catch
      (create repository sanitizedEntry)
      (fun error => throw "Failed to add blacklist entry to database").

Definition searchEntries (criteria : SearchCriteria)
  : M (list BlacklistEntry) :=
  sanitizedCriteria <- lift (sanitizeSearchCriteria criteria) ;;
  let validation := validateSearchCriteria sanitizedCriteria in
  if negb (isValid validation) then
    throw ("Search validation failed: " ++ join ", " (errors validation))%string
  else
    try_catch
      (search repository sanitizedCriteria)
      (fun error => throw "Failed to search blacklist entries").

Definition removeEntry (id : Z) : M bool :=
  (* Validate ID *)
  if BlacklistRepository.invalid_id id then
    throw "Invalid ID: ID must be a positive number"
  else
    try_catch
      ((* Check if entry exists before attempting deletion *)
       existingEntry <- findById repository id ;;
       match existingEntry with
       | None => ret false (* Entry not found *)
       | Some _ =>
           deleted <- deleteById repository id ;;
           ret deleted
       end)
      (fun error => throw "Failed to remove blacklist entry").

Definition getById (id : Z) : M (option BlacklistEntry) :=
  if BlacklistRepository.invalid_id id then
    throw "Invalid ID: ID must be a positive number"
  else
    try_catch
      (findById repository id)
      (fun error => throw "Failed to get entry by ID").

End Service.

End BlacklistService.

(* ================================================================== *)
(** * Notions used to state the properties *)

(** A string that does not begin with white space. *)
Definition starts_clean (s : string) : Prop :=
  match s with
  | EmptyString => True
  | String c _ => is_ws c = false
  end.

(** Running [g] on the value [r] holds, as [g(f(x))] does when [f] may throw. *)
Definition and_then {A B : Type} (r : Res A) (g : A -> Res B) : Res B :=
  match r with
  | Ok a => g a
  | Throw e => Throw e
  end.

(** ** Sanitizing, in the words of the specification *)

(** A field that holds a string or nothing, as the declared types say. *)
Definition string_or_absent (v : JsVal) : Prop :=
  match v with
  | JUndefined | JNull | JString _ => True
  | JBool _ | JNumber _ => False
  end.

(** The field [vout] is the field [vin] sanitized: trimmed, and absent
    when nothing but white space was there. *)
Definition sanitized_field (vin vout : JsVal) : Prop :=
  match vin with
  | JString s =>
      if is_empty (trim s) then vout = JUndefined else vout = JString (trim s)
  | _ => vout = JUndefined
  end.

(** A required field after sanitizing: always a string, the trimmed text,
    empty when there was none. *)
Definition required_field (vin vout : JsVal) : Prop :=
  match vin with
  | JString s => vout = JString (trim s)
  | _ => vout = JString ""
  end.

Definition blank_identifier_input : CreateBlacklistEntryInput :=
  CreateInput.mkInput (JString "   ") JUndefined JUndefined (JString "U1").

Definition padded_criteria : SearchCriteria :=
  Criteria.mkCriteria (JString " 0812345678 ") (JString "  ") JUndefined.

Definition padded_input : CreateBlacklistEntryInput :=
  CreateInput.mkInput (JString " 0812345678 ") (JString " John ") (JString "")
                      (JString "U1 ").

(** ** Validation, in the words of the specification *)

(** A constraint on an input and the message that reports it. *)
Record Rule (I : Type) : Type := mkRule {
  violated : I -> bool;
  message : string
}.

Definition is_string (v : JsVal) : bool :=
  match v with JString _ => true | _ => false end.

Definition provided (v : JsVal) : bool :=
  match v with JUndefined => false | _ => true end.

Definition blank (v : JsVal) : bool :=
  match v with JString s => is_empty (trim s) | _ => false end.

Definition longer_than (n : nat) (v : JsVal) : bool :=
  match v with JString s => n <? String.length s | _ => false end.

(** The constraints of each field of a create input: required-ness and
    type, then emptiness, then the length bound. *)
Definition entry_rules : list (list (Rule CreateBlacklistEntryInput)) :=
  [ [ mkRule (fun i => negb (is_string (CreateInput.identifier i)))
        "Identifier is required and must be a string";
      mkRule (fun i => blank (CreateInput.identifier i))
        "Identifier cannot be empty";
      mkRule (fun i => longer_than 255 (CreateInput.identifier i))
        "Identifier cannot exceed 255 characters" ];
    [ mkRule (fun i => negb (is_string (CreateInput.createdBy i)))
        "CreatedBy is required and must be a string";
      mkRule (fun i => blank (CreateInput.createdBy i))
        "CreatedBy cannot be empty";
      mkRule (fun i => longer_than 20 (CreateInput.createdBy i))
        "CreatedBy cannot exceed 20 characters" ];
    [ mkRule (fun i => provided (CreateInput.firstName i)
                       && negb (is_string (CreateInput.firstName i)))
        "FirstName must be a string";
      mkRule (fun i => longer_than 100 (CreateInput.firstName i))
        "FirstName cannot exceed 100 characters" ];
    [ mkRule (fun i => provided (CreateInput.lastName i)
                       && negb (is_string (CreateInput.lastName i)))
        "LastName must be a string";
      mkRule (fun i => longer_than 100 (CreateInput.lastName i))
        "LastName cannot exceed 100 characters" ] ].

(** The constraints of search criteria: at least one field, then for each
    field that is provided its type, emptiness and length bound. *)
Definition criteria_rules : list (list (Rule SearchCriteria)) :=
  [ [ mkRule (fun c => negb (truthy (Criteria.identifier c))
                       && negb (truthy (Criteria.firstName c))
                       && negb (truthy (Criteria.lastName c)))
        "At least one search criterion must be provided (identifier, firstName, or lastName)" ];
    [ mkRule (fun c => provided (Criteria.identifier c)
                       && negb (is_string (Criteria.identifier c)))
        "Identifier must be a string";
      mkRule (fun c => blank (Criteria.identifier c))
        "Identifier cannot be empty when provided";
      mkRule (fun c => longer_than 255 (Criteria.identifier c))
        "Identifier cannot exceed 255 characters" ];
    [ mkRule (fun c => provided (Criteria.firstName c)
                       && negb (is_string (Criteria.firstName c)))
        "FirstName must be a string";
      mkRule (fun c => blank (Criteria.firstName c))
        "FirstName cannot be empty when provided";
      mkRule (fun c => longer_than 100 (Criteria.firstName c))
        "FirstName cannot exceed 100 characters" ];
    [ mkRule (fun c => provided (Criteria.lastName c)
                       && negb (is_string (Criteria.lastName c)))
        "LastName must be a string";
      mkRule (fun c => blank (Criteria.lastName c))
        "LastName cannot be empty when provided";
      mkRule (fun c => longer_than 100 (Criteria.lastName c))
        "LastName cannot exceed 100 characters" ] ].

(** Every violated constraint has its message among the errors. *)
Definition reports_every_violation {I : Type} (rules : list (list (Rule I)))
    (validate : I -> ValidationResult) (x : I) : Prop :=
  forall (group : list (Rule I)) (rule : Rule I),
    In group rules -> In rule group ->
    violated rule x = true -> In (message rule) (errors (validate x)).

(** The message of the first violated constraint of a field, if any. *)
Definition first_violation {I : Type} (group : list (Rule I)) (x : I)
  : list string :=
  match find (fun r => violated r x) group with
  | Some r => [message r]
  | None => []
  end.

Definition first_violations {I : Type} (rules : list (list (Rule I))) (x : I)
  : list string :=
  flat_map (fun group => first_violation group x) rules.

Definition no_violation {I : Type} (rules : list (list (Rule I))) (x : I)
  : bool :=
  forallb (fun group => forallb (fun r => negb (violated r x)) group) rules.

Definition is_nil {A : Type} (l : list A) : bool :=
  match l with [] => true | _ :: _ => false end.

(** An identifier of 256 spaces: blank, and longer than 255. *)
Definition spaces_input : CreateBlacklistEntryInput :=
  CreateInput.mkInput (JString (replicate 256 " "%char)) JUndefined JUndefined
                      (JString "U1").

(** ** Observations on the world *)

Definition is_execute (e : Event) : bool :=
  match e with EvExecute _ _ => true | _ => false end.

(** The statements sent to the store so far, most recent first. *)
Definition executed (tr : list Event) : list Event := filter is_execute tr.

Definition issues_insert (e : Event) : bool :=
  match e with EvExecute _ s => Sql.is_insert s | _ => false end.

Definition issues_delete (e : Event) : bool :=
  match e with EvExecute _ s => Sql.is_delete s | _ => false end.

(** How many INSERT, DELETE statements the trace holds. *)
Definition inserts (tr : list Event) : nat := List.length (filter issues_insert tr).
Definition deletes (tr : list Event) : nat := List.length (filter issues_delete tr).

Definition is_release_of (c : nat) (e : Event) : bool :=
  match e with EvRelease c' => c' =? c | _ => false end.

(** How many times connection [c] was released. *)
Definition releases (c : nat) (tr : list Event) : nat :=
  List.length (filter (is_release_of c) tr).

(** What the store holds and what was sent to it. *)
Definition store_view (w : World) : Sql.Database * list Event :=
  (database w, executed (trace w)).

(** The computation [m] leaves the observation [proj] as it found it,
    whatever its outcome. *)
Definition preserves {X A : Type} (proj : World -> X) (m : M A) : Prop :=
  forall w, proj (snd (m w)) = proj w.

(** The environment rejects no call any more. *)
Definition no_faults (w : World) : Prop := script w = [].

(** The releases of connection [c] seen so far. *)
Definition released (c : nat) (w : World) : nat := releases c (trace w).

(** A store with no entry, and a process that has not connected yet, with
    the outcomes [outcomes] ahead for its driver calls. *)
Definition empty_database : Sql.Database :=
  {| Sql.rows := []; Sql.auto_increment := 1; Sql.clock := 0 |}.

Definition fresh_world (outcomes : list (option string)) : World :=
  {| pool := false; reconnectAttempts := 0; database := empty_database;
     next_conn := 0; script := outcomes; trace := [] |}.

(** The delays [connect] has waited, most recent first. *)
Definition sleeps (tr : list Event) : list nat :=
  flat_map (fun e => match e with EvSleep ms => [ms] | _ => [] end) tr.

(** A probe that fails once: the pool is created, the first
    [pool.getConnection()] is refused. *)
Definition failed_probe : World :=
  fresh_world [None; Some "connect ECONNREFUSED 127.0.0.1:3306"].

(** A server that refuses every pool creation. *)
Definition refused_six_times : World :=
  fresh_world (repeat (Some "connect ECONNREFUSED 127.0.0.1:3306") 6).

(** Callbacks used as instances: one that returns, one that throws. *)
Definition callback_returns (connection : nat) : M nat := ret 42.

Definition callback_throws (connection : nat) : M nat :=
  DatabaseConnection.execute connection (Sql.SelectById 1) ;;; throw "boom".

(** The [catch] block of [transaction]. *)
Definition rollback_handler {T : Type} (connection : nat) (error : string) : M T :=
  log "warn" "Database transaction failed, rolling back" ;;;
  try_catch (DatabaseConnection.rollback connection)
    (fun rollbackError => log "error" "Failed to rollback transaction") ;;;
  throw error.

(** A server that denies access: the pool cannot be created, and the
    error is not one to retry. *)
Definition access_denied : World :=
  fresh_world [Some "Access denied for user 'bot'@'localhost'"].

(** A connected process whose next rollback will be rejected. *)
Definition rollback_fails : World :=
  fresh_world [None; None; None; None; None; None; Some "Connection lost"].

(** The delay the specification gives for the [n]-th retry, in ms. *)
Definition backoff (n : nat) : nat := 1000 * 2 ^ (n - 1).

Definition slept (w : World) : list nat := sleeps (trace w).

(** ** The store, in the words of the specification *)

(** Some stored entry has the identifier [ident] (as the store compares
    identifiers). *)
Definition stored (ident : string) (d : Sql.Database) : bool :=
  existsb (fun r => Sql.str_eq (Sql.identifier r) ident) (Sql.rows d).

(** Some stored entry has the id [i]. *)
Definition stored_id (i : Z) (d : Sql.Database) : bool :=
  existsb (Sql.has_id i) (Sql.rows d).

(** AUTO_INCREMENT: ids are positive and the next one is above all the
    ids in the table. *)
Definition fresh_ids (d : Sql.Database) : Prop :=
  (0 < Sql.auto_increment d)%Z
  /\ Forall (fun r => (Sql.id r < Sql.auto_increment d)%Z) (Sql.rows d).

(** The text a required field is stored with. *)
Definition trimmed_text (v : JsVal) : string :=
  match v with JString s => trim s | _ => "" end.

(** The text an optional field is stored with, if any. *)
Definition optional_text (v : JsVal) : option string :=
  match v with
  | JString s => if is_empty (trim s) then None else Some (trim s)
  | _ => None
  end.

(** The error of a rejected duplicate. *)
Definition duplicate_error (ident : string) : string :=
  ("Duplicate entry: An entry with identifier " ++ dquote ++ ident ++ dquote
   ++ " already exists")%string.

Definition service_addEntry := BlacklistService.addEntry BlacklistRepository.repository.
Definition service_getById := BlacklistService.getById BlacklistRepository.repository.
Definition service_removeEntry := BlacklistService.removeEntry BlacklistRepository.repository.
Definition service_searchEntries := BlacklistService.searchEntries BlacklistRepository.repository.
Definition service_checkDuplicate := BlacklistService.checkDuplicate BlacklistRepository.repository.

(** Instances: a store that holds one entry. *)
Definition one_entry : World :=
  {| pool := false; reconnectAttempts := 0;
     database :=
       {| Sql.rows := [ {| Sql.id := 1; Sql.identifier := "0812345678";
                           Sql.first_name := Some "Johnson";
                           Sql.last_name := Some "Doe";
                           Sql.created_at := 0; Sql.created_by := "U1" |} ];
          Sql.auto_increment := 2; Sql.clock := 1 |};
     next_conn := 0; script := []; trace := [] |}.

(** The same store behind a server that is down. *)
Definition one_entry_down : World :=
  set_script [Some "Access denied for user 'bot'@'localhost'"] one_entry.

Definition john_doe : CreateBlacklistEntryInput :=
  CreateInput.mkInput (JString "0812345678") (JString "John") (JString "Doe")
                      (JString "U1").


(** The repository when another client deletes the entry [i] after the
    lookup of [removeEntry] and before its DELETE. *)
Definition raced_repository (i : Z) : IBlacklistRepository :=
  mkRepository
    (create BlacklistRepository.repository)
    (search BlacklistRepository.repository)
    BlacklistRepository.findById
    (fun id =>
       modify (fun w => set_database
                          (snd (Sql.exec (Sql.DeleteById i) (database w))) w) ;;;
       BlacklistRepository.deleteById id)
    (exists_ BlacklistRepository.repository).

(** An optional field of an entry as a property of a create input. *)
Definition of_option (o : option string) : JsVal :=
  match o with Some s => JString s | None => JUndefined end.

(** A new input for the store [one_entry], padded with white space. *)
Definition jane_padded : CreateBlacklistEntryInput :=
  CreateInput.mkInput (JString "  acc-42 ") (JString " Jane ") (JString "   ")
                      (JString " U2").

(** ** Name search, in the words of the specification *)

(** The small letter of a capital letter of U+0000..U+00FF (the ASCII
    capitals and the capitals from A with grave to thorn); any other
    character is left as it is. *)
Definition to_lower (c : ascii) : ascii :=
  let n := nat_of_ascii c in
  if ((65 <=? n) && (n <=? 90))
     || ((192 <=? n) && (n <=? 222) && negb (n =? 215))
  then ascii_of_nat (n + 32) else c.

(** Two texts that are equal character by character as [same] compares
    characters. *)
Fixpoint pointwise (same : ascii -> ascii -> bool) (a b : string) : bool :=
  match a, b with
  | EmptyString, EmptyString => true
  | String x a', String y b' => same x y && pointwise same a' b'
  | _, _ => false
  end.

Definition same_letter (a b : ascii) : bool := Ascii.eqb (to_lower a) (to_lower b).

(** [name] contains a run of characters that is [frag] as [same] compares
    characters. *)
Definition contains_as (same : ascii -> ascii -> bool) (frag name : string)
  : Prop :=
  exists pre mid post : string,
    name = (pre ++ mid ++ post)%string /\ pointwise same frag mid = true.

(** [name] contains [frag], letter case apart. *)
Definition contains_ignoring_case (frag name : string) : Prop :=
  contains_as same_letter frag name.

(** [name] contains [frag] as the collation of the table compares
    characters: letter case and accents apart. *)
Definition contains_in_collation (frag name : string) : Prop :=
  contains_as Sql.coll_eqb frag name.

(** No character of [s] is special in a LIKE pattern. *)
Fixpoint no_wildcard (s : string) : bool :=
  match s with
  | EmptyString => true
  | String c r =>
      negb (Ascii.eqb c Sql.percent) && negb (Ascii.eqb c Sql.underscore)
      && negb (Ascii.eqb c Sql.backslash) && no_wildcard r
  end.

(** The pattern of a text without wildcards. *)
Fixpoint literals (s : string) : list Sql.Tok :=
  match s with
  | EmptyString => []
  | String c r => Sql.TLit c :: literals r
  end.

Definition by_firstName (frag : string) : SearchCriteria :=
  Criteria.mkCriteria JUndefined (JString frag) JUndefined.

Definition by_lastName (frag : string) : SearchCriteria :=
  Criteria.mkCriteria JUndefined JUndefined (JString frag).

(** The rows a name search for [frag] selects on the column [column]. *)
Definition name_matches (column : Sql.Row -> option string) (frag : string)
    (r : Sql.Row) : Prop :=
  exists n, column r = Some n /\ contains_in_collation frag n.

(** Capital and small e with acute, U+00C9 and U+00E9. *)
Definition E_acute : ascii := ascii_of_nat 201.
Definition e_acute : ascii := ascii_of_nat 233.

(** A store that holds one entry, with an accent in its first name. *)
Definition accent_entry : World :=
  {| pool := false; reconnectAttempts := 0;
     database :=
       {| Sql.rows := [ {| Sql.id := 1; Sql.identifier := "acc-7";
                           Sql.first_name := Some ("JOS" ++ String E_acute "")%string;
                           Sql.last_name := None;
                           Sql.created_at := 0; Sql.created_by := "U1" |} ];
          Sql.auto_increment := 2; Sql.clock := 1 |};
     next_conn := 0; script := []; trace := [] |}.

(* ================================================================== *)
(** * More of the repository, the service and the connection manager *)

(** ** database/BlacklistRepository.ts: the two finders *)

Module BlacklistRepositoryFinders.

Import DatabaseConnection.

(** [WHERE identifier = ? ORDER BY created_at DESC] *)
Definition findByIdentifier (identifier : JsVal) : M (list BlacklistEntry) :=
  if BlacklistRepository.blank_identifier identifier then
    throw "Identifier is required and must be a non-empty string"
  else
    try_catch
      (rows <- query (Sql.SelectWhere
                        [Sql.IdentifierEq (trim (text_of identifier))]) ;;
       ret (map BlacklistRepository.mapRowToEntry rows))
      (fun error => throw "Failed to search blacklist entries").

(** [if (name && name.trim()) { sql += ...; params.push(`%${name.trim()}%`) }]:
    the conjuncts one name adds. *)
Definition name_param (expr : string) (like : string -> Sql.Pred)
    (name : JsVal) : Res (list Sql.Pred) :=
  if truthy name then
    match name with
    | JString s =>
        if is_empty (trim s) then Ok []
        else Ok [like ("%" ++ trim s ++ "%")%string]
    | _ => Throw (not_a_function expr)
    end
  else Ok [].

Definition findByName (firstName lastName : JsVal) : M (list BlacklistEntry) :=
  if negb (truthy firstName) && negb (truthy lastName) then
    throw "At least one name parameter (firstName or lastName) must be provided"
  else
    first <- lift (name_param "firstName.trim" Sql.FirstNameLike firstName) ;;
    last <- lift (name_param "lastName.trim" Sql.LastNameLike lastName) ;;
    let params := first ++ last in
    try_catch
      (rows <- query (Sql.SelectWhere params) ;;
       ret (map BlacklistRepository.mapRowToEntry rows))
      (fun error => throw "Failed to search blacklist entries by name").

End BlacklistRepositoryFinders.

(** ** services/BlacklistService.ts: the two finders *)

Module BlacklistServiceFinders.

Section Finders.

(** The two methods of [IBlacklistRepository] the finders call. *)
Variable repository_findByIdentifier : JsVal -> M (list BlacklistEntry).
Variable repository_findByName : JsVal -> JsVal -> M (list BlacklistEntry).

Definition findByIdentifier (identifier : JsVal) : M (list BlacklistEntry) :=
  if BlacklistRepository.blank_identifier identifier then
    throw "Invalid identifier: Identifier must be a non-empty string"
  else
    try_catch
      (repository_findByIdentifier (JString (trim (text_of identifier))))
      (fun error => throw "Failed to find entries by identifier").

Definition findByName (firstName lastName : JsVal) : M (list BlacklistEntry) :=
  if negb (truthy firstName) && negb (truthy lastName) then
    throw "At least one name parameter must be provided"
  else
    try_catch
      (repository_findByName firstName lastName)
      (fun error => throw "Failed to find entries by name").

End Finders.

End BlacklistServiceFinders.

(** ** database/connection.ts: [isConnected] *)

Definition isConnected (w : World) : bool := pool w.

(** ** Notions used to state the further properties *)

Definition service_findByIdentifier : JsVal -> M (list BlacklistEntry) :=
  BlacklistServiceFinders.findByIdentifier
    BlacklistRepositoryFinders.findByIdentifier.

Definition service_findByName : JsVal -> JsVal -> M (list BlacklistEntry) :=
  BlacklistServiceFinders.findByName BlacklistRepositoryFinders.findByName.

(** Criteria with no field left. *)
Definition empty_criteria : SearchCriteria :=
  Criteria.mkCriteria JUndefined JUndefined JUndefined.

Definition no_criterion_error : string :=
  "Search validation failed: At least one search criterion must be provided (identifier, firstName, or lastName)".

(** The row [addEntry] writes for the input [entry]. *)
Definition row_of (entry : CreateBlacklistEntryInput) (d : Sql.Database)
  : Sql.Row :=
  {| Sql.id := Sql.auto_increment d;
     Sql.identifier := trimmed_text (CreateInput.identifier entry);
     Sql.first_name := optional_text (CreateInput.firstName entry);
     Sql.last_name := optional_text (CreateInput.lastName entry);
     Sql.created_at := Sql.clock d;
     Sql.created_by := trimmed_text (CreateInput.createdBy entry) |}.

(** A text as the service stores it: trimmed, not empty, within its bound. *)
Definition kept_text (bound : nat) (s : string) : Prop :=
  trim s = s /\ is_empty s = false /\ String.length s <= bound.

Definition kept_name (o : option string) : Prop :=
  match o with Some n => kept_text 100 n | None => True end.

(** A row as the service stores it. *)
Definition well_formed_row (r : Sql.Row) : Prop :=
  kept_text 255 (Sql.identifier r)
  /\ kept_text 20 (Sql.created_by r)
  /\ kept_name (Sql.first_name r)
  /\ kept_name (Sql.last_name r).

(** No two stored entries have the same identifier (as the store compares
    identifiers). *)
Fixpoint distinct_identifiers (rows : list Sql.Row) : Prop :=
  match rows with
  | [] => True
  | r :: rest =>
      Forall (fun r' => Sql.str_eq (Sql.identifier r) (Sql.identifier r') = false) rest
      /\ distinct_identifiers rest
  end.

(** A row satisfies every criterion that is provided. *)
Definition criterion_holds (pred : string -> Sql.Pred) (wrap : string -> string)
    (v : JsVal) (r : Sql.Row) : bool :=
  match v with
  | JString s => Sql.holds (pred (wrap s)) r
  | _ => true
  end.

Definition around (s : string) : string := ("%" ++ s ++ "%")%string.

Definition satisfies (c : SearchCriteria) (r : Sql.Row) : bool :=
  criterion_holds Sql.IdentifierEq (fun s => s) (Criteria.identifier c) r
  && criterion_holds Sql.FirstNameLike around (Criteria.firstName c) r
  && criterion_holds Sql.LastNameLike around (Criteria.lastName c) r.

(** Newest first. *)
Definition newest_first (rows : list Sql.Row) : Prop :=
  StronglySorted (fun a b => (Sql.created_at b <= Sql.created_at a)%Z) rows.

(** Connections acquired and not yet released. *)
Fixpoint outstanding (tr : list Event) : Z :=
  match tr with
  | [] => 0
  | EvAcquire _ :: rest => (outstanding rest + 1)%Z
  | EvRelease _ :: rest => (outstanding rest - 1)%Z
  | _ :: rest => outstanding rest
  end.

Definition in_use (w : World) : Z := outstanding (trace w).

(** How often the pool was closed. *)
Definition pool_ends (tr : list Event) : nat :=
  List.length (filter (fun e => match e with EvPoolEnd => true | _ => false end) tr).

(** Two texts that differ in the case of ASCII letters at most. *)
Fixpoint same_text (a b : string) : bool :=
  match a, b with
  | EmptyString, EmptyString => true
  | String x a', String y b' => ErrorHandler.char_eqb x y && same_text a' b'
  | _, _ => false
  end.

(** [s] contains [needle], letter case apart. *)
Definition mentions (needle s : string) : Prop :=
  exists pre mid post : string,
    s = (pre ++ mid ++ post)%string /\ same_text needle mid = true.

(** The conjuncts of a search, from the criteria as given. *)
Definition conjunct (pred : string -> Sql.Pred) (wrap : string -> string)
    (v : JsVal) : list Sql.Pred :=
  match optional_text v with
  | Some t => [pred (wrap t)]
  | None => []
  end.

Definition conjuncts (raw : SearchCriteria) : list Sql.Pred :=
  conjunct Sql.IdentifierEq (fun s => s) (Criteria.identifier raw)
  ++ conjunct Sql.FirstNameLike around (Criteria.firstName raw)
  ++ conjunct Sql.LastNameLike around (Criteria.lastName raw).

Definition by_names (firstName lastName : JsVal) : SearchCriteria :=
  Criteria.mkCriteria JUndefined firstName lastName.

(** The events [connect] and its helpers emit. *)
Definition connect_event (e : Event) : bool :=
  match e with
  | EvCreatePool | EvAcquire _ | EvRelease _ | EvPing _ | EvSleep _ | EvLog _ _ => true
  | _ => false
  end.

Definition pool_closed (w : World) : nat := pool_ends (trace w).

(** A process that is connected, with [outcomes] ahead. *)
Definition connected_world (attempts : nat) (outcomes : list (option string))
  : World :=
  {| pool := true; reconnectAttempts := attempts; database := empty_database;
     next_conn := 1; script := outcomes;
     trace := [EvRelease 0; EvPing 0; EvAcquire 0; EvCreatePool] |}.

(* ================================================================== *)
(** * Properties *)

(** ** Trimming *)

Section Trim.

Lemma trimStart_clean (s : string) : starts_clean (trimStart s).
Proof.
  induction s as [|c r IH]; simpl; [exact I|].
  destruct (is_ws c) eqn:E; [exact IH | exact E].
Qed.

Lemma trimStart_of_clean (s : string) : starts_clean s -> trimStart s = s.
Proof.
  destruct s as [|c r]; simpl; [reflexivity|].
  intros ->. reflexivity.
Qed.

Lemma trimEnd_clean (s : string) : starts_clean s -> starts_clean (trimEnd s).
Proof.
  destruct s as [|c r]; simpl; [trivial|].
  intros Hc. destruct (trimEnd r); [rewrite Hc|]; exact Hc.
Qed.

Lemma trimEnd_idempotent (s : string) : trimEnd (trimEnd s) = trimEnd s.
Proof.
  induction s as [|c r IH]; [reflexivity|].
  simpl. destruct (trimEnd r) as [|d t] eqn:E.
  - destruct (is_ws c) eqn:W; simpl; [reflexivity | rewrite W; reflexivity].
  - change (trimEnd (String c (String d t))) with
      (match trimEnd (String d t) with
       | EmptyString => if is_ws c then EmptyString else String c EmptyString
       | r' => String c r'
       end).
    rewrite IH. reflexivity.
Qed.

Lemma trim_idempotent (s : string) : trim (trim s) = trim s.
Proof.
  unfold trim.
  rewrite (trimStart_of_clean (trimEnd (trimStart s))).
  - apply trimEnd_idempotent.
  - apply trimEnd_clean, trimStart_clean.
Qed.

Lemma trim_empty : trim "" = "".
Proof. reflexivity. Qed.

Lemma is_empty_length (s : string) : (String.length s =? 0) = is_empty s.
Proof. destruct s; reflexivity. Qed.

End Trim.

(** ** Sanitizers *)

Lemma trim_if_present_fixed (e1 e2 : string) (v v' : JsVal) :
  trim_if_present e1 v = Ok v' -> trim_if_present e2 v' = Ok v'.
Proof.
  unfold trim_if_present.
  destruct v as [| |b|n|s]; simpl;
    try (intros [= <-]; reflexivity);
    try (destruct b; intros [= <-]; reflexivity);
    try (destruct (n =? 0)%Z; simpl; intros [= <-]; reflexivity).
  destruct s as [|c r]; simpl; [intros [= <-]; reflexivity|].
  destruct (is_empty (trim (String c r))) eqn:E; intros [= <-]; [reflexivity|].
  simpl. rewrite E. simpl. rewrite trim_idempotent, E. reflexivity.
Qed.

Lemma trim_or_empty_fixed (e1 e2 : string) (v : JsVal) (t : string) :
  trim_or_empty e1 v = Ok t -> trim_or_empty e2 (JString t) = Ok t.
Proof.
  destruct v; simpl; intros [= <-]; try reflexivity.
  rewrite trim_idempotent. reflexivity.
Qed.

Lemma sanitizeSearchCriteria_fixed (c c' : SearchCriteria) :
  sanitizeSearchCriteria c = Ok c' -> sanitizeSearchCriteria c' = Ok c'.
Proof.
  unfold sanitizeSearchCriteria.
  destruct (trim_if_present _ (Criteria.identifier c)) as [i|] eqn:Ei; [|discriminate].
  destruct (trim_if_present _ (Criteria.firstName c)) as [f|] eqn:Ef; [|discriminate].
  destruct (trim_if_present _ (Criteria.lastName c)) as [l|] eqn:El; [|discriminate].
  intros [= <-]. simpl.
  rewrite (trim_if_present_fixed _ _ _ Ei), (trim_if_present_fixed _ _ _ Ef),
    (trim_if_present_fixed _ _ _ El).
  reflexivity.
Qed.

Lemma sanitizeBlacklistEntryInput_fixed (i i' : CreateBlacklistEntryInput) :
  sanitizeBlacklistEntryInput i = Ok i' -> sanitizeBlacklistEntryInput i' = Ok i'.
Proof.
  unfold sanitizeBlacklistEntryInput.
  destruct (trim_or_empty _ (CreateInput.identifier i)) as [a|] eqn:Ea; [|discriminate].
  destruct (trim_or_empty _ (CreateInput.createdBy i)) as [b|] eqn:Eb; [|discriminate].
  destruct (trim_if_present _ (CreateInput.firstName i)) as [f|] eqn:Ef; [|discriminate].
  destruct (trim_if_present _ (CreateInput.lastName i)) as [l|] eqn:El; [|discriminate].
  intros [= <-]. cbn [CreateInput.identifier CreateInput.createdBy
                      CreateInput.firstName CreateInput.lastName].
  rewrite (trim_or_empty_fixed _ _ _ Ea), (trim_or_empty_fixed _ _ _ Eb),
    (trim_if_present_fixed _ _ _ Ef), (trim_if_present_fixed _ _ _ El).
  reflexivity.
Qed.

(** C10. Both sanitizers are idempotent: sanitizing the output of a
    sanitizer gives that output again, for every input (when the first
    pass throws on an ill-typed field there is no output, and the error
    is the whole outcome either way).  So the second pass that
    [BlacklistRepository.search] and [BlacklistRepository.create] make over
    what the service has sanitized changes nothing. *)
Theorem sanitizers_idempotent :
  (forall c : SearchCriteria,
      and_then (sanitizeSearchCriteria c) sanitizeSearchCriteria
      = sanitizeSearchCriteria c)
  /\ (forall i : CreateBlacklistEntryInput,
      and_then (sanitizeBlacklistEntryInput i) sanitizeBlacklistEntryInput
      = sanitizeBlacklistEntryInput i).
Proof.
  split.
  - intros c. destruct (sanitizeSearchCriteria c) as [c'|e] eqn:E; simpl.
    + apply sanitizeSearchCriteria_fixed with (1 := E).
    + reflexivity.
  - intros i. destruct (sanitizeBlacklistEntryInput i) as [i'|e] eqn:E; simpl.
    + apply sanitizeBlacklistEntryInput_fixed with (1 := E).
    + reflexivity.
Qed.

(** ** What the sanitizers return *)

Lemma trim_if_present_spec (e : string) (v : JsVal) :
  string_or_absent v ->
  exists v', trim_if_present e v = Ok v' /\ sanitized_field v v'.
Proof.
  destruct v as [| |b|n|s]; simpl; try contradiction; intros _.
  - exists JUndefined. split; reflexivity.
  - exists JUndefined. split; reflexivity.
  - unfold trim_if_present. destruct s as [|c r].
    + exists JUndefined. split; reflexivity.
    + unfold sanitized_field. cbn [truthy is_empty negb].
      destruct (is_empty (trim (String c r))) eqn:E.
      * exists JUndefined. split; reflexivity.
      * exists (JString (trim (String c r))). split; reflexivity.
Qed.

Lemma trim_or_empty_spec (e : string) (v : JsVal) :
  string_or_absent v ->
  exists t, trim_or_empty e v = Ok t /\ required_field v (JString t).
Proof.
  destruct v as [| |b|n|s]; simpl; try contradiction; intros _.
  - exists "". split; reflexivity.
  - exists "". split; reflexivity.
  - exists (trim s). split; reflexivity.
Qed.

(** C9, counterexample. The identifier of a create input is a field that is
    white space only; the sanitizer returns it as the empty string, it is
    not absent from the result. *)
Lemma sanitize_blank_identifier_present :
  exists r,
    sanitizeBlacklistEntryInput blank_identifier_input = Ok r
    /\ CreateInput.identifier r = JString ""
    /\ ~ sanitized_field (CreateInput.identifier blank_identifier_input)
                         (CreateInput.identifier r).
Proof.
  eexists. split; [reflexivity|]. split; [reflexivity|].
  simpl. discriminate.
Qed.

(** C9, as amended. On an input whose fields are strings or absent, both
    sanitizers return an object in which every string field is trimmed and
    every optional field (the three fields of search criteria, [firstName]
    and [lastName] of a create input) that is empty or white space only is
    absent; the required [identifier] and [createdBy] of a create input are
    always present, as the trimmed string, which is the empty string when
    nothing is left. *)
Theorem sanitizers_trim_and_drop :
  (forall c : SearchCriteria,
      string_or_absent (Criteria.identifier c) ->
      string_or_absent (Criteria.firstName c) ->
      string_or_absent (Criteria.lastName c) ->
      exists r,
        sanitizeSearchCriteria c = Ok r
        /\ sanitized_field (Criteria.identifier c) (Criteria.identifier r)
        /\ sanitized_field (Criteria.firstName c) (Criteria.firstName r)
        /\ sanitized_field (Criteria.lastName c) (Criteria.lastName r))
  /\ (forall i : CreateBlacklistEntryInput,
      string_or_absent (CreateInput.identifier i) ->
      string_or_absent (CreateInput.firstName i) ->
      string_or_absent (CreateInput.lastName i) ->
      string_or_absent (CreateInput.createdBy i) ->
      exists r,
        sanitizeBlacklistEntryInput i = Ok r
        /\ required_field (CreateInput.identifier i) (CreateInput.identifier r)
        /\ required_field (CreateInput.createdBy i) (CreateInput.createdBy r)
        /\ sanitized_field (CreateInput.firstName i) (CreateInput.firstName r)
        /\ sanitized_field (CreateInput.lastName i) (CreateInput.lastName r)).
Proof.
  split.
  - intros c Hi Hf Hl. unfold sanitizeSearchCriteria.
    destruct (trim_if_present_spec "criteria.identifier.trim" _ Hi) as (i' & -> & Si).
    destruct (trim_if_present_spec "criteria.firstName.trim" _ Hf) as (f' & -> & Sf).
    destruct (trim_if_present_spec "criteria.lastName.trim" _ Hl) as (l' & -> & Sl).
    eexists. split; [reflexivity|]. simpl. auto.
  - intros i Hi Hf Hl Hb. unfold sanitizeBlacklistEntryInput.
    destruct (trim_or_empty_spec "input.identifier?.trim" _ Hi) as (i' & -> & Si).
    destruct (trim_or_empty_spec "input.createdBy?.trim" _ Hb) as (b' & -> & Sb).
    destruct (trim_if_present_spec "input.firstName.trim" _ Hf) as (f' & -> & Sf).
    destruct (trim_if_present_spec "input.lastName.trim" _ Hl) as (l' & -> & Sl).
    eexists. split; [reflexivity|]. simpl. auto.
Qed.

Lemma sanitizers_trim_and_drop_witness :
  (exists r,
      sanitizeSearchCriteria padded_criteria = Ok r
      /\ sanitized_field (Criteria.identifier padded_criteria) (Criteria.identifier r)
      /\ sanitized_field (Criteria.firstName padded_criteria) (Criteria.firstName r)
      /\ sanitized_field (Criteria.lastName padded_criteria) (Criteria.lastName r))
  /\ (exists r,
      sanitizeBlacklistEntryInput padded_input = Ok r
      /\ required_field (CreateInput.identifier padded_input) (CreateInput.identifier r)
      /\ required_field (CreateInput.createdBy padded_input) (CreateInput.createdBy r)
      /\ sanitized_field (CreateInput.firstName padded_input) (CreateInput.firstName r)
      /\ sanitized_field (CreateInput.lastName padded_input) (CreateInput.lastName r)).
Proof.
  split.
  - apply (proj1 sanitizers_trim_and_drop padded_criteria); simpl; exact I.
  - apply (proj2 sanitizers_trim_and_drop padded_input); simpl; exact I.
Defined.

(** ** What the validators report *)

(** C8, counterexample. An identifier of 256 spaces violates the length
    bound 255, and the errors hold no message for it: within a field only
    the first violated constraint is reported. *)
Lemma validate_reports_first_only :
  errors (validateBlacklistEntry spaces_input) = ["Identifier cannot be empty"]
  /\ ~ reports_every_violation entry_rules validateBlacklistEntry spaces_input.
Proof.
  split; [vm_compute; reflexivity|].
  intros H.
  specialize (H (nth 0 entry_rules []) (nth 2 (nth 0 entry_rules []) (mkRule (fun _ => false) ""))).
  assert (In "Identifier cannot exceed 255 characters"
             (errors (validateBlacklistEntry spaces_input))) as Hin.
  { apply H.
    - left; reflexivity.
    - right; right; left; reflexivity.
    - vm_compute; reflexivity. }
  vm_compute in Hin. destruct Hin as [Hin|[]]. discriminate Hin.
Qed.

Lemma length_zero_is_nil {A : Type} (l : list A) :
  (List.length l =? 0) = is_nil l.
Proof. destruct l; reflexivity. Qed.

Lemma first_violation_none {I : Type} (group : list (Rule I)) (x : I) :
  is_nil (first_violation group x) = forallb (fun r => negb (violated r x)) group.
Proof.
  unfold first_violation. induction group as [|r g IH]; [reflexivity|].
  simpl. destruct (violated r x); [reflexivity | exact IH].
Qed.

Lemma first_violations_none {I : Type} (rules : list (list (Rule I))) (x : I) :
  is_nil (first_violations rules x) = no_violation rules x.
Proof.
  unfold first_violations, no_violation.
  induction rules as [|g rules IH]; [reflexivity|].
  simpl. rewrite <- first_violation_none, <- IH.
  destruct (first_violation g x); reflexivity.
Qed.

(** One field of a validator: what its [if] chain appends to [errs]. *)
Lemma required_field_step (v : JsVal) (bound : nat) (m0 m1 m2 : string)
    (errs : list string) :
  match v with
  | JString s =>
      if String.length (trim s) =? 0 then errs ++ [m1]
      else if bound <? String.length s then errs ++ [m2] else errs
  | _ => errs ++ [m0]
  end
  = errs ++ (if negb (is_string v) then [m0]
             else if blank v then [m1]
             else if longer_than bound v then [m2] else []).
Proof.
  destruct v as [| |b|n|s]; try reflexivity.
  cbn [is_string negb blank longer_than]. rewrite is_empty_length.
  destruct (is_empty (trim s)); [reflexivity|].
  destruct (bound <? String.length s); [reflexivity|].
  symmetry. apply app_nil_r.
Qed.

Lemma optional_field_step (v : JsVal) (bound : nat) (m0 m2 : string)
    (errs : list string) :
  match v with
  | JUndefined => errs
  | JString s => if bound <? String.length s then errs ++ [m2] else errs
  | _ => errs ++ [m0]
  end
  = errs ++ (if provided v && negb (is_string v) then [m0]
             else if longer_than bound v then [m2] else []).
Proof.
  destruct v as [| |b|n|s]; try reflexivity;
    cbn [is_string negb provided andb longer_than].
  - symmetry. apply app_nil_r.
  - destruct (bound <? String.length s); [reflexivity|].
    symmetry. apply app_nil_r.
Qed.

Lemma criterion_step (v : JsVal) (bound : nat) (m0 m1 m2 : string)
    (errs : list string) :
  match v with
  | JUndefined => errs
  | JString s =>
      if String.length (trim s) =? 0 then errs ++ [m1]
      else if bound <? String.length s then errs ++ [m2] else errs
  | _ => errs ++ [m0]
  end
  = errs ++ (if provided v && negb (is_string v) then [m0]
             else if blank v then [m1]
             else if longer_than bound v then [m2] else []).
Proof.
  destruct v as [| |b|n|s]; try reflexivity;
    cbn [is_string negb provided andb blank longer_than].
  - symmetry. apply app_nil_r.
  - rewrite is_empty_length.
    destruct (is_empty (trim s)); [reflexivity|].
    destruct (bound <? String.length s); [reflexivity|].
    symmetry. apply app_nil_r.
Qed.

Lemma entry_errors_by_field (i : CreateBlacklistEntryInput) :
  errors (validateBlacklistEntry i) = first_violations entry_rules i.
Proof.
  destruct i as [ident fn ln by_].
  unfold validateBlacklistEntry, first_violations, first_violation.
  cbv zeta.
  cbn [CreateInput.identifier CreateInput.firstName CreateInput.lastName
       CreateInput.createdBy entry_rules flat_map find violated message errors].
  rewrite (required_field_step ident), (required_field_step by_),
    (optional_field_step fn), (optional_field_step ln).
  rewrite <- !app_assoc. cbn [app]. rewrite app_nil_r.
  repeat f_equal;
    repeat match goal with
           | |- context [if ?b then _ else _] => destruct b
           end; reflexivity.
Qed.

Lemma entry_validation_rules (i : CreateBlacklistEntryInput) :
  isValid (validateBlacklistEntry i) = is_nil (errors (validateBlacklistEntry i))
  /\ errors (validateBlacklistEntry i) = first_violations entry_rules i
  /\ isValid (validateBlacklistEntry i) = no_violation entry_rules i.
Proof.
  assert (H : isValid (validateBlacklistEntry i)
              = is_nil (errors (validateBlacklistEntry i)))
    by apply length_zero_is_nil.
  split; [exact H|]. split; [apply entry_errors_by_field|].
  rewrite H, entry_errors_by_field. apply first_violations_none.
Qed.

Lemma criteria_errors_by_field (c : SearchCriteria) :
  errors (validateSearchCriteria c) = first_violations criteria_rules c.
Proof.
  destruct c as [ident fn ln].
  unfold validateSearchCriteria, first_violations, first_violation.
  cbv zeta.
  cbn [Criteria.identifier Criteria.firstName Criteria.lastName
       criteria_rules flat_map find violated message errors].
  rewrite (criterion_step ident), (criterion_step fn), (criterion_step ln).
  rewrite <- !app_assoc. rewrite app_nil_r.
  destruct (negb (truthy ident) && negb (truthy fn) && negb (truthy ln));
    cbn [app];
    repeat f_equal;
    repeat match goal with
           | |- context [if ?b then _ else _] => destruct b
           end; reflexivity.
Qed.

Lemma criteria_validation_rules (c : SearchCriteria) :
  isValid (validateSearchCriteria c) = is_nil (errors (validateSearchCriteria c))
  /\ errors (validateSearchCriteria c) = first_violations criteria_rules c
  /\ isValid (validateSearchCriteria c) = no_violation criteria_rules c.
Proof.
  assert (H : isValid (validateSearchCriteria c)
              = is_nil (errors (validateSearchCriteria c)))
    by apply length_zero_is_nil.
  split; [exact H|]. split; [apply criteria_errors_by_field|].
  rewrite H, criteria_errors_by_field. apply first_violations_none.
Qed.

(** C8, as amended. Both validators return valid exactly when the errors
    list is empty, which is exactly when no constraint is violated; the
    errors list holds, field after field, the message of the first violated
    constraint of every field that violates one (type and required-ness
    before emptiness before the length bound 255, 100 or 20), and for
    search criteria, ahead of them, the message of the rule that at least
    one field is provided. *)
Theorem validators_collect_per_field :
  (forall i : CreateBlacklistEntryInput,
      isValid (validateBlacklistEntry i) = is_nil (errors (validateBlacklistEntry i))
      /\ errors (validateBlacklistEntry i) = first_violations entry_rules i
      /\ isValid (validateBlacklistEntry i) = no_violation entry_rules i)
  /\ (forall c : SearchCriteria,
      isValid (validateSearchCriteria c) = is_nil (errors (validateSearchCriteria c))
      /\ errors (validateSearchCriteria c) = first_violations criteria_rules c
      /\ isValid (validateSearchCriteria c) = no_violation criteria_rules c).
Proof.
  split; [exact entry_validation_rules | exact criteria_validation_rules].
Qed.

(** ** Frame lemmas: what a computation leaves alone *)

Section Frame.

Context {X : Type} (proj : World -> X).

Lemma preserves_ret {A : Type} (a : A) : preserves proj (ret a).
Proof. intros w. reflexivity. Qed.

Lemma preserves_throw {A : Type} (e : string) : preserves proj (@throw A e).
Proof. intros w. reflexivity. Qed.

Lemma preserves_get {A : Type} (f : World -> A) : preserves proj (get f).
Proof. intros w. reflexivity. Qed.

Lemma preserves_lift {A : Type} (r : Res A) : preserves proj (lift r).
Proof. destruct r; intros w; reflexivity. Qed.

Lemma preserves_modify (f : World -> World) :
  (forall w, proj (f w) = proj w) -> preserves proj (modify f).
Proof. intros H w. apply H. Qed.

Lemma preserves_bind {A B : Type} (m : M A) (k : A -> M B) :
  preserves proj m -> (forall a, preserves proj (k a)) ->
  preserves proj (bind m k).
Proof.
  intros Hm Hk w. unfold bind. specialize (Hm w).
  destruct (m w) as [[a|e] w1]; simpl in *.
  - rewrite Hk. exact Hm.
  - exact Hm.
Qed.

Lemma preserves_try_catch {A : Type} (m : M A) (h : string -> M A) :
  preserves proj m -> (forall e, preserves proj (h e)) ->
  preserves proj (try_catch m h).
Proof.
  intros Hm Hh w. unfold try_catch. specialize (Hm w).
  destruct (m w) as [[a|e] w1]; simpl in *.
  - exact Hm.
  - rewrite Hh. exact Hm.
Qed.

Lemma preserves_try_finally {A : Type} (m : M A) (c : M unit) :
  preserves proj m -> preserves proj c -> preserves proj (try_finally m c).
Proof.
  intros Hm Hc w. unfold try_finally. specialize (Hm w).
  destruct (m w) as [r w1]; simpl in *. specialize (Hc w1).
  destruct (c w1) as [[u|e] w2]; simpl in *; congruence.
Qed.

Lemma preserves_if {A : Type} (b : bool) (m1 m2 : M A) :
  preserves proj m1 -> preserves proj m2 ->
  preserves proj (if b then m1 else m2).
Proof. destruct b; auto. Qed.

Hypothesis proj_script : forall s w, proj (set_script s w) = proj w.

Lemma preserves_driver_call : preserves proj driver_call.
Proof.
  intros w. unfold driver_call.
  destruct (script w) as [|[msg|] rest]; simpl; auto.
Qed.

End Frame.

Create HintDb frame.

#[local] Hint Resolve preserves_ret preserves_throw preserves_get
  preserves_lift preserves_bind preserves_try_catch preserves_try_finally
  preserves_if preserves_modify preserves_driver_call : frame.

(** ** The connection manager never touches the store on its own *)

Lemma store_view_set_script s w : store_view (set_script s w) = store_view w.
Proof. reflexivity. Qed.

Lemma store_view_set_pool b w : store_view (set_pool b w) = store_view w.
Proof. reflexivity. Qed.

Lemma store_view_set_next_conn n w : store_view (set_next_conn n w) = store_view w.
Proof. reflexivity. Qed.

Lemma store_view_set_attempts n w :
  store_view (set_reconnectAttempts n w) = store_view w.
Proof. reflexivity. Qed.

Lemma store_view_emit e w :
  is_execute e = false -> store_view (emit e w) = store_view w.
Proof.
  intros H. unfold store_view, executed. simpl. rewrite H. reflexivity.
Qed.

#[local] Hint Resolve store_view_set_script store_view_set_pool
  store_view_set_next_conn store_view_set_attempts store_view_emit : frame.

Ltac frame :=
  repeat first
    [ progress intros
    | apply preserves_bind | apply preserves_try_catch
    | apply preserves_try_finally | apply preserves_if
    | apply preserves_modify | apply preserves_driver_call
    | apply preserves_ret | apply preserves_throw | apply preserves_get
    | apply preserves_lift
    | apply store_view_emit; reflexivity
    | reflexivity
    | solve [auto with frame] ].

Import DatabaseConnection.

Lemma log_keeps_store level msg : preserves store_view (log level msg).
Proof. unfold log. frame. Qed.

Lemma createPool_keeps_store : preserves store_view createPool.
Proof. unfold createPool. frame. Qed.

Lemma pool_getConnection_keeps_store : preserves store_view pool_getConnection.
Proof. unfold pool_getConnection. frame. Qed.

Lemma pool_end_keeps_store : preserves store_view pool_end.
Proof. unfold pool_end. frame. Qed.

Lemma release_keeps_store c : preserves store_view (release c).
Proof. unfold release. frame. Qed.

Lemma testConnection_keeps_store : preserves store_view testConnection.
Proof.
  unfold testConnection, ping.
  apply preserves_bind; [frame|]. intros p.
  apply preserves_if; [frame|].
  apply preserves_bind; [apply pool_getConnection_keeps_store|]. intros c.
  apply preserves_try_finally; [|apply release_keeps_store].
  apply preserves_try_catch; [frame|]. intros e.
  apply preserves_bind; [apply log_keeps_store | frame].
Qed.

Lemma connect_try_keeps_store : preserves store_view connect_try.
Proof.
  unfold connect_try.
  apply preserves_bind; [frame|]. intros p.
  apply preserves_if; [frame|].
  apply preserves_bind; [apply createPool_keeps_store|]. intros _.
  apply preserves_bind; [apply testConnection_keeps_store|]. intros _.
  frame.
Qed.

Lemma connect_fuel_keeps_store (fuel : nat) :
  forall w r w', connect_fuel fuel w = Some (r, w') -> store_view w' = store_view w.
Proof.
  induction fuel as [|fuel IH]; intros w r w'; simpl; [discriminate|].
  pose proof (connect_try_keeps_store w) as Ht.
  destruct (connect_try w) as [[u|e] w1]; simpl in Ht.
  - intros [= <- <-]. exact Ht.
  - destruct (ErrorHandler.shouldRetry e).
    + unfold handleConnectionError.
      destruct (maxReconnectAttempts <=? reconnectAttempts w1).
      * intros [= <- <-]. exact Ht.
      * simpl. intros H. apply IH in H. rewrite H. exact Ht.
    + intros [= <- <-]. exact Ht.
Qed.

Lemma connect_keeps_store : preserves store_view connect.
Proof.
  intros w. unfold connect.
  destruct (connect_fuel (S maxReconnectAttempts) w) as [[r w']|] eqn:E.
  - simpl. apply connect_fuel_keeps_store with (1 := E).
  - reflexivity.
Qed.

Lemma disconnect_keeps_store : preserves store_view disconnect.
Proof.
  unfold disconnect.
  apply preserves_bind; [frame|]. intros p.
  apply preserves_if; [|frame].
  apply preserves_try_catch.
  - apply preserves_bind; [apply pool_end_keeps_store | frame].
  - intros e. apply preserves_bind; [apply log_keeps_store | frame].
Qed.

Lemma reconnect_keeps_store : preserves store_view reconnect.
Proof.
  unfold reconnect. apply preserves_try_catch.
  - apply preserves_bind; [apply disconnect_keeps_store|].
    intros _. apply connect_keeps_store.
  - intros e. apply preserves_bind; [apply log_keeps_store | frame].
Qed.

Lemma getConnection_keeps_store : preserves store_view getConnection.
Proof.
  unfold getConnection.
  apply preserves_bind; [frame|]. intros p.
  apply preserves_bind.
  { apply preserves_if; [apply connect_keeps_store | frame]. }
  intros _. apply preserves_bind; [frame|]. intros p'.
  apply preserves_if; [frame|].
  apply preserves_try_catch; [apply pool_getConnection_keeps_store|].
  intros e. apply preserves_if; [|frame].
  apply preserves_bind; [apply reconnect_keeps_store|]. intros _.
  apply preserves_bind; [frame|]. intros p''.
  apply preserves_if; [frame | apply pool_getConnection_keeps_store].
Qed.

(** ** [connect] always returns: the call depth is bounded by the attempts *)

Lemma connect_try_attempts w e w' :
  connect_try w = (Throw e, w') -> reconnectAttempts w' = reconnectAttempts w.
Proof.
  assert (Hc : preserves reconnectAttempts createPool)
    by (unfold createPool; frame).
  assert (Ht : preserves reconnectAttempts testConnection).
  { unfold testConnection, pool_getConnection, ping, release, log. frame. }
  unfold connect_try, bind, get.
  destruct (pool w); [discriminate|].
  specialize (Hc w). destruct (createPool w) as [[u|e1] w1]; simpl in Hc.
  - specialize (Ht w1). destruct (testConnection w1) as [[u'|e2] w2]; simpl in Ht.
    + discriminate.
    + intros [= <- <-]. congruence.
  - intros [= <- <-]. exact Hc.
Qed.

Lemma connect_fuel_total (fuel : nat) :
  forall w, maxReconnectAttempts - reconnectAttempts w < fuel ->
            connect_fuel fuel w <> None.
Proof.
  induction fuel as [|fuel IH]; intros w Hlt; [lia|].
  simpl. destruct (connect_try w) as [[u|e] w1] eqn:Et; [discriminate|].
  destruct (ErrorHandler.shouldRetry e); [|discriminate].
  apply connect_try_attempts in Et.
  unfold handleConnectionError.
  destruct (maxReconnectAttempts <=? reconnectAttempts w1) eqn:Emax; [discriminate|].
  apply Nat.leb_gt in Emax.
  unfold sleep, modify. apply IH.
  cbn [reconnectAttempts emit set_reconnectAttempts]. lia.
Qed.

Lemma connect_returns w :
  exists r w', connect_fuel (S maxReconnectAttempts) w = Some (r, w')
               /\ connect w = (r, w').
Proof.
  unfold connect.
  destruct (connect_fuel (S maxReconnectAttempts) w) as [[r w']|] eqn:E.
  - exists r, w'. split; reflexivity.
  - exfalso. revert E. apply connect_fuel_total. unfold maxReconnectAttempts. lia.
Qed.

(** ** [query] and [transaction]: the protocol on the connection *)

Lemma released_emit c e w :
  is_release_of c e = false -> released c (emit e w) = released c w.
Proof.
  intros H. unfold released, releases. simpl. rewrite H. reflexivity.
Qed.

Lemma released_release c w : released c (emit (EvRelease c) w) = S (released c w).
Proof.
  unfold released, releases. simpl. rewrite Nat.eqb_refl. reflexivity.
Qed.

Lemma driver_call_keeps_released c : preserves (released c) driver_call.
Proof. apply preserves_driver_call. reflexivity. Qed.

Lemma driver_call_keeps_trace : preserves trace driver_call.
Proof. apply preserves_driver_call. reflexivity. Qed.

Lemma execute_keeps_released {T : Type} c c' (s : Sql.Stmt T) :
  preserves (released c) (execute c' s).
Proof.
  unfold execute.
  apply preserves_bind.
  { apply preserves_modify. intros w. apply released_emit. reflexivity. }
  intros _. apply preserves_bind; [apply driver_call_keeps_released|].
  intros _ w. destruct (Sql.exec s (database w)). reflexivity.
Qed.

Lemma rollback_handler_keeps_released {T : Type} c c' e :
  preserves (released c) (@rollback_handler T c' e).
Proof.
  unfold rollback_handler, rollback, log.
  apply preserves_bind.
  { apply preserves_modify. intros w. apply released_emit. reflexivity. }
  intros _. apply preserves_bind; [|intros; apply preserves_throw].
  apply preserves_try_catch.
  - apply preserves_bind; [|intros; apply driver_call_keeps_released].
    apply preserves_modify. intros w. apply released_emit. reflexivity.
  - intros e'. apply preserves_modify. intros w. apply released_emit. reflexivity.
Qed.

Lemma rollback_handler_throws {T : Type} c e w :
  exists w', @rollback_handler T c e w = (Throw e, w').
Proof.
  cbv [rollback_handler bind log modify try_catch rollback throw].
  match goal with
  | |- context [driver_call ?x] => destruct (driver_call x) as [[u|e'] w1]
  end; eexists; reflexivity.
Qed.

(** Whatever [m] does, [try { m } finally { connection.release() }] ends
    with the one release of the connection. *)
Lemma try_finally_release {A : Type} (m : M A) (c : nat) (w1 : World) :
  preserves (released c) m ->
  exists r w2,
    m w1 = (r, w2)
    /\ try_finally m (release c) w1 = (r, emit (EvRelease c) w2)
    /\ released c w2 = released c w1.
Proof.
  intros Hm. specialize (Hm w1). unfold try_finally, release, modify.
  destruct (m w1) as [r w2]. exists r, w2. simpl in *. auto.
Qed.

Lemma query_body_keeps_released {T : Type} c c' (sql : Sql.Stmt T) :
  preserves (released c)
    (try_catch (execute c' sql)
       (fun error => log "error" "Database query failed" ;;; throw error)).
Proof.
  apply preserves_try_catch; [apply execute_keeps_released|].
  intros e. apply preserves_bind; [|intros; apply preserves_throw].
  apply preserves_modify. intros w. apply released_emit. reflexivity.
Qed.

Lemma transaction_body_keeps_released {T : Type} c (callback : nat -> M T) :
  preserves (released c) (callback c) ->
  preserves (released c)
    (try_catch
       (beginTransaction c ;;;
        result <- callback c ;;
        commit c ;;;
        ret result)
       (fun error => rollback_handler c error)).
Proof.
  intros Hcb. apply preserves_try_catch; [|intros; apply rollback_handler_keeps_released].
  unfold beginTransaction, commit.
  apply preserves_bind.
  { apply preserves_bind; [|intros; apply driver_call_keeps_released].
    apply preserves_modify. intros w. apply released_emit. reflexivity. }
  intros _. apply preserves_bind; [exact Hcb|]. intros r.
  apply preserves_bind; [|intros; apply preserves_ret].
  apply preserves_bind; [|intros; apply driver_call_keeps_released].
  apply preserves_modify. intros w. apply released_emit. reflexivity.
Qed.

(** C6. On every exit path of [query] and of [transaction] the connection
    that was acquired is released exactly once: the operation ends with the
    release of that connection, and between its acquisition and that last
    event there is no other release of it, whether the statement, the
    transaction body, the commit or the rollback succeeded or threw.  (The
    callback is lent the connection and is assumed not to release it
    itself.)  When no connection could be acquired the error is passed on
    and there is nothing to release. *)
Theorem connection_released_exactly_once :
  (forall (T : Type) (sql : Sql.Stmt T) (w : World) (c : nat) (w1 : World),
      getConnection w = (Ok c, w1) ->
      exists r w2,
        query sql w = (r, emit (EvRelease c) w2)
        /\ released c w2 = released c w1
        /\ released c (snd (query sql w)) = S (released c w1))
  /\ (forall (T : Type) (callback : nat -> M T) (w : World) (c : nat) (w1 : World),
      getConnection w = (Ok c, w1) ->
      preserves (released c) (callback c) ->
      exists r w2,
        transaction callback w = (r, emit (EvRelease c) w2)
        /\ released c w2 = released c w1
        /\ released c (snd (transaction callback w)) = S (released c w1))
  /\ (forall (T U : Type) (sql : Sql.Stmt T) (callback : nat -> M U)
             (w : World) (e : string) (w1 : World),
      getConnection w = (Throw e, w1) ->
      query sql w = (Throw e, w1) /\ transaction callback w = (Throw e, w1)).
Proof.
  split; [|split].
  - intros T sql w c w1 Hg.
    destruct (try_finally_release w1 (query_body_keeps_released c c sql))
      as (r & w2 & _ & Hf & Hr).
    assert (Hq : query sql w = (r, emit (EvRelease c) w2)).
    { unfold query. unfold bind at 1. rewrite Hg. exact Hf. }
    exists r, w2. rewrite Hq. cbn [snd]. rewrite released_release. auto.
  - intros T callback w c w1 Hg Hcb.
    destruct (try_finally_release w1 (transaction_body_keeps_released callback Hcb))
      as (r & w2 & _ & Hf & Hr).
    assert (Hq : transaction callback w = (r, emit (EvRelease c) w2)).
    { unfold transaction. unfold bind at 1. rewrite Hg. exact Hf. }
    exists r, w2. rewrite Hq. cbn [snd]. rewrite released_release. auto.
  - intros T U sql callback w e w1 Hg. unfold query, transaction, bind.
    rewrite Hg. split; reflexivity.
Qed.

Lemma connection_released_exactly_once_witness :
  (exists r w2,
      query (Sql.SelectById 1) (fresh_world []) = (r, emit (EvRelease 1) w2)
      /\ released 1 w2 = released 1 (snd (getConnection (fresh_world [])))
      /\ released 1 (snd (query (Sql.SelectById 1) (fresh_world [])))
         = S (released 1 (snd (getConnection (fresh_world [])))))
  /\ (exists r w2,
      transaction callback_returns (fresh_world []) = (r, emit (EvRelease 1) w2)
      /\ released 1 w2 = released 1 (snd (getConnection (fresh_world [])))
      /\ released 1 (snd (transaction callback_returns (fresh_world [])))
         = S (released 1 (snd (getConnection (fresh_world [])))))
  /\ (query (Sql.SelectById 1) access_denied
      = (Throw "Access denied for user 'bot'@'localhost'",
         snd (getConnection access_denied))
      /\ transaction callback_returns access_denied
         = (Throw "Access denied for user 'bot'@'localhost'",
            snd (getConnection access_denied))).
Proof.
  split; [|split].
  - apply (proj1 connection_released_exactly_once _ (Sql.SelectById 1)
             (fresh_world []) 1 (snd (getConnection (fresh_world [])))).
    reflexivity.
  - apply (proj1 (proj2 connection_released_exactly_once) _ callback_returns
             (fresh_world []) 1 (snd (getConnection (fresh_world [])))).
    + reflexivity.
    + intros w. reflexivity.
  - apply (proj2 (proj2 connection_released_exactly_once) _ _ (Sql.SelectById 1)
             callback_returns access_denied).
    reflexivity.
Defined.

(** Stepping through [bind], [try_catch] and [try_finally]. *)
Lemma bind_ok {A B : Type} (m : M A) (k : A -> M B) w a w' :
  m w = (Ok a, w') -> bind m k w = k a w'.
Proof. intros H. unfold bind. rewrite H. reflexivity. Qed.
Arguments bind_ok {A B m} k {w a w'} _.

Lemma bind_throw {A B : Type} (m : M A) (k : A -> M B) w e w' :
  m w = (Throw e, w') -> bind m k w = (Throw e, w').
Proof. intros H. unfold bind. rewrite H. reflexivity. Qed.
Arguments bind_throw {A B m} k {w e w'} _.

Lemma try_catch_ok {A : Type} (m : M A) (h : string -> M A) w a w' :
  m w = (Ok a, w') -> try_catch m h w = (Ok a, w').
Proof. intros H. unfold try_catch. rewrite H. reflexivity. Qed.

Lemma try_catch_throw {A : Type} (m : M A) (h : string -> M A) w e w' :
  m w = (Throw e, w') -> try_catch m h w = h e w'.
Proof. intros H. unfold try_catch. rewrite H. reflexivity. Qed.

Lemma try_finally_release_eq {A : Type} (m : M A) c w r w' :
  m w = (r, w') -> try_finally m (release c) w = (r, emit (EvRelease c) w').
Proof. intros H. unfold try_finally. rewrite H. reflexivity. Qed.

(** C5. [transaction(fn)] acquires one connection, begins a transaction on
    it and invokes [fn] with that connection.  When [fn] returns, it
    commits, returns the result of [fn] and releases the connection.  When
    [fn] throws, it rolls back and releases the connection, and the error
    the caller gets is the one [fn] threw, also when the rollback itself
    fails, which is then logged. *)
Theorem transaction_protocol :
  forall (T : Type) (fn : nat -> M T) (w : World) (c : nat) (w1 w2 : World),
    getConnection w = (Ok c, w1) ->
    beginTransaction c w1 = (Ok tt, w2) ->
    trace w2 = EvBegin c :: trace w1
    /\ match fn c w2 with
       | (Ok result, w3) =>
           forall w4, commit c w3 = (Ok tt, w4) ->
             exists w5,
               transaction fn w = (Ok result, w5)
               /\ trace w5 = EvRelease c :: EvCommit c :: trace w3
       | (Throw error, w3) =>
           let w4 := emit (EvLog "warn" "Database transaction failed, rolling back") w3 in
           exists w5,
             transaction fn w = (Throw error, w5)
             /\ match rollback c w4 with
                | (Ok _, _) =>
                    trace w5 = EvRelease c :: EvRollback c :: trace w4
                | (Throw _, _) =>
                    trace w5 = EvRelease c
                                 :: EvLog "error" "Failed to rollback transaction"
                                 :: EvRollback c :: trace w4
                end
       end.
Proof.
  intros T fn w c w1 w2 Hg Hb.
  assert (Ht : trace w2 = EvBegin c :: trace w1).
  { revert Hb. cbv [beginTransaction bind modify].
    pose proof (driver_call_keeps_trace (emit (EvBegin c) w1)) as Hd.
    destruct (driver_call (emit (EvBegin c) w1)) as [[u|e] w']; simpl in Hd.
    - intros [= _ <-]. exact Hd.
    - discriminate. }
  split; [exact Ht|].
  destruct (fn c w2) as [[result|error] w3] eqn:Hfn.
  - intros w4 Hc.
    assert (Hc' : trace w4 = EvCommit c :: trace w3).
    { revert Hc. cbv [commit bind modify].
      pose proof (driver_call_keeps_trace (emit (EvCommit c) w3)) as Hd.
      destruct (driver_call (emit (EvCommit c) w3)) as [[u|e] w']; simpl in Hd.
      - intros [= _ <-]. exact Hd.
      - discriminate. }
    exists (emit (EvRelease c) w4). split.
    + unfold transaction. rewrite (bind_ok _ Hg).
      apply try_finally_release_eq. apply try_catch_ok.
      rewrite (bind_ok _ Hb), (bind_ok _ Hfn), (bind_ok _ Hc). reflexivity.
    + simpl. rewrite Hc'. reflexivity.
  - intros w4.
    assert (Hr : trace (snd (rollback c w4)) = EvRollback c :: trace w4).
    { cbv [rollback bind modify].
      pose proof (driver_call_keeps_trace (emit (EvRollback c) w4)) as Hd.
      destruct (driver_call (emit (EvRollback c) w4)) as [[u|e] w']; exact Hd. }
    assert (Hbody : forall r w5,
               (try_catch (rollback c)
                  (fun _ => log "error" "Failed to rollback transaction") ;;;
                throw error) w4 = (r, w5) ->
               transaction fn w = (r, emit (EvRelease c) w5)).
    { intros r w5 Hh. unfold transaction. rewrite (bind_ok _ Hg).
      apply try_finally_release_eq.
      rewrite try_catch_throw with (e := error) (w' := w3).
      - rewrite bind_ok with (a := tt) (w' := w4); [exact Hh | reflexivity].
      - rewrite (bind_ok _ Hb). apply bind_throw. exact Hfn. }
    destruct (rollback c w4) as [[u|e] w'] eqn:Hrb; simpl in Hr.
    + exists (emit (EvRelease c) w'). split.
      * apply Hbody. unfold bind, try_catch. rewrite Hrb. reflexivity.
      * simpl. rewrite Hr. reflexivity.
    + exists (emit (EvRelease c)
                (emit (EvLog "error" "Failed to rollback transaction") w')).
      split.
      * apply Hbody. unfold bind, try_catch. rewrite Hrb. reflexivity.
      * simpl. rewrite Hr. reflexivity.
Qed.

Lemma transaction_protocol_witness :
  (trace (snd (beginTransaction 1 (snd (getConnection (fresh_world [])))))
   = EvBegin 1 :: trace (snd (getConnection (fresh_world [])))
   /\ forall w4,
       commit 1 (snd (beginTransaction 1 (snd (getConnection (fresh_world [])))))
       = (Ok tt, w4) ->
       exists w5,
         transaction callback_returns (fresh_world []) = (Ok 42, w5)
         /\ trace w5
            = EvRelease 1 :: EvCommit 1
                :: trace (snd (beginTransaction 1 (snd (getConnection (fresh_world []))))))
  /\ (exists w5,
         transaction callback_throws rollback_fails = (Throw "boom", w5)
         /\ trace w5
            = [ EvRelease 1;
                EvLog "error" "Failed to rollback transaction";
                EvRollback 1;
                EvLog "warn" "Database transaction failed, rolling back";
                EvExecute 1 (Sql.SelectById 1);
                EvBegin 1; EvAcquire 1;
                EvRelease 0; EvPing 0; EvAcquire 0; EvCreatePool ]).
Proof.
  split.
  - assert (H1 : getConnection (fresh_world [])
                 = (Ok 1, snd (getConnection (fresh_world []))))
      by (vm_compute; reflexivity).
    assert (H2 : beginTransaction 1 (snd (getConnection (fresh_world [])))
                 = (Ok tt, snd (beginTransaction 1 (snd (getConnection (fresh_world []))))))
      by (vm_compute; reflexivity).
    generalize (@transaction_protocol nat callback_returns (fresh_world []) 1
                  (snd (getConnection (fresh_world [])))
                  (snd (beginTransaction 1 (snd (getConnection (fresh_world [])))))
                  H1 H2).
    clear H1 H2. vm_compute. exact (fun H => H).
  - assert (H1 : getConnection rollback_fails
                 = (Ok 1, snd (getConnection rollback_fails)))
      by (vm_compute; reflexivity).
    assert (H2 : beginTransaction 1 (snd (getConnection rollback_fails))
                 = (Ok tt, snd (beginTransaction 1 (snd (getConnection rollback_fails)))))
      by (vm_compute; reflexivity).
    generalize (@transaction_protocol nat callback_throws rollback_fails 1
                  (snd (getConnection rollback_fails))
                  (snd (beginTransaction 1 (snd (getConnection rollback_fails))))
                  H1 H2).
    clear H1 H2. vm_compute. intros [_ H]. exact H.
Defined.

(** ** [connect]: retries, backoff and the attempt counter *)

Lemma slept_emit e w :
  (forall ms, e <> EvSleep ms) -> slept (emit e w) = slept w.
Proof.
  intros H. unfold slept, sleeps. simpl.
  destruct e; try reflexivity. exfalso. apply (H ms). reflexivity.
Qed.

Lemma connect_try_keeps_slept : preserves slept connect_try.
Proof.
  assert (Hd : preserves slept driver_call)
    by (apply preserves_driver_call; reflexivity).
  assert (He : forall e, (forall ms, e <> EvSleep ms) ->
                         preserves slept (modify (emit e))).
  { intros e H. apply preserves_modify. intros w. apply slept_emit, H. }
  unfold connect_try, createPool, testConnection, pool_getConnection, ping,
    release, log.
  repeat first
    [ progress intros
    | apply preserves_bind | apply preserves_try_catch
    | apply preserves_try_finally | apply preserves_if
    | apply preserves_ret | apply preserves_throw | apply preserves_get
    | exact Hd
    | apply He; discriminate
    | apply preserves_modify; reflexivity ].
Qed.

(** Below the limit, [handleConnectionError] counts the attempt, waits
    [1000 * 2 ^ (n - 1)] ms before attempt [n] and connects again. *)
Lemma handleConnectionError_retries (k : Fueled unit) (e : string) (w : World) :
  reconnectAttempts w < maxReconnectAttempts ->
  handleConnectionError k e w
  = k (emit (EvSleep (backoff (S (reconnectAttempts w))))
         (set_reconnectAttempts (S (reconnectAttempts w)) w)).
Proof.
  intros H. unfold handleConnectionError.
  apply Nat.leb_gt in H. rewrite H. reflexivity.
Qed.

(** At the limit it gives up, and the message states the attempt count. *)
Lemma handleConnectionError_gives_up (k : Fueled unit) (e : string) (w : World) :
  maxReconnectAttempts <= reconnectAttempts w ->
  handleConnectionError k e w
  = Some (Throw ("Failed to connect to database after 5 attempts: " ++ e)%string, w).
Proof.
  intros H. unfold handleConnectionError.
  apply Nat.leb_le in H. rewrite H. reflexivity.
Qed.

(** One call of [connect] waits at most as many times as attempts are
    left, with the delays of the backoff schedule in order. *)
Lemma connect_fuel_backoff (fuel : nat) :
  forall w r w',
    connect_fuel fuel w = Some (r, w') ->
    exists k,
      slept w' = rev (map backoff (seq (S (reconnectAttempts w)) k)) ++ slept w
      /\ (k = 0 \/ reconnectAttempts w + k <= maxReconnectAttempts).
Proof.
  induction fuel as [|fuel IH]; intros w r w'; simpl; [discriminate|].
  pose proof (connect_try_keeps_slept w) as Hs.
  destruct (connect_try w) as [[u|e] w1] eqn:Et; simpl in Hs.
  - intros [= <- <-]. exists 0. simpl. auto.
  - apply connect_try_attempts in Et.
    destruct (ErrorHandler.shouldRetry e).
    + destruct (Nat.lt_ge_cases (reconnectAttempts w1) maxReconnectAttempts) as [Hlt|Hge].
      * rewrite handleConnectionError_retries by exact Hlt.
        intros H. apply IH in H. destruct H as (k & Hk & Hb).
        exists (S k). split.
        -- rewrite Hk. cbn [reconnectAttempts emit set_reconnectAttempts].
           unfold slept at 1. cbn [trace emit sleeps flat_map].
           fold (sleeps (trace (set_reconnectAttempts (S (reconnectAttempts w1)) w1))).
           change (sleeps (trace (set_reconnectAttempts (S (reconnectAttempts w1)) w1)))
             with (slept w1).
           rewrite Hs, Et. cbn [seq map rev]. rewrite <- app_assoc. reflexivity.
        -- right. cbn [reconnectAttempts emit set_reconnectAttempts] in Hb.
           destruct Hb as [->|Hb]; lia.
      * rewrite handleConnectionError_gives_up by exact Hge.
        intros [= <- <-]. exists 0. simpl. auto.
    + intros [= <- <-]. exists 0. simpl. auto.
Qed.

Lemma connect_backoff w r w' :
  connect w = (r, w') ->
  exists k,
    slept w' = rev (map backoff (seq (S (reconnectAttempts w)) k)) ++ slept w
    /\ k <= maxReconnectAttempts.
Proof.
  intros H. destruct (connect_returns w) as (r0 & w0 & Hf & Hc).
  rewrite Hc in H. injection H as <- <-.
  destruct (connect_fuel_backoff _ _ Hf) as (k & Hk & Hb).
  exists k. split; [exact Hk | lia].
Qed.

(** When every attempt is refused, [connect] waits 1, 2, 4, 8 and 16
    seconds and then raises the terminal error. *)
Lemma connect_exhausts_budget :
  exists w',
    connect refused_six_times
    = (Throw "Failed to connect to database after 5 attempts: connect ECONNREFUSED 127.0.0.1:3306",
       w')
    /\ slept w' = [16000; 8000; 4000; 2000; 1000]
    /\ reconnectAttempts w' = 5.
Proof. eexists. split; [vm_compute; reflexivity|]. split; reflexivity. Qed.

(** A connect that creates the pool and passes the probe resets the
    counter. *)
Lemma connect_try_resets w u w' :
  pool w = false -> connect_try w = (Ok u, w') -> reconnectAttempts w' = 0.
Proof.
  intros Hp. unfold connect_try, bind, get. rewrite Hp.
  destruct (createPool w) as [[u1|e1] w1]; [|discriminate].
  destruct (testConnection w1) as [[u2|e2] w2]; [|discriminate].
  intros [= _ <-]. reflexivity.
Qed.

(** C4. The claim fails on the code at a probe that fails once.  The pool
    created before the probe is still in place when [handleConnectionError]
    calls [connect] again after the first delay of 1000 ms, so that call
    returns at once as already connected: [connect] resolves, nothing was
    probed a second time, and the attempt counter stays at 1 instead of
    being reset to zero. *)
Theorem connect_resolves_without_reset :
  exists w',
    connect failed_probe = (Ok tt, w')
    /\ pool w' = true
    /\ reconnectAttempts w' = 1
    /\ trace w' = [EvSleep 1000; EvCreatePool].
Proof. eexists. split; [vm_compute; reflexivity|]. repeat split. Qed.

(** ** [query] against the store *)

Lemma inserts_executed tr : inserts tr = inserts (executed tr).
Proof.
  unfold inserts, executed. induction tr as [|e tr IH]; [reflexivity|].
  destruct e; simpl; try exact IH. destruct (Sql.is_insert s); simpl; congruence.
Qed.

Lemma deletes_executed tr : deletes tr = deletes (executed tr).
Proof.
  unfold deletes, executed. induction tr as [|e tr IH]; [reflexivity|].
  destruct e; simpl; try exact IH. destruct (Sql.is_delete s); simpl; congruence.
Qed.

Lemma store_view_eq w w' :
  store_view w' = store_view w ->
  database w' = database w /\ executed (trace w') = executed (trace w).
Proof. unfold store_view. intros [= -> ->]. auto. Qed.

Lemma getConnection_quiet w :
  no_faults w ->
  exists c w1, getConnection w = (Ok c, w1) /\ no_faults w1.
Proof.
  unfold no_faults. destruct w as [p a d n s t]. simpl. intros ->.
  destruct p; eexists; eexists; split; cbv; reflexivity.
Qed.

Lemma driver_call_quiet w : no_faults w -> driver_call w = (Ok tt, w).
Proof. unfold no_faults, driver_call. intros ->. reflexivity. Qed.

(** On a store that answers, [query] returns what the statement evaluates
    to, applies it to the table and sends that one statement. *)
Lemma query_quiet {T : Type} (s : Sql.Stmt T) (w : World) :
  no_faults w ->
  exists c w',
    query s w = (Ok (fst (Sql.exec s (database w))), w')
    /\ no_faults w'
    /\ database w' = snd (Sql.exec s (database w))
    /\ executed (trace w') = EvExecute c s :: executed (trace w).
Proof.
  intros Hq. destruct (getConnection_quiet Hq) as (c & w1 & Hg & Hq1).
  destruct (store_view_eq (getConnection_keeps_store w)) as [Hd He].
  rewrite Hg in Hd, He. simpl in Hd, He.
  exists c. unfold query. rewrite (bind_ok _ Hg).
  unfold try_finally, try_catch, execute.
  rewrite bind_ok with (a := tt) (w' := emit (EvExecute c s) w1) by reflexivity.
  rewrite (bind_ok _ (driver_call_quiet (w := emit (EvExecute c s) w1) Hq1)).
  cbn [database emit]. rewrite Hd.
  destruct (Sql.exec s (database w)) as [r d'].
  eexists. split; [reflexivity|]. split; [exact Hq1|]. split; [reflexivity|].
  cbn [trace emit set_database]. unfold executed in *. cbn [filter is_execute].
  rewrite He. reflexivity.
Qed.

(** Whatever the environment does, [query] sends at most its statement;
    when it returns, the statement was evaluated on the table, and when it
    throws the table is as before. *)
Lemma query_cases {T : Type} (s : Sql.Stmt T) (w : World) :
  (executed (trace (snd (query s w))) = executed (trace w)
   \/ exists c, executed (trace (snd (query s w))) = EvExecute c s :: executed (trace w))
  /\ match fst (query s w) with
     | Ok r => r = fst (Sql.exec s (database w))
               /\ database (snd (query s w)) = snd (Sql.exec s (database w))
     | Throw _ => database (snd (query s w)) = database w
     end.
Proof.
  destruct (store_view_eq (getConnection_keeps_store w)) as [Hd He].
  destruct (getConnection w) as [[c|e] w1] eqn:Hg; cbn [snd] in Hd, He.
  2:{ assert (Hq : query s w = (Throw e, w1))
        by (unfold query; apply bind_throw; exact Hg).
      rewrite Hq. cbn [fst snd]. auto. }
  pose proof (preserves_driver_call (fun w => (database w, trace w))
                (fun _ _ => eq_refl) (emit (EvExecute c s) w1)) as Hp.
  destruct (driver_call (emit (EvExecute c s) w1)) as [[u|e] w2] eqn:Hdc;
    cbn [snd database trace emit] in Hp; injection Hp as Hd2 Ht2.
  - destruct (Sql.exec s (database w)) as [r d'] eqn:Hex.
    assert (Hq : query s w
                 = (Ok r, emit (EvRelease c) (set_database d' w2))).
    { unfold query. rewrite (bind_ok _ Hg).
      apply try_finally_release_eq. apply try_catch_ok. unfold execute.
      rewrite bind_ok with (a := tt) (w' := emit (EvExecute c s) w1) by reflexivity.
      rewrite (bind_ok _ Hdc). rewrite Hd2, Hd, Hex. reflexivity. }
    rewrite Hq. cbn [fst snd trace emit set_database database].
    unfold executed in *. rewrite Ht2. cbn [filter is_execute]. rewrite He.
    split; [right; exists c; reflexivity | auto].
  - assert (Hq : query s w
                 = (Throw e, emit (EvRelease c)
                               (emit (EvLog "error" "Database query failed") w2))).
    { unfold query. rewrite (bind_ok _ Hg).
      apply try_finally_release_eq.
      rewrite try_catch_throw with (e := e) (w' := w2).
      - reflexivity.
      - unfold execute.
        rewrite bind_ok with (a := tt) (w' := emit (EvExecute c s) w1) by reflexivity.
        apply bind_throw. exact Hdc. }
    rewrite Hq. cbn [fst snd trace emit database].
    unfold executed in *. rewrite Ht2. cbn [filter is_execute]. rewrite He, Hd2.
    split; [right; exists c; reflexivity | auto].
Qed.

Lemma count_positive {A : Type} (p : A -> bool) (l : list A) :
  (0 <? Z.of_nat (List.length (filter p l)))%Z = existsb p l.
Proof.
  induction l as [|x l IH]; [reflexivity|].
  simpl. destruct (p x); simpl; [|exact IH].
  apply Z.ltb_lt. lia.
Qed.

(** ** The repository on a store that answers *)

Lemma invalid_id_spec (i : Z) :
  BlacklistRepository.invalid_id i = negb (0 <? i)%Z.
Proof.
  unfold BlacklistRepository.invalid_id.
  destruct (Z.eqb_spec i 0), (Z.leb_spec i 0), (Z.ltb_spec 0 i); simpl; lia.
Qed.

Lemma findById_quiet (i : Z) (w : World) :
  (0 < i)%Z -> no_faults w ->
  exists c w',
    BlacklistRepository.findById i w
    = (Ok match filter (Sql.has_id i) (Sql.rows (database w)) with
          | row :: _ => Some (BlacklistRepository.mapRowToEntry row)
          | [] => None
          end, w')
    /\ no_faults w'
    /\ database w' = database w
    /\ executed (trace w') = EvExecute c (Sql.SelectById i) :: executed (trace w).
Proof.
  intros Hi Hq. unfold BlacklistRepository.findById.
  rewrite invalid_id_spec. apply Z.ltb_lt in Hi. rewrite Hi. simpl.
  destruct (query_quiet (Sql.SelectById i) Hq) as (c & w' & Hr & Hq' & Hd & He).
  exists c, w'. unfold try_catch. rewrite (bind_ok _ Hr). simpl.
  destruct (filter (Sql.has_id i) (Sql.rows (database w))); simpl; auto.
Qed.

Lemma deleteById_quiet (i : Z) (w : World) :
  (0 < i)%Z -> no_faults w ->
  exists c w',
    BlacklistRepository.deleteById i w = (Ok (stored_id i (database w)), w')
    /\ no_faults w'
    /\ Sql.rows (database w')
       = filter (fun r => negb (Sql.has_id i r)) (Sql.rows (database w))
    /\ executed (trace w') = EvExecute c (Sql.DeleteById i) :: executed (trace w).
Proof.
  intros Hi Hq. unfold BlacklistRepository.deleteById.
  rewrite invalid_id_spec. apply Z.ltb_lt in Hi. rewrite Hi. simpl.
  destruct (query_quiet (Sql.DeleteById i) Hq) as (c & w' & Hr & Hq' & Hd & He).
  exists c, w'. unfold try_catch. rewrite (bind_ok _ Hr). simpl.
  rewrite count_positive, Hd. auto.
Qed.

Lemma filter_none {A : Type} (p : A -> bool) (l : list A) :
  existsb p l = false -> filter p l = [].
Proof.
  induction l as [|x l IH]; [reflexivity|]. simpl.
  destruct (p x); simpl; [discriminate | exact IH].
Qed.

Lemma filter_some {A : Type} (p : A -> bool) (l : list A) :
  existsb p l = true -> exists x rest, filter p l = x :: rest.
Proof.
  induction l as [|x l IH]; [discriminate|]. simpl.
  destruct (p x); simpl; [eauto | exact IH].
Qed.

Lemma filter_out_none {A : Type} (p : A -> bool) (l : list A) :
  existsb p (filter (fun x => negb (p x)) l) = false.
Proof.
  induction l as [|x l IH]; [reflexivity|]. simpl.
  destruct (p x) eqn:E; simpl; [exact IH | rewrite E; exact IH].
Qed.

(** ** What a sanitized, valid create input looks like *)

Lemma or_null_trim_if_present (e : string) (v v' : JsVal) :
  trim_if_present e v = Ok v' -> or_null v' = optional_text v.
Proof.
  unfold trim_if_present, or_null, optional_text.
  destruct v as [| |b|n|s]; simpl;
    try (intros [= <-]; reflexivity);
    try (destruct b; simpl; intros [= <-]; reflexivity);
    try (destruct (n =? 0)%Z; simpl; intros [= <-]; reflexivity).
  destruct s as [|c r]; simpl; [intros [= <-]; reflexivity|].
  destruct (is_empty (trim (String c r))) eqn:E; intros [= <-]; simpl.
  - reflexivity.
  - rewrite E. reflexivity.
Qed.

Lemma trim_or_empty_text (e : string) (v : JsVal) (t : string) :
  trim_or_empty e v = Ok t -> t = trimmed_text v /\ trim t = t.
Proof.
  destruct v; simpl; intros [= <-]; auto using trim_idempotent.
Qed.

Lemma sanitized_valid_shape (entry s : CreateBlacklistEntryInput) :
  sanitizeBlacklistEntryInput entry = Ok s ->
  isValid (validateBlacklistEntry s) = true ->
  CreateInput.identifier s = JString (trimmed_text (CreateInput.identifier entry))
  /\ CreateInput.createdBy s = JString (trimmed_text (CreateInput.createdBy entry))
  /\ is_empty (trimmed_text (CreateInput.identifier entry)) = false
  /\ trim (trimmed_text (CreateInput.identifier entry))
     = trimmed_text (CreateInput.identifier entry)
  /\ or_null (CreateInput.firstName s) = optional_text (CreateInput.firstName entry)
  /\ or_null (CreateInput.lastName s) = optional_text (CreateInput.lastName entry).
Proof.
  unfold sanitizeBlacklistEntryInput.
  destruct (trim_or_empty _ (CreateInput.identifier entry)) as [a|] eqn:Ea; [|discriminate].
  destruct (trim_or_empty _ (CreateInput.createdBy entry)) as [b|] eqn:Eb; [|discriminate].
  destruct (trim_if_present _ (CreateInput.firstName entry)) as [f|] eqn:Ef; [|discriminate].
  destruct (trim_if_present _ (CreateInput.lastName entry)) as [l|] eqn:El; [|discriminate].
  intros [= <-] Hv.
  destruct (trim_or_empty_text _ _ Ea) as [-> Hta].
  destruct (trim_or_empty_text _ _ Eb) as [-> Htb].
  destruct (entry_validation_rules
              {| CreateInput.identifier := JString (trimmed_text (CreateInput.identifier entry));
                 CreateInput.firstName := f; CreateInput.lastName := l;
                 CreateInput.createdBy := JString (trimmed_text (CreateInput.createdBy entry)) |})
    as (_ & _ & Hn).
  rewrite Hv in Hn. symmetry in Hn. unfold no_violation in Hn.
  cbn [entry_rules forallb violated CreateInput.identifier is_string blank negb andb] in Hn.
  rewrite Hta in Hn.
  destruct (is_empty (trimmed_text (CreateInput.identifier entry))) eqn:Ei;
    [discriminate Hn|].
  cbn [CreateInput.identifier CreateInput.createdBy CreateInput.firstName
       CreateInput.lastName].
  repeat split; eauto using or_null_trim_if_present.
Qed.

(** ** The duplicate check *)

Lemma includes_duplicate_error (ident : string) :
  includes "Duplicate entry" (duplicate_error ident) = true.
Proof. reflexivity. Qed.

Lemma inserts_after_query {T : Type} (s : Sql.Stmt T) (w : World) :
  Sql.is_insert s = false ->
  inserts (trace (snd (DatabaseConnection.query s w))) = inserts (trace w).
Proof.
  intros Hs. rewrite (inserts_executed (trace w)).
  destruct (query_cases s w) as [[He|[c He]] _];
    rewrite (inserts_executed (trace (snd (DatabaseConnection.query s w)))), He;
    [reflexivity|].
  unfold inserts. cbn [filter issues_insert]. rewrite Hs. reflexivity.
Qed.

(** [checkDuplicate] answers whether the identifier is stored, or fails
    with its own message; it never writes. *)
Lemma checkDuplicate_cases (ident : string) (w : World) :
  is_empty ident = false -> trim ident = ident ->
  match service_checkDuplicate (JString ident) w with
  | (Ok b, w1) => b = stored ident (database w)
  | (Throw e, w1) => e = "Failed to check for duplicate entry"
  end
  /\ database (snd (service_checkDuplicate (JString ident) w)) = database w
  /\ inserts (trace (snd (service_checkDuplicate (JString ident) w)))
     = inserts (trace w).
Proof.
  intros Hne Ht.
  unfold service_checkDuplicate, BlacklistService.checkDuplicate.
  assert (Hb : BlacklistRepository.blank_identifier (JString ident) = false).
  { unfold BlacklistRepository.blank_identifier.
    rewrite is_empty_length, Ht, Hne. reflexivity. }
  rewrite Hb. cbn [text_of exists_ BlacklistRepository.repository].
  rewrite Ht. unfold BlacklistRepository.exists_. rewrite Hb.
  cbn [text_of]. rewrite Ht.
  pose proof (query_cases (Sql.CountByIdentifier ident) w) as [_ Hq].
  pose proof (inserts_after_query (Sql.CountByIdentifier ident) w eq_refl) as Hi.
  unfold try_catch, bind.
  destruct (DatabaseConnection.query (Sql.CountByIdentifier ident) w)
    as [[rows|e] w1]; cbn [fst snd] in Hq, Hi.
  - destruct Hq as [-> Hd]. cbn [Sql.exec fst snd] in *.
    cbn [ret Sql.count]. rewrite count_positive. auto.
  - cbn. auto.
Qed.

Lemma checkDuplicate_quiet (ident : string) (w : World) :
  is_empty ident = false -> trim ident = ident -> no_faults w ->
  exists w1,
    service_checkDuplicate (JString ident) w = (Ok (stored ident (database w)), w1)
    /\ no_faults w1 /\ database w1 = database w.
Proof.
  intros Hne Ht Hq.
  unfold service_checkDuplicate, BlacklistService.checkDuplicate.
  assert (Hb : BlacklistRepository.blank_identifier (JString ident) = false).
  { unfold BlacklistRepository.blank_identifier.
    rewrite is_empty_length, Ht, Hne. reflexivity. }
  rewrite Hb. cbn [text_of exists_ BlacklistRepository.repository].
  rewrite Ht. unfold BlacklistRepository.exists_. rewrite Hb.
  cbn [text_of]. rewrite Ht.
  destruct (query_quiet (Sql.CountByIdentifier ident) Hq) as (c & w1 & Hr & Hq1 & Hd & _).
  exists w1. unfold try_catch. rewrite (bind_ok _ Hr).
  cbn. rewrite count_positive. auto.
Qed.




(** ** Adding an entry and reading it back *)

Lemma trim_if_present_shape (e : string) (v v' : JsVal) :
  trim_if_present e v = Ok v' -> v' = of_option (optional_text v).
Proof.
  unfold trim_if_present, optional_text.
  destruct v as [| |b|n|s]; simpl;
    try (intros [= <-]; reflexivity);
    try (destruct b; simpl; intros [= <-]; reflexivity);
    try (destruct (n =? 0)%Z; simpl; intros [= <-]; reflexivity).
  destruct s as [|c r]; simpl; [intros [= <-]; reflexivity|].
  destruct (is_empty (trim (String c r))); intros [= <-]; reflexivity.
Qed.

Lemma sanitized_names (entry s : CreateBlacklistEntryInput) :
  sanitizeBlacklistEntryInput entry = Ok s ->
  CreateInput.firstName s = of_option (optional_text (CreateInput.firstName entry))
  /\ CreateInput.lastName s = of_option (optional_text (CreateInput.lastName entry)).
Proof.
  unfold sanitizeBlacklistEntryInput.
  destruct (trim_or_empty _ (CreateInput.identifier entry)) as [a|]; [|discriminate].
  destruct (trim_or_empty _ (CreateInput.createdBy entry)) as [b|]; [|discriminate].
  destruct (trim_if_present _ (CreateInput.firstName entry)) as [f|] eqn:Ef; [|discriminate].
  destruct (trim_if_present _ (CreateInput.lastName entry)) as [l|] eqn:El; [|discriminate].
  intros [= <-]. simpl. eauto using trim_if_present_shape.
Qed.

Lemma optional_text_nonempty (v : JsVal) (n : string) :
  optional_text v = Some n -> is_empty n = false.
Proof.
  destruct v; simpl; try discriminate.
  destruct (is_empty (trim s)) eqn:E; [discriminate|].
  intros [= <-]. exact E.
Qed.

(** On a store that answers, [create] inserts the sanitized fields and
    returns the generated id. *)
Lemma create_quiet (entry s : CreateBlacklistEntryInput) (w : World) :
  sanitizeBlacklistEntryInput entry = Ok s ->
  isValid (validateBlacklistEntry s) = true ->
  no_faults w ->
  exists w',
    BlacklistRepository.create s w = (Ok (Sql.auto_increment (database w)), w')
    /\ no_faults w'
    /\ database w'
       = snd (Sql.exec
                (Sql.Insert (trimmed_text (CreateInput.identifier entry))
                            (optional_text (CreateInput.firstName entry))
                            (optional_text (CreateInput.lastName entry))
                            (trimmed_text (CreateInput.createdBy entry)))
                (database w)).
Proof.
  intros Hs Hv Hq.
  destruct (sanitized_valid_shape _ Hs Hv) as (Hi & Hb & _ & _ & Hf & Hl).
  unfold BlacklistRepository.create.
  rewrite (sanitizeBlacklistEntryInput_fixed _ Hs).
  unfold lift at 1. unfold bind at 1. unfold ret at 1.
  rewrite Hv. cbn [negb]. rewrite Hi, Hb, Hf, Hl. cbn [text_of].
  match goal with
  | |- context [DatabaseConnection.query ?q] =>
      destruct (query_quiet q Hq) as (c & w' & Hr & Hq' & Hd & _)
  end.
  exists w'. unfold try_catch. rewrite (bind_ok _ Hr). auto.
Qed.

Lemma filter_fresh (d : Sql.Database) :
  fresh_ids d -> filter (Sql.has_id (Sql.auto_increment d)) (Sql.rows d) = [].
Proof.
  intros [_ Hall]. induction Hall as [|r rs Hr _ IH]; [reflexivity|].
  simpl. unfold Sql.has_id at 1.
  destruct (Z.eqb_spec (Sql.id r) (Sql.auto_increment d)); [lia | exact IH].
Qed.

(** C2, counterexample. This input passes validation after sanitization
    and [addEntry] does not succeed: its identifier is already stored. *)
Lemma addEntry_valid_input_rejected :
  sanitizeBlacklistEntryInput john_doe = Ok john_doe
  /\ isValid (validateBlacklistEntry john_doe) = true
  /\ exists w',
      service_addEntry john_doe one_entry
      = (Throw (duplicate_error "0812345678"), w').
Proof.
  split; [vm_compute; reflexivity|]. split; [vm_compute; reflexivity|].
  eexists. vm_compute. reflexivity.
Qed.

(** C2, as amended. For every create input that passes validation after
    sanitization and whose identifier is not already stored, on a store
    that answers, [addEntry] succeeds with some id, and [getById] on that id
    returns an entry whose identifier, firstName, lastName and createdBy
    equal the sanitized input: each string trimmed of surrounding white
    space, and an optional name that was empty or white space only absent
    from the entry. *)
Theorem addEntry_then_getById :
  forall (entry s : CreateBlacklistEntryInput) (w : World),
    sanitizeBlacklistEntryInput entry = Ok s ->
    isValid (validateBlacklistEntry s) = true ->
    no_faults w ->
    fresh_ids (database w) ->
    stored (text_of (CreateInput.identifier s)) (database w) = false ->
    exists (i : Z) (w' : World),
      service_addEntry entry w = (Ok i, w')
      /\ exists (e : BlacklistEntry) (w'' : World),
          service_getById i w' = (Ok (Some e), w'')
          /\ id e = Some i
          /\ JString (identifier e) = CreateInput.identifier s
          /\ of_option (firstName e) = CreateInput.firstName s
          /\ of_option (lastName e) = CreateInput.lastName s
          /\ JString (createdBy e) = CreateInput.createdBy s
          /\ identifier e = trimmed_text (CreateInput.identifier entry)
          /\ firstName e = optional_text (CreateInput.firstName entry)
          /\ lastName e = optional_text (CreateInput.lastName entry)
          /\ createdBy e = trimmed_text (CreateInput.createdBy entry).
Proof.
  intros entry s w Hs Hv Hq Hfresh Hnew.
  destruct (sanitized_valid_shape _ Hs Hv) as (Hi & Hb & Hne & Ht & _ & _).
  destruct (sanitized_names _ Hs) as [Hfn Hln].
  rewrite Hi in Hnew. cbn [text_of] in Hnew.
  destruct (checkDuplicate_quiet Hne Ht Hq) as (w1 & Hc & Hq1 & Hd1).
  rewrite Hnew in Hc.
  destruct (create_quiet entry Hs Hv Hq1) as (w2 & Hcr & Hq2 & Hd2).
  rewrite Hd1 in Hcr, Hd2.
  set (i := Sql.auto_increment (database w)) in *.
  assert (Hadd : service_addEntry entry w = (Ok i, w2)).
  { unfold service_addEntry, BlacklistService.addEntry.
    rewrite Hs. unfold lift at 1. unfold bind at 1. unfold ret at 1.
    rewrite Hv. cbn [negb]. rewrite Hi.
    rewrite bind_ok with (a := tt) (w' := w1).
    - apply try_catch_ok. exact Hcr.
    - apply try_catch_ok.
      change (BlacklistService.checkDuplicate BlacklistRepository.repository)
        with service_checkDuplicate.
      rewrite (bind_ok _ Hc). reflexivity. }
  exists i, w2. split; [exact Hadd|].
  assert (Hpos : (0 < i)%Z) by (destruct Hfresh; assumption).
  destruct (findById_quiet Hpos Hq2) as (c & w3 & Hfind & _).
  rewrite Hd2 in Hfind. cbn [Sql.exec snd Sql.rows] in Hfind.
  unfold i in Hfind.
  rewrite filter_app, (filter_fresh Hfresh) in Hfind.
  cbn [filter app] in Hfind. unfold Sql.has_id in Hfind.
  cbn [Sql.id] in Hfind. rewrite Z.eqb_refl in Hfind. fold i in Hfind.
  eexists. exists w3. split.
  { unfold service_getById, BlacklistService.getById.
    rewrite invalid_id_spec. apply Z.ltb_lt in Hpos. rewrite Hpos. cbn [negb].
    apply try_catch_ok. exact Hfind. }
  unfold BlacklistRepository.mapRowToEntry.
  cbn [id identifier firstName lastName createdBy
       Sql.id Sql.identifier Sql.first_name Sql.last_name Sql.created_by].
  assert (Hopt : forall v,
             match optional_text v with
             | Some n => if is_empty n then None else Some n
             | None => None
             end = optional_text v).
  { intros v. destruct (optional_text v) as [n|] eqn:E; [|reflexivity].
    rewrite (optional_text_nonempty _ E). reflexivity. }
  rewrite !Hopt, Hi, Hb, Hfn, Hln. repeat split; reflexivity.
Qed.

Lemma addEntry_then_getById_witness :
  exists (i : Z) (w' : World),
    service_addEntry jane_padded one_entry = (Ok i, w')
    /\ exists (e : BlacklistEntry) (w'' : World),
        service_getById i w' = (Ok (Some e), w'')
        /\ id e = Some i
        /\ identifier e = "acc-42"
        /\ firstName e = Some "Jane"
        /\ lastName e = None
        /\ createdBy e = "U2".
Proof.
  assert (H1 : sanitizeBlacklistEntryInput jane_padded
               = Ok (CreateInput.mkInput (JString "acc-42") (JString "Jane")
                       JUndefined (JString "U2")))
    by (vm_compute; reflexivity).
  assert (H2 : isValid (validateBlacklistEntry
                          (CreateInput.mkInput (JString "acc-42") (JString "Jane")
                             JUndefined (JString "U2"))) = true)
    by (vm_compute; reflexivity).
  assert (H3 : no_faults one_entry) by reflexivity.
  assert (H4 : fresh_ids (database one_entry)).
  { split; [reflexivity|]. repeat constructor. }
  assert (H5 : stored (text_of (JString "acc-42")) (database one_entry) = false)
    by (vm_compute; reflexivity).
  destruct (@addEntry_then_getById jane_padded _ one_entry H1 H2 H3 H4 H5)
    as (i & w' & Ha & e & w'' & Hg & Hid & _ & _ & _ & _ & Hi & Hf & Hl & Hb).
  exists i, w'. split; [exact Ha|]. exists e, w''.
  repeat split; assumption.
Defined.

(** ** Removing an entry *)

Lemma deletes_cons_select c i tr :
  deletes (EvExecute c (Sql.SelectById i) :: tr) = deletes tr.
Proof. reflexivity. Qed.

Lemma deletes_cons_delete c i tr :
  deletes (EvExecute c (Sql.DeleteById i) :: tr) = S (deletes tr).
Proof. reflexivity. Qed.

Lemma getById_quiet (i : Z) (w : World) :
  (0 < i)%Z -> no_faults w ->
  exists w',
    service_getById i w
    = (Ok match filter (Sql.has_id i) (Sql.rows (database w)) with
          | row :: _ => Some (BlacklistRepository.mapRowToEntry row)
          | [] => None
          end, w').
Proof.
  intros Hi Hq. destruct (findById_quiet Hi Hq) as (c & w' & Hf & _).
  exists w'. unfold service_getById, BlacklistService.getById.
  rewrite invalid_id_spec. apply Z.ltb_lt in Hi. rewrite Hi. cbn [negb].
  apply try_catch_ok. exact Hf.
Qed.

Lemma filter_out_length {A : Type} (p : A -> bool) (l : list A) :
  List.length (filter (fun x => negb (p x)) l) <= List.length l
  /\ (existsb p l = true
      <-> List.length (filter (fun x => negb (p x)) l) < List.length l).
Proof.
  induction l as [|x l [IHle IH]]; simpl.
  - split; [lia|]. split; [discriminate | lia].
  - destruct (p x); simpl.
    + split; [lia|]. split; [lia | reflexivity].
    + split; [lia|]. rewrite IH. lia.
Qed.

(** C3. For every id that is not positive [removeEntry] raises the
    validation error, and nothing else happens.  For every positive id with
    no stored entry it returns false and issues no DELETE.  For every
    positive id with a stored entry it issues the DELETE, returns true, the
    rows of that id are gone and [getById] on that id then returns nothing
    (these two on a store that answers).  That true is returned exactly
    when the DELETE affected a row is shown in two steps: whatever the
    repository, once the lookup has found an entry [removeEntry] returns
    what [deleteById] of the repository answers, true or false; and
    [deleteById] of the repository answers true exactly when its DELETE
    took a row from the table, for a stored id and for any other. *)
Theorem removeEntry_contract :
  forall (i : Z) (w : World),
    ((i <= 0)%Z ->
     service_removeEntry i w
     = (Throw "Invalid ID: ID must be a positive number", w))
    /\ ((0 < i)%Z -> no_faults w -> stored_id i (database w) = false ->
        exists w',
          service_removeEntry i w = (Ok false, w')
          /\ deletes (trace w') = deletes (trace w)
          /\ database w' = database w)
    /\ ((0 < i)%Z -> no_faults w -> stored_id i (database w) = true ->
        exists w',
          service_removeEntry i w = (Ok true, w')
          /\ deletes (trace w') = S (deletes (trace w))
          /\ Sql.rows (database w')
             = filter (fun r => negb (Sql.has_id i r)) (Sql.rows (database w))
          /\ List.length (Sql.rows (database w'))
             < List.length (Sql.rows (database w))
          /\ stored_id i (database w') = false
          /\ exists w'', service_getById i w' = (Ok None, w''))
    /\ ((0 < i)%Z ->
        forall (repository : IBlacklistRepository) (existingEntry : BlacklistEntry)
               (w1 : World) (deleted : bool) (w2 : World),
          findById repository i w = (Ok (Some existingEntry), w1) ->
          deleteById repository i w1 = (Ok deleted, w2) ->
          BlacklistService.removeEntry repository i w = (Ok deleted, w2))
    /\ ((0 < i)%Z -> no_faults w ->
        exists (deleted : bool) (w' : World),
          BlacklistRepository.deleteById i w = (Ok deleted, w')
          /\ Sql.rows (database w')
             = filter (fun r => negb (Sql.has_id i r)) (Sql.rows (database w))
          /\ (deleted = true
              <-> List.length (Sql.rows (database w'))
                  < List.length (Sql.rows (database w)))).
Proof.
  intros i w. split; [|split; [|split; [|split]]].
  - intros Hi. unfold service_removeEntry, BlacklistService.removeEntry.
    rewrite invalid_id_spec.
    assert (H : (0 <? i)%Z = false) by (apply Z.ltb_ge; exact Hi).
    rewrite H. reflexivity.
  - intros Hi Hq Hno.
    destruct (findById_quiet Hi Hq) as (c & w1 & Hf & Hq1 & Hd1 & He1).
    unfold stored_id in Hno. rewrite (filter_none _ _ Hno) in Hf.
    exists w1. split; [|split; [|exact Hd1]].
    + unfold service_removeEntry, BlacklistService.removeEntry.
      rewrite invalid_id_spec. apply Z.ltb_lt in Hi. rewrite Hi. cbn [negb].
      apply try_catch_ok.
      change (findById BlacklistRepository.repository)
        with BlacklistRepository.findById.
      rewrite (bind_ok _ Hf). reflexivity.
    + rewrite (deletes_executed (trace w1)), He1, deletes_cons_select.
      symmetry. apply deletes_executed.
  - intros Hi Hq Hyes.
    destruct (findById_quiet Hi Hq) as (c & w1 & Hf & Hq1 & Hd1 & He1).
    pose proof Hyes as Hst. unfold stored_id in Hyes.
    destruct (filter_some _ _ Hyes) as (row & rest & Hrows).
    rewrite Hrows in Hf.
    destruct (deleteById_quiet Hi Hq1) as (c' & w2 & Hdel & Hq2 & Hr2 & He2).
    rewrite Hd1 in Hdel, Hr2. rewrite Hst in Hdel.
    exists w2. split; [|split; [|split; [exact Hr2|split; [|split]]]].
    + unfold service_removeEntry, BlacklistService.removeEntry.
      rewrite invalid_id_spec. pose proof Hi as Hi'.
      apply Z.ltb_lt in Hi'. rewrite Hi'. cbn [negb].
      apply try_catch_ok.
      change (findById BlacklistRepository.repository)
        with BlacklistRepository.findById.
      rewrite (bind_ok _ Hf).
      change (deleteById BlacklistRepository.repository)
        with BlacklistRepository.deleteById.
      rewrite (bind_ok _ Hdel). reflexivity.
    + rewrite (deletes_executed (trace w2)), He2, deletes_cons_delete.
      rewrite He1, deletes_cons_select. f_equal.
      symmetry. apply deletes_executed.
    + rewrite Hr2. apply filter_out_length. exact Hyes.
    + unfold stored_id. rewrite Hr2. apply filter_out_none.
    + destruct (getById_quiet Hi Hq2) as (w3 & Hg).
      exists w3. rewrite Hg. rewrite Hr2.
      pose proof (filter_out_none (Sql.has_id i) (Sql.rows (database w))) as Hout.
      rewrite (filter_none _ _ Hout). reflexivity.
  - intros Hi repository existingEntry w1 deleted w2 Hf Hdel.
    unfold BlacklistService.removeEntry.
    rewrite invalid_id_spec. apply Z.ltb_lt in Hi. rewrite Hi. cbn [negb].
    apply try_catch_ok. rewrite (bind_ok _ Hf). rewrite (bind_ok _ Hdel).
    reflexivity.
  - intros Hi Hq.
    destruct (deleteById_quiet Hi Hq) as (c' & w2 & Hdel & _ & Hr2 & _).
    exists (stored_id i (database w)), w2.
    split; [exact Hdel|]. split; [exact Hr2|].
    rewrite Hr2. unfold stored_id. apply filter_out_length.
Qed.

Lemma removeEntry_contract_witness :
  service_removeEntry (-3) one_entry
  = (Throw "Invalid ID: ID must be a positive number", one_entry)
  /\ (exists w',
        service_removeEntry 7 one_entry = (Ok false, w')
        /\ deletes (trace w') = deletes (trace one_entry)
        /\ database w' = database one_entry)
  /\ (exists w',
        service_removeEntry 1 one_entry = (Ok true, w')
        /\ deletes (trace w') = S (deletes (trace one_entry))
        /\ stored_id 1 (database w') = false
        /\ exists w'', service_getById 1 w' = (Ok None, w''))
  /\ (exists w',
        BlacklistService.removeEntry (raced_repository 1) 1 one_entry
        = (Ok false, w'))
  /\ (exists w',
        BlacklistRepository.deleteById 7 one_entry = (Ok false, w')
        /\ database w' = database one_entry).
Proof.
  split; [|split; [|split; [|split]]].
  - apply (proj1 (removeEntry_contract (-3) one_entry)). lia.
  - apply (proj1 (proj2 (removeEntry_contract 7 one_entry))).
    + lia.
    + reflexivity.
    + vm_compute; reflexivity.
  - destruct (proj1 (proj2 (proj2 (removeEntry_contract 1 one_entry))))
      as (w' & Hr & Hd & _ & _ & Hs & Hg).
    + lia.
    + reflexivity.
    + vm_compute; reflexivity.
    + exists w'. auto.
  - eexists.
    eapply (proj1 (proj2 (proj2 (proj2 (removeEntry_contract 1 one_entry))))).
    + lia.
    + vm_compute. reflexivity.
    + vm_compute. reflexivity.
  - destruct (proj2 (proj2 (proj2 (proj2 (removeEntry_contract 7 one_entry)))))
      as (deleted & w' & Hdel & Hrows & Hiff).
    + lia.
    + reflexivity.
    + exists w'. destruct deleted.
      * exfalso. apply proj1 in Hiff. specialize (Hiff eq_refl).
        rewrite Hrows in Hiff. vm_compute in Hiff. lia.
      * split; [exact Hdel|]. vm_compute in Hdel. injection Hdel as <-.
        reflexivity.
Defined.

(** ** Name search: LIKE '%fragment%' under the collation of the table *)

Lemma like_tokens_literals (f rest : string) :
  no_wildcard f = true ->
  Sql.like_tokens (f ++ rest) = literals f ++ Sql.like_tokens rest.
Proof.
  induction f as [|c f IH]; [reflexivity|].
  cbn [no_wildcard]. intros H.
  apply andb_prop in H as [H Hf]. apply andb_prop in H as [H Hb].
  apply andb_prop in H as [Hp Hu].
  apply negb_true_iff in Hp, Hu, Hb.
  cbn [append Sql.like_tokens literals]. rewrite Hp, Hu, Hb.
  cbn [app]. f_equal. apply IH, Hf.
Qed.

Lemma like_tokens_fragment (f : string) :
  no_wildcard f = true ->
  Sql.like_tokens ("%" ++ f ++ "%") = Sql.TAny :: literals f ++ [Sql.TAny].
Proof.
  intros H. change ("%" ++ f ++ "%")%string with (String "%" (f ++ "%")).
  cbn [Sql.like_tokens]. change (Ascii.eqb "%" Sql.percent) with true.
  cbv iota. f_equal. rewrite like_tokens_literals by exact H. reflexivity.
Qed.

Lemma match_any_step (ts : list Sql.Tok) (c : ascii) (s : string) :
  Sql.match_tokens (Sql.TAny :: ts) (String c s)
  = Sql.match_tokens ts (String c s) || Sql.match_tokens (Sql.TAny :: ts) s.
Proof. reflexivity. Qed.

Lemma match_any (s : string) : Sql.match_tokens [Sql.TAny] s = true.
Proof.
  induction s as [|c s IH]; [reflexivity|].
  rewrite match_any_step, IH. apply orb_true_r.
Qed.

(** [TAny :: ts] matches [s] when [ts] matches some suffix of [s]. *)
Lemma match_skip (ts : list Sql.Tok) (s : string) :
  Sql.match_tokens (Sql.TAny :: ts) s = true
  <-> exists pre rest, s = (pre ++ rest)%string /\ Sql.match_tokens ts rest = true.
Proof.
  induction s as [|c s IH].
  - cbn [Sql.match_tokens]. rewrite orb_false_r. split.
    + intros H. exists "", "". auto.
    + intros (pre & rest & He & H).
      destruct pre; [|discriminate]. simpl in He. subst rest. exact H.
  - rewrite match_any_step, orb_true_iff, IH. split.
    + intros [H|(pre & rest & -> & H)].
      * exists "", (String c s). auto.
      * exists (String c pre), rest. auto.
    + intros (pre & rest & He & H). destruct pre as [|d pre].
      * simpl in He. subst rest. auto.
      * simpl in He. injection He as -> ->. right. eauto.
Qed.

(** [literals f ++ [TAny]] matches [s] when [s] begins with [f]. *)
Lemma match_prefix (f s : string) :
  Sql.match_tokens (literals f ++ [Sql.TAny]) s = true
  <-> exists mid post, s = (mid ++ post)%string
                       /\ pointwise Sql.coll_eqb f mid = true.
Proof.
  revert s. induction f as [|c f IH]; intros s.
  - cbn [literals app]. rewrite match_any. split; [|reflexivity].
    intros _. exists "", s. auto.
  - cbn [literals app Sql.match_tokens]. destruct s as [|d s].
    + split; [discriminate|].
      intros (mid & post & He & H). destruct mid; [|discriminate].
      simpl in H. discriminate.
    + rewrite andb_true_iff, IH. split.
      * intros (Hc & mid & post & -> & H).
        exists (String d mid), post. split; [reflexivity|].
        simpl. rewrite Hc. exact H.
      * intros (mid & post & He & H). destruct mid as [|d' mid].
        -- simpl in H. discriminate.
        -- simpl in He. injection He as -> ->. simpl in H.
           apply andb_prop in H as [Hc H]. split; [exact Hc|]. eauto.
Qed.

Lemma like_contains (f name : string) :
  no_wildcard f = true ->
  Sql.like ("%" ++ f ++ "%") name = true <-> contains_in_collation f name.
Proof.
  intros Hf. unfold Sql.like, contains_in_collation, contains_as.
  rewrite like_tokens_fragment by exact Hf. rewrite match_skip. split.
  - intros (pre & rest & -> & H). apply match_prefix in H.
    destruct H as (mid & post & -> & H). eauto.
  - intros (pre & mid & post & -> & H). exists pre, (mid ++ post)%string.
    split; [reflexivity|]. apply match_prefix. eauto.
Qed.

(** Ordering the result does not change what is in it. *)
Lemma insert_desc_In (r x : Sql.Row) (l : list Sql.Row) :
  In x (Sql.insert_desc r l) <-> x = r \/ In x l.
Proof.
  induction l as [|y l IH]; simpl.
  - intuition auto.
  - destruct (Sql.created_at y <? Sql.created_at r)%Z; simpl.
    + intuition auto.
    + rewrite IH. intuition auto.
Qed.

Lemma order_by_In (x : Sql.Row) (l : list Sql.Row) :
  In x (Sql.order_by_created_at_desc l) <-> In x l.
Proof.
  induction l as [|y l IH]; simpl; [reflexivity|].
  rewrite insert_desc_In, IH. intuition auto.
Qed.

Lemma trim_nonempty_source (s : string) : is_empty (trim s) = false -> is_empty s = false.
Proof. destruct s; [discriminate | reflexivity]. Qed.

(** A search on one name column, on a store that answers. *)
Lemma search_one_name (raw criteria : SearchCriteria) (pred : string -> Sql.Pred)
    (t : string) (w : World) :
  sanitizeSearchCriteria raw = Ok criteria ->
  isValid (validateSearchCriteria criteria) = true ->
  (BlacklistRepository.search criteria
   = try_catch
       (rows <- DatabaseConnection.query (Sql.SelectWhere [pred ("%" ++ t ++ "%")%string]) ;;
        ret (map BlacklistRepository.mapRowToEntry rows))
       (fun _ => throw "Failed to search blacklist entries")) ->
  no_faults w ->
  exists selected w',
    service_searchEntries raw w
    = (Ok (map BlacklistRepository.mapRowToEntry selected), w')
    /\ forall r, In r selected
                 <-> In r (Sql.rows (database w))
                     /\ Sql.holds (pred ("%" ++ t ++ "%")%string) r = true.
Proof.
  intros Hs Hv Hsearch Hq.
  destruct (query_quiet (Sql.SelectWhere [pred ("%" ++ t ++ "%")%string]) Hq)
    as (c & w' & Hr & _).
  cbn [Sql.exec fst] in Hr.
  eexists. exists w'. split.
  - unfold service_searchEntries, BlacklistService.searchEntries.
    rewrite Hs. unfold lift at 1. unfold bind at 1. unfold ret at 1.
    rewrite Hv. cbn [negb]. apply try_catch_ok.
    change (search BlacklistRepository.repository) with BlacklistRepository.search.
    rewrite Hsearch. apply try_catch_ok. rewrite (bind_ok _ Hr). reflexivity.
  - intros r. rewrite order_by_In, filter_In. cbn [forallb].
    rewrite andb_true_r. reflexivity.
Qed.

Lemma trim_if_present_text (e frag : string) :
  is_empty (trim frag) = false ->
  trim_if_present e (JString frag) = Ok (JString (trim frag)).
Proof.
  intros H. unfold trim_if_present. cbn [truthy].
  rewrite (trim_nonempty_source _ H), H. reflexivity.
Qed.

Lemma name_bound_ok (t : string) :
  is_empty t = false -> String.length t <= 100 ->
  (String.length t =? 0) = false /\ (100 <? String.length t) = false.
Proof.
  intros Hn Hl. split.
  - rewrite is_empty_length. exact Hn.
  - apply Nat.ltb_ge. exact Hl.
Qed.

Lemma search_by_firstName (frag : string) (w : World) :
  is_empty (trim frag) = false ->
  String.length (trim frag) <= 100 ->
  no_faults w ->
  exists selected w',
    service_searchEntries (by_firstName frag) w
    = (Ok (map BlacklistRepository.mapRowToEntry selected), w')
    /\ forall r, In r selected
                 <-> In r (Sql.rows (database w))
                     /\ Sql.holds (Sql.FirstNameLike ("%" ++ trim frag ++ "%")) r = true.
Proof.
  intros Hn Hl Hq.
  assert (Hn' : is_empty (trim (trim frag)) = false)
    by (rewrite trim_idempotent; exact Hn).
  destruct (name_bound_ok _ Hn Hl) as [Hz Hb].
  assert (Hv : isValid (validateSearchCriteria (by_firstName (trim frag))) = true).
  { unfold validateSearchCriteria, by_firstName.
    cbn [Criteria.identifier Criteria.firstName Criteria.lastName truthy].
    rewrite trim_idempotent, Hn, Hz, Hb. reflexivity. }
  assert (Hs : forall f, is_empty (trim f) = false ->
                         sanitizeSearchCriteria (by_firstName f)
                         = Ok (by_firstName (trim f))).
  { intros f Hf. unfold sanitizeSearchCriteria, by_firstName.
    cbn [Criteria.identifier Criteria.firstName Criteria.lastName].
    rewrite (trim_if_present_text _ _ Hf). reflexivity. }
  apply search_one_name with (criteria := by_firstName (trim frag))
                             (pred := Sql.FirstNameLike) (t := trim frag);
    [apply Hs; exact Hn | exact Hv | | exact Hq].
  unfold BlacklistRepository.search.
  rewrite (Hs (trim frag) Hn'), trim_idempotent.
  unfold lift at 1. unfold bind at 1. unfold ret at 1.
  rewrite Hv. cbn [negb by_firstName Criteria.identifier Criteria.firstName
                   Criteria.lastName truthy to_template app].
  rewrite Hn. reflexivity.
Qed.

Lemma search_by_lastName (frag : string) (w : World) :
  is_empty (trim frag) = false ->
  String.length (trim frag) <= 100 ->
  no_faults w ->
  exists selected w',
    service_searchEntries (by_lastName frag) w
    = (Ok (map BlacklistRepository.mapRowToEntry selected), w')
    /\ forall r, In r selected
                 <-> In r (Sql.rows (database w))
                     /\ Sql.holds (Sql.LastNameLike ("%" ++ trim frag ++ "%")) r = true.
Proof.
  intros Hn Hl Hq.
  assert (Hn' : is_empty (trim (trim frag)) = false)
    by (rewrite trim_idempotent; exact Hn).
  destruct (name_bound_ok _ Hn Hl) as [Hz Hb].
  assert (Hv : isValid (validateSearchCriteria (by_lastName (trim frag))) = true).
  { unfold validateSearchCriteria, by_lastName.
    cbn [Criteria.identifier Criteria.firstName Criteria.lastName truthy].
    rewrite trim_idempotent, Hn, Hz, Hb. reflexivity. }
  assert (Hs : forall f, is_empty (trim f) = false ->
                         sanitizeSearchCriteria (by_lastName f)
                         = Ok (by_lastName (trim f))).
  { intros f Hf. unfold sanitizeSearchCriteria, by_lastName.
    cbn [Criteria.identifier Criteria.firstName Criteria.lastName].
    rewrite (trim_if_present_text _ _ Hf). reflexivity. }
  apply search_one_name with (criteria := by_lastName (trim frag))
                             (pred := Sql.LastNameLike) (t := trim frag);
    [apply Hs; exact Hn | exact Hv | | exact Hq].
  unfold BlacklistRepository.search.
  rewrite (Hs (trim frag) Hn'), trim_idempotent.
  unfold lift at 1. unfold bind at 1. unfold ret at 1.
  rewrite Hv. cbn [negb by_lastName Criteria.identifier Criteria.firstName
                   Criteria.lastName truthy to_template app].
  rewrite Hn. reflexivity.
Qed.

Lemma holds_like (column : Sql.Row -> option string) (t : string) (r : Sql.Row) :
  no_wildcard t = true ->
  match column r with
  | Some n => Sql.like ("%" ++ t ++ "%") n
  | None => false
  end = true
  <-> name_matches column t r.
Proof.
  intros Ht. unfold name_matches. destruct (column r) as [n|].
  - rewrite like_contains by exact Ht. split.
    + intros H. exists n. auto.
    + intros (n' & [= <-] & H). exact H.
  - split; [discriminate|]. intros (n' & H & _). discriminate.
Qed.

(** The collation does not tell a capital from its small letter. *)
Lemma weights_to_lower (c : ascii) : Sql.weights (to_lower c) = Sql.weights c.
Proof. destruct c as [[] [] [] [] [] [] [] []]; reflexivity. Qed.

Lemma same_weights_refl (x : list nat) : Sql.same_weights x x = true.
Proof.
  induction x as [|a x IH]; [reflexivity|].
  simpl. rewrite Nat.eqb_refl. exact IH.
Qed.

Lemma same_letter_coll (a b : ascii) :
  same_letter a b = true -> Sql.coll_eqb a b = true.
Proof.
  unfold same_letter, Sql.coll_eqb. intros H. apply Ascii.eqb_eq in H.
  rewrite <- (weights_to_lower a), H, weights_to_lower.
  apply same_weights_refl.
Qed.

Lemma pointwise_weaken (same same' : ascii -> ascii -> bool) :
  (forall a b, same a b = true -> same' a b = true) ->
  forall s t, pointwise same s t = true -> pointwise same' s t = true.
Proof.
  intros Hw. induction s as [|a s IH]; intros [|b t]; simpl; auto.
  intros H. apply andb_prop in H as [Hc H].
  rewrite (Hw _ _ Hc). simpl. auto.
Qed.

(** What differs in letter case only is the same to the collation. *)
Lemma ignoring_case_in_collation (frag name : string) :
  contains_ignoring_case frag name -> contains_in_collation frag name.
Proof.
  intros (pre & mid & post & He & H). exists pre, mid, post. split; [exact He|].
  exact (pointwise_weaken same_letter Sql.coll_eqb same_letter_coll _ _ H).
Qed.

(** C7, counterexample. The stored first name "Johnson" does not contain
    "john" with identical character case, and a search for the first name
    "john" returns the entry: the table compares without regard to case. *)
Lemma search_ignores_case :
  includes "john" "Johnson" = false
  /\ exists w',
      service_searchEntries (by_firstName "john") one_entry
      = (Ok [ {| id := Some 1%Z; identifier := "0812345678";
                 firstName := Some "Johnson"; lastName := Some "Doe";
                 createdAt := 0%Z; createdBy := "U1" |} ], w').
Proof.
  split; [vm_compute; reflexivity|]. eexists. vm_compute. reflexivity.
Qed.

Lemma length_append (a b : string) :
  String.length (a ++ b) = String.length a + String.length b.
Proof. induction a as [|c a IH]; simpl; [reflexivity | rewrite IH; reflexivity]. Qed.

Lemma append_empty (a : string) : (a ++ "")%string = a.
Proof. induction a as [|c a IH]; simpl; [reflexivity | rewrite IH; reflexivity]. Qed.

Lemma pointwise_length (same : ascii -> ascii -> bool) (a b : string) :
  pointwise same a b = true -> String.length a = String.length b.
Proof.
  revert b. induction a as [|x a IH]; intros [|y b]; simpl; try discriminate; auto.
  intros H. apply andb_prop in H as [_ H]. f_equal. auto.
Qed.

(** The collation sees more than letter case: the stored first name "Jose"
    with an acute on the e does not contain "jose", letter case apart, and
    a search for the first name "jose" returns the entry. *)
Lemma search_ignores_accents :
  let name := ("Jos" ++ String e_acute "")%string in
  let row := {| Sql.id := 1; Sql.identifier := "acc-7";
                Sql.first_name := Some name; Sql.last_name := None;
                Sql.created_at := 0; Sql.created_by := "U1" |} in
  ~ contains_ignoring_case "jose" name
  /\ exists w',
      service_searchEntries (by_firstName "jose")
        (set_database {| Sql.rows := [row]; Sql.auto_increment := 2;
                         Sql.clock := 1 |} one_entry)
      = (Ok [BlacklistRepository.mapRowToEntry row], w').
Proof.
  cbv zeta. split.
  - intros (pre & mid & post & He & H).
    pose proof (pointwise_length _ _ _ H) as Hlen.
    pose proof (f_equal String.length He) as Hl.
    rewrite !length_append in Hl. simpl in Hlen, Hl.
    destruct pre as [|p1 pre]; [|simpl in Hl; lia].
    destruct post as [|q1 post]; [|simpl in Hl; lia].
    simpl in He. rewrite append_empty in He. subst mid.
    vm_compute in H. discriminate H.
  - eexists. vm_compute. reflexivity.
Qed.

(** C7, as amended. Searching by name matches by substring containment
    under the collation of the table, which compares characters without
    regard to letter case and accents: for every stored entry and every
    name fragment that is not blank, is at most 100 characters long once
    trimmed and holds none of the LIKE characters percent, underscore and
    backslash, the entry is returned exactly when its stored name contains
    a run of characters that the collation equates, one by one, with those
    of the trimmed fragment; in particular it is returned whenever the name
    contains the trimmed fragment letter case apart.  This for firstName
    and for lastName alike (on a store that answers).  So an entry with
    firstName "Johnson" is returned by a search for firstName "John". *)
Theorem name_search_contains :
  forall (frag : string) (w : World),
    is_empty (trim frag) = false ->
    String.length (trim frag) <= 100 ->
    no_wildcard (trim frag) = true ->
    no_faults w ->
    (exists selected w',
        service_searchEntries (by_firstName frag) w
        = (Ok (map BlacklistRepository.mapRowToEntry selected), w')
        /\ (forall r, In r selected
                      <-> In r (Sql.rows (database w))
                          /\ name_matches Sql.first_name (trim frag) r)
        /\ (forall r name, In r (Sql.rows (database w)) ->
                           Sql.first_name r = Some name ->
                           contains_ignoring_case (trim frag) name ->
                           In r selected))
    /\ (exists selected w',
        service_searchEntries (by_lastName frag) w
        = (Ok (map BlacklistRepository.mapRowToEntry selected), w')
        /\ (forall r, In r selected
                      <-> In r (Sql.rows (database w))
                          /\ name_matches Sql.last_name (trim frag) r)
        /\ (forall r name, In r (Sql.rows (database w)) ->
                           Sql.last_name r = Some name ->
                           contains_ignoring_case (trim frag) name ->
                           In r selected)).
Proof.
  intros frag w Hn Hl Hw Hq. split.
  - destruct (search_by_firstName frag Hn Hl Hq) as (sel & w' & Hr & Hin).
    assert (Hiff : forall r, In r sel
                             <-> In r (Sql.rows (database w))
                                 /\ name_matches Sql.first_name (trim frag) r).
    { intros r. rewrite Hin. cbn [Sql.holds].
      rewrite (@holds_like Sql.first_name (trim frag) r Hw). reflexivity. }
    exists sel, w'. split; [exact Hr|]. split; [exact Hiff|].
    intros r name Hr' Hname Hc. apply Hiff. split; [exact Hr'|].
    exists name. split; [exact Hname|]. apply ignoring_case_in_collation, Hc.
  - destruct (search_by_lastName frag Hn Hl Hq) as (sel & w' & Hr & Hin).
    assert (Hiff : forall r, In r sel
                             <-> In r (Sql.rows (database w))
                                 /\ name_matches Sql.last_name (trim frag) r).
    { intros r. rewrite Hin. cbn [Sql.holds].
      rewrite (@holds_like Sql.last_name (trim frag) r Hw). reflexivity. }
    exists sel, w'. split; [exact Hr|]. split; [exact Hiff|].
    intros r name Hr' Hname Hc. apply Hiff. split; [exact Hr'|].
    exists name. split; [exact Hname|]. apply ignoring_case_in_collation, Hc.
Qed.

Lemma name_search_contains_witness :
  (exists selected w',
      service_searchEntries (by_firstName " John ") one_entry
      = (Ok (map BlacklistRepository.mapRowToEntry selected), w')
      /\ forall r, In r selected
                   <-> In r (Sql.rows (database one_entry))
                       /\ name_matches Sql.first_name "John" r)
  /\ (exists selected w',
        service_searchEntries (by_firstName (" jos" ++ String e_acute " ")) accent_entry
        = (Ok (map BlacklistRepository.mapRowToEntry selected), w')
        /\ forall r, In r (Sql.rows (database accent_entry)) -> In r selected).
Proof.
  split.
  - assert (H1 : is_empty (trim " John ") = false) by (vm_compute; reflexivity).
    assert (H2 : String.length (trim " John ") <= 100) by (vm_compute; lia).
    assert (H3 : no_wildcard (trim " John ") = true) by (vm_compute; reflexivity).
    assert (H4 : no_faults one_entry) by reflexivity.
    destruct (proj1 (@name_search_contains " John " one_entry H1 H2 H3 H4))
      as (sel & w' & Hr & Hiff & _).
    exists sel, w'. split; [exact Hr | exact Hiff].
  - set (frag := (" jos" ++ String e_acute " ")%string).
    assert (H1 : is_empty (trim frag) = false) by (vm_compute; reflexivity).
    assert (H2 : String.length (trim frag) <= 100) by (vm_compute; lia).
    assert (H3 : no_wildcard (trim frag) = true) by (vm_compute; reflexivity).
    assert (H4 : no_faults accent_entry) by reflexivity.
    destruct (proj1 (@name_search_contains frag accent_entry H1 H2 H3 H4))
      as (sel & w' & Hr & _ & Hcase).
    exists sel, w'. split; [exact Hr|].
    intros r Hin. apply (Hcase r ("JOS" ++ String E_acute "")%string Hin).
    + destruct Hin as [<-|[]]. reflexivity.
    + exists "", ("JOS" ++ String E_acute "")%string, "".
      split; vm_compute; reflexivity.
Defined.

(* ================================================================== *)
(** * Further properties *)

(** ** Sanitizing and validating together *)

Lemma trimStart_length (s : string) : String.length (trimStart s) <= String.length s.
Proof.
  induction s as [|c r IH]; simpl; [lia|].
  destruct (is_ws c); simpl; lia.
Qed.

Lemma trimEnd_length (s : string) : String.length (trimEnd s) <= String.length s.
Proof.
  induction s as [|c r IH]; simpl; [lia|].
  destruct (trimEnd r); [destruct (is_ws c)|]; simpl in *; lia.
Qed.

Lemma trim_length (s : string) : String.length (trim s) <= String.length s.
Proof.
  unfold trim. pose proof (trimEnd_length (trimStart s)).
  pose proof (trimStart_length s). lia.
Qed.

Lemma within_bound_trim (bound : nat) (s : string) :
  (bound <? String.length s) = false -> (bound <? String.length (trim s)) = false.
Proof.
  rewrite !Nat.ltb_ge. pose proof (trim_length s). lia.
Qed.

(** What one valid optional name becomes. *)
Lemma valid_name_sanitized (e : string) (v : JsVal) :
  (provided v && negb (is_string v)) = false ->
  longer_than 100 v = false ->
  exists v',
    trim_if_present e v = Ok v'
    /\ (provided v' && negb (is_string v')) = false
    /\ longer_than 100 v' = false.
Proof.
  destruct v as [| |b|n|s]; simpl; try discriminate; intros _ Hlen.
  - exists JUndefined. auto.
  - unfold trim_if_present. destruct s as [|c r].
    + exists JUndefined. auto.
    + cbn [truthy is_empty negb].
      destruct (is_empty (trim (String c r))).
      * exists JUndefined. auto.
      * exists (JString (trim (String c r))). simpl.
        auto using within_bound_trim.
Qed.

(** What one valid search criterion becomes. *)
Lemma valid_criterion_sanitized (e : string) (bound : nat) (v : JsVal) :
  (provided v && negb (is_string v)) = false ->
  blank v = false ->
  longer_than bound v = false ->
  exists v',
    trim_if_present e v = Ok v'
    /\ truthy v' = truthy v
    /\ (provided v' && negb (is_string v')) = false
    /\ blank v' = false
    /\ longer_than bound v' = false.
Proof.
  destruct v as [| |b|n|s]; simpl; try discriminate; intros _ Hb Hlen.
  - exists JUndefined. auto.
  - unfold trim_if_present.
    assert (Hs : is_empty s = false) by (destruct s; [discriminate | reflexivity]).
    cbn [truthy]. rewrite Hs, Hb. cbn [negb].
    exists (JString (trim s)).
    cbn [truthy provided is_string negb andb blank longer_than].
    rewrite trim_idempotent, Hb.
    repeat split; auto using within_bound_trim.
Qed.

(** X1. Sanitizing never turns a valid input into an invalid one: whatever
    passes [validateBlacklistEntry] (or [validateSearchCriteria]) is
    sanitized without an error, and the result passes the validator too. *)
Theorem sanitizing_keeps_valid :
  (forall i : CreateBlacklistEntryInput,
      isValid (validateBlacklistEntry i) = true ->
      exists s, sanitizeBlacklistEntryInput i = Ok s
                /\ isValid (validateBlacklistEntry s) = true)
  /\ (forall c : SearchCriteria,
      isValid (validateSearchCriteria c) = true ->
      exists s, sanitizeSearchCriteria c = Ok s
                /\ isValid (validateSearchCriteria s) = true).
Proof.
  split.
  - intros i Hv.
    destruct (entry_validation_rules i) as (_ & _ & Hn).
    rewrite Hv in Hn. symmetry in Hn. unfold no_violation in Hn.
    destruct i as [ident fn ln by_].
    cbn [entry_rules forallb violated CreateInput.identifier
         CreateInput.firstName CreateInput.lastName CreateInput.createdBy] in Hn.
    rewrite !andb_true_r in Hn.
    repeat match goal with
           | H : (_ && _) = true |- _ => apply andb_prop in H; destruct H
           end.
    repeat match goal with
           | H : negb _ = true |- _ => apply negb_true_iff in H
           end.
    destruct ident as [| |?|?|a]; try discriminate.
    destruct by_ as [| |?|?|b]; try discriminate.
    destruct (valid_name_sanitized "input.firstName.trim" fn)
      as (fn' & Hf1 & Hf2 & Hf3); [assumption..|].
    destruct (valid_name_sanitized "input.lastName.trim" ln)
      as (ln' & Hl1 & Hl2 & Hl3); [assumption..|].
    unfold sanitizeBlacklistEntryInput.
    cbn [CreateInput.identifier CreateInput.firstName CreateInput.lastName
         CreateInput.createdBy trim_or_empty].
    rewrite Hf1, Hl1. eexists. split; [reflexivity|].
    match goal with
    | |- isValid (validateBlacklistEntry ?s) = true =>
        destruct (entry_validation_rules s) as (_ & _ & ->)
    end.
    unfold no_violation.
    cbn [entry_rules forallb violated CreateInput.identifier
         CreateInput.firstName CreateInput.lastName CreateInput.createdBy].
    cbn [is_string blank longer_than negb] in *.
    rewrite !trim_idempotent.
    repeat match goal with
           | H : _ = false |- _ => rewrite H
           | H : (?n <? String.length ?s) = false |- _ =>
               rewrite (within_bound_trim _ _ H)
           end.
    reflexivity.
  - intros c Hv.
    destruct (criteria_validation_rules c) as (_ & _ & Hn).
    rewrite Hv in Hn. symmetry in Hn. unfold no_violation in Hn.
    destruct c as [ident fn ln].
    cbn [criteria_rules forallb violated Criteria.identifier
         Criteria.firstName Criteria.lastName] in Hn.
    rewrite !andb_true_r in Hn.
    repeat match goal with
           | H : (_ && _) = true |- _ => apply andb_prop in H; destruct H
           end.
    repeat match goal with
           | H : negb _ = true |- _ => apply negb_true_iff in H
           end.
    destruct (valid_criterion_sanitized "criteria.identifier.trim" 255 ident)
      as (i' & Hi1 & Hi2 & Hi3 & Hi4 & Hi5); [assumption..|].
    destruct (valid_criterion_sanitized "criteria.firstName.trim" 100 fn)
      as (f' & Hf1 & Hf2 & Hf3 & Hf4 & Hf5); [assumption..|].
    destruct (valid_criterion_sanitized "criteria.lastName.trim" 100 ln)
      as (l' & Hl1 & Hl2 & Hl3 & Hl4 & Hl5); [assumption..|].
    unfold sanitizeSearchCriteria.
    cbn [Criteria.identifier Criteria.firstName Criteria.lastName].
    rewrite Hi1, Hf1, Hl1. eexists. split; [reflexivity|].
    match goal with
    | |- isValid (validateSearchCriteria ?s) = true =>
        destruct (criteria_validation_rules s) as (_ & _ & ->)
    end.
    unfold no_violation.
    cbn [criteria_rules forallb violated Criteria.identifier
         Criteria.firstName Criteria.lastName].
    rewrite Hi2, Hf2, Hl2, Hi3, Hf3, Hl3, Hi4, Hf4, Hl4, Hi5, Hf5, Hl5.
    repeat match goal with
           | H : _ = false |- _ => rewrite H
           end.
    reflexivity.
Qed.

Lemma sanitizing_keeps_valid_witness :
  (exists s, sanitizeBlacklistEntryInput padded_input = Ok s
             /\ isValid (validateBlacklistEntry s) = true)
  /\ (exists s, sanitizeSearchCriteria (by_firstName " John ") = Ok s
                /\ isValid (validateSearchCriteria s) = true).
Proof.
  split.
  - apply (proj1 sanitizing_keeps_valid padded_input). vm_compute. reflexivity.
  - apply (proj2 sanitizing_keeps_valid (by_firstName " John ")).
    vm_compute. reflexivity.
Defined.

(** X2. Criteria that are empty after sanitization are rejected by
    [searchEntries] before anything is asked of the repository: the error
    is the validation error, and the world (pool, connections, trace) is
    exactly as before, whatever repository the service was built with. *)
Theorem searchEntries_rejects_empty :
  forall (repository : IBlacklistRepository) (criteria : SearchCriteria)
         (w : World),
    sanitizeSearchCriteria criteria = Ok empty_criteria ->
    BlacklistService.searchEntries repository criteria w
    = (Throw no_criterion_error, w).
Proof.
  intros repository criteria w Hs.
  unfold BlacklistService.searchEntries. rewrite Hs. reflexivity.
Qed.

Lemma searchEntries_rejects_empty_witness :
  BlacklistService.searchEntries BlacklistRepository.repository
    (Criteria.mkCriteria (JString "   ") (JString "") JNull) one_entry
  = (Throw no_criterion_error, one_entry).
Proof.
  apply searchEntries_rejects_empty. vm_compute. reflexivity.
Defined.

(** ** [addEntry] against any environment *)

Lemma create_cases (entry s : CreateBlacklistEntryInput) (w : World) :
  sanitizeBlacklistEntryInput entry = Ok s ->
  isValid (validateBlacklistEntry s) = true ->
  match BlacklistRepository.create s w with
  | (Ok i, w') =>
      i = Sql.auto_increment (database w)
      /\ Sql.rows (database w') = Sql.rows (database w) ++ [row_of entry (database w)]
  | (Throw _, w') => database w' = database w
  end.
Proof.
  intros Hs Hv.
  destruct (sanitized_valid_shape _ Hs Hv) as (Hi & Hb & _ & _ & Hf & Hl).
  unfold BlacklistRepository.create.
  rewrite (sanitizeBlacklistEntryInput_fixed _ Hs).
  unfold lift at 1. unfold bind at 1. unfold ret at 1.
  rewrite Hv. cbn [negb]. rewrite Hi, Hb, Hf, Hl. cbn [text_of].
  match goal with
  | |- context [DatabaseConnection.query ?q] =>
      pose proof (query_cases q w) as [_ Hq];
      destruct (DatabaseConnection.query q w) as [[r|e] w'] eqn:Hrun
  end; cbn [fst snd] in Hq.
  - destruct Hq as [-> Hd].
    rewrite try_catch_ok with (a := Sql.auto_increment (database w)) (w' := w').
    + rewrite Hd. split; reflexivity.
    + rewrite (bind_ok _ Hrun). reflexivity.
  - rewrite try_catch_throw with (e := e) (w' := w').
    + exact Hq.
    + apply bind_throw. exact Hrun.
Qed.

(** Every way [addEntry] can end. *)
Lemma addEntry_outcome (entry : CreateBlacklistEntryInput) (w : World) :
  match service_addEntry entry w with
  | (Ok i, w') =>
      (exists s, sanitizeBlacklistEntryInput entry = Ok s
                 /\ isValid (validateBlacklistEntry s) = true)
      /\ stored (trimmed_text (CreateInput.identifier entry)) (database w) = false
      /\ i = Sql.auto_increment (database w)
      /\ Sql.rows (database w') = Sql.rows (database w) ++ [row_of entry (database w)]
  | (Throw _, w') => database w' = database w
  end.
Proof.
  unfold service_addEntry, BlacklistService.addEntry.
  destruct (sanitizeBlacklistEntryInput entry) as [s|e] eqn:Hs; [|reflexivity].
  unfold lift at 1. unfold bind at 1. unfold ret at 1.
  destruct (isValid (validateBlacklistEntry s)) eqn:Hv; [|reflexivity].
  cbn [negb].
  destruct (sanitized_valid_shape _ Hs Hv) as (Hi & _ & Hne & Ht & _ & _).
  rewrite Hi.
  set (ident := trimmed_text (CreateInput.identifier entry)) in *.
  change (BlacklistService.checkDuplicate BlacklistRepository.repository)
    with service_checkDuplicate.
  destruct (checkDuplicate_cases w Hne Ht) as (Hc & Hd & _).
  destruct (service_checkDuplicate (JString ident) w) as [[b|e] w1] eqn:Hcd;
    cbn [snd] in Hd.
  - subst b. destruct (stored ident (database w)) eqn:Hst.
    + rewrite bind_throw with (e := duplicate_error ident) (w' := w1);
        [exact Hd|].
      unfold try_catch. rewrite (bind_ok _ Hcd). unfold throw at 1.
      cbn [to_template]. fold (duplicate_error ident).
      rewrite includes_duplicate_error. reflexivity.
    + rewrite bind_ok with (a := tt) (w' := w1).
      2:{ apply try_catch_ok. rewrite (bind_ok _ Hcd). reflexivity. }
      pose proof (create_cases entry w1 Hs Hv) as Hcr.
      change (create BlacklistRepository.repository) with BlacklistRepository.create.
      unfold try_catch.
      destruct (BlacklistRepository.create s w1) as [[i|e] w2].
      * destruct Hcr as [-> Hrows]. rewrite Hd in *.
        repeat split; eauto.
      * cbn. congruence.
  - rewrite bind_throw with (e := "Failed to verify entry uniqueness") (w' := w1);
      [exact Hd|].
    unfold try_catch. rewrite (bind_throw _ Hcd). rewrite Hc. reflexivity.
Qed.


(** The bounds a sanitized, valid input keeps. *)
Lemma valid_sanitized_bounds (entry s : CreateBlacklistEntryInput) :
  sanitizeBlacklistEntryInput entry = Ok s ->
  isValid (validateBlacklistEntry s) = true ->
  well_formed_row (row_of entry empty_database).
Proof.
  intros Hs Hv.
  destruct (sanitized_valid_shape _ Hs Hv) as (Hi & Hb & _ & _ & _ & _).
  destruct (sanitized_names _ Hs) as [Hf Hl].
  destruct (entry_validation_rules s) as (_ & _ & Hn).
  rewrite Hv in Hn. symmetry in Hn. unfold no_violation in Hn.
  cbn [entry_rules forallb violated] in Hn.
  rewrite Hi, Hb, Hf, Hl in Hn.
  repeat match goal with
         | H : (_ && _) = true |- _ => apply andb_prop in H; destruct H
         end.
  repeat match goal with
         | H : negb _ = true |- _ => apply negb_true_iff in H
         end.
  cbn [blank longer_than] in *.
  assert (Hkept : forall bound t,
             is_empty (trim t) = false -> (bound <? String.length t) = false ->
             trim t = t -> kept_text bound t).
  { intros bound t He Hlen Ht. unfold kept_text. rewrite Ht in He.
    apply Nat.ltb_ge in Hlen. auto. }
  assert (Hname : forall v,
             longer_than 100 (of_option (optional_text v)) = false ->
             kept_name (optional_text v)).
  { intros v Hlen. destruct v as [| |?|?|n]; simpl; trivial.
    simpl in Hlen. destruct (is_empty (trim n)) eqn:E; simpl in *; trivial.
    unfold kept_text. rewrite trim_idempotent. apply Nat.ltb_ge in Hlen. auto. }
  unfold well_formed_row, row_of.
  cbn [Sql.identifier Sql.created_by Sql.first_name Sql.last_name].
  assert (Htrim : forall v, trim (trimmed_text v) = trimmed_text v).
  { intros v. destruct v; try reflexivity. apply trim_idempotent. }
  split; [apply Hkept; auto|]. split; [apply Hkept; auto|].
  split; apply Hname; assumption.
Qed.

(** X4. The table only ever holds well-formed rows: if every stored row
    has a trimmed, non-empty identifier of at most 255 characters, a
    trimmed, non-empty author of at most 20 and names that are absent or
    trimmed, non-empty and at most 100 long, the same is true after
    [addEntry], whatever the input and whatever the environment does. *)
Theorem addEntry_keeps_rows_well_formed :
  forall (entry : CreateBlacklistEntryInput) (w : World),
    Forall well_formed_row (Sql.rows (database w)) ->
    Forall well_formed_row (Sql.rows (database (snd (service_addEntry entry w)))).
Proof.
  intros entry w Hall. pose proof (addEntry_outcome entry w) as H.
  destruct (service_addEntry entry w) as [[i|e] w']; cbn [snd].
  - destruct H as ((s & Hs & Hv) & _ & _ & ->).
    apply Forall_app. split; [exact Hall|]. constructor; [|constructor].
    apply (valid_sanitized_bounds _ Hs Hv).
  - rewrite H. exact Hall.
Qed.

Lemma addEntry_keeps_rows_well_formed_witness :
  Forall well_formed_row
    (Sql.rows (database (snd (service_addEntry jane_padded one_entry)))).
Proof.
  apply addEntry_keeps_rows_well_formed.
  constructor; [|constructor].
  repeat split; vm_compute; first [reflexivity | lia].
Defined.

Lemma distinct_identifiers_snoc (rows : list Sql.Row) (r : Sql.Row) :
  distinct_identifiers rows ->
  Forall (fun r' => Sql.str_eq (Sql.identifier r') (Sql.identifier r) = false) rows ->
  distinct_identifiers (rows ++ [r]).
Proof.
  induction rows as [|x rows IH]; simpl.
  - intros _ _. split; [constructor | exact I].
  - intros [Hx Hd] Hall. inversion Hall as [|? ? Hxr Hrest]; subst.
    split.
    + apply Forall_app. split; [exact Hx|]. constructor; [exact Hxr | constructor].
    + apply IH; assumption.
Qed.

Lemma not_stored_forall (ident : string) (d : Sql.Database) :
  stored ident d = false ->
  Forall (fun r => Sql.str_eq (Sql.identifier r) ident = false) (Sql.rows d).
Proof.
  unfold stored. induction (Sql.rows d) as [|x l IH]; simpl; [constructor|].
  intros H. apply orb_false_iff in H as [Hx Hl]. constructor; auto.
Qed.

(** X5. Used by one caller at a time, [addEntry] keeps identifiers unique:
    if no two stored entries have the same identifier (as the store
    compares identifiers), no two have after [addEntry], whatever the input
    and whatever the environment does. *)
Theorem addEntry_keeps_identifiers_distinct :
  forall (entry : CreateBlacklistEntryInput) (w : World),
    distinct_identifiers (Sql.rows (database w)) ->
    distinct_identifiers (Sql.rows (database (snd (service_addEntry entry w)))).
Proof.
  intros entry w Hd. pose proof (addEntry_outcome entry w) as H.
  destruct (service_addEntry entry w) as [[i|e] w']; cbn [snd].
  - destruct H as (_ & Hst & _ & ->).
    apply distinct_identifiers_snoc; [exact Hd|].
    apply not_stored_forall. exact Hst.
  - rewrite H. exact Hd.
Qed.

Lemma addEntry_keeps_identifiers_distinct_witness :
  distinct_identifiers
    (Sql.rows (database (snd (service_addEntry jane_padded one_entry))))
  /\ distinct_identifiers
       (Sql.rows (database (snd (service_addEntry john_doe one_entry)))).
Proof.
  split; apply addEntry_keeps_identifiers_distinct; simpl; auto.
Defined.

(** ** Searching: every provided criterion, newest first *)

Lemma insert_desc_sorted (r : Sql.Row) (l : list Sql.Row) :
  newest_first l -> newest_first (Sql.insert_desc r l).
Proof.
  unfold newest_first. induction l as [|x l IH]; intros Hs; simpl.
  - constructor; constructor.
  - inversion Hs as [|? ? Hl Hx]; subst.
    destruct (Sql.created_at x <? Sql.created_at r)%Z eqn:E.
    + apply Z.ltb_lt in E. constructor; [exact Hs|].
      constructor; [lia|].
      eapply Forall_impl; [|exact Hx]. simpl. intros y Hy. lia.
    + apply Z.ltb_ge in E. constructor; [apply IH; exact Hl|].
      apply Forall_forall. intros y Hy. apply insert_desc_In in Hy.
      destruct Hy as [->|Hy]; [exact E|].
      rewrite Forall_forall in Hx. apply Hx, Hy.
Qed.

Lemma order_by_sorted (l : list Sql.Row) :
  newest_first (Sql.order_by_created_at_desc l).
Proof.
  induction l as [|x l IH]; simpl; [constructor|].
  apply insert_desc_sorted, IH.
Qed.

Lemma sanitized_criteria_shape (raw c : SearchCriteria) :
  sanitizeSearchCriteria raw = Ok c ->
  c = Criteria.mkCriteria
        (of_option (optional_text (Criteria.identifier raw)))
        (of_option (optional_text (Criteria.firstName raw)))
        (of_option (optional_text (Criteria.lastName raw))).
Proof.
  unfold sanitizeSearchCriteria.
  destruct (trim_if_present _ (Criteria.identifier raw)) as [i|] eqn:Ei; [|discriminate].
  destruct (trim_if_present _ (Criteria.firstName raw)) as [f|] eqn:Ef; [|discriminate].
  destruct (trim_if_present _ (Criteria.lastName raw)) as [l|] eqn:El; [|discriminate].
  intros [= <-].
  rewrite (trim_if_present_shape _ _ Ei), (trim_if_present_shape _ _ Ef),
    (trim_if_present_shape _ _ El).
  reflexivity.
Qed.

Lemma truthy_of_option (v : JsVal) :
  truthy (of_option (optional_text v)) = is_string (of_option (optional_text v)).
Proof.
  destruct (optional_text v) as [n|] eqn:E; [|reflexivity].
  simpl. rewrite (optional_text_nonempty _ E). reflexivity.
Qed.

(** The conjuncts [search] sends for sanitized criteria, and what they
    select. *)
Lemma search_statement (raw c : SearchCriteria) :
  sanitizeSearchCriteria raw = Ok c ->
  isValid (validateSearchCriteria c) = true ->
  BlacklistRepository.search c
  = try_catch
      (rows <- DatabaseConnection.query (Sql.SelectWhere (conjuncts raw)) ;;
       ret (map BlacklistRepository.mapRowToEntry rows))
      (fun _ => throw "Failed to search blacklist entries")
  /\ forall r, forallb (fun p => Sql.holds p r) (conjuncts raw) = satisfies c r.
Proof.
  intros Hs Hv. unfold BlacklistRepository.search.
  rewrite (sanitizeSearchCriteria_fixed _ Hs).
  unfold lift at 1. unfold bind at 1. unfold ret at 1.
  rewrite Hv. cbn [negb].
  rewrite (sanitized_criteria_shape _ Hs).
  cbn [Criteria.identifier Criteria.firstName Criteria.lastName].
  rewrite !truthy_of_option. unfold satisfies, conjuncts, conjunct.
  cbn [Criteria.identifier Criteria.firstName Criteria.lastName].
  destruct (optional_text (Criteria.identifier raw)) as [i|];
    destruct (optional_text (Criteria.firstName raw)) as [f|];
    destruct (optional_text (Criteria.lastName raw)) as [l|];
    cbn [of_option is_string app text_of to_template criterion_holds];
    (split; [reflexivity|]);
    intros r; cbn [forallb]; unfold around;
    rewrite ?andb_true_r, ?andb_assoc; reflexivity.
Qed.

(** X6. On a store that answers, [searchEntries] returns exactly the stored
    entries that satisfy every criterion left after sanitization (the
    identifier compared for equality, each name with LIKE '%name%'), newest
    first, and leaves the table as it is. *)
Theorem searchEntries_selects_all_criteria :
  forall (raw c : SearchCriteria) (w : World),
    sanitizeSearchCriteria raw = Ok c ->
    isValid (validateSearchCriteria c) = true ->
    no_faults w ->
    exists selected w',
      service_searchEntries raw w
      = (Ok (map BlacklistRepository.mapRowToEntry selected), w')
      /\ (forall r, In r selected
                    <-> In r (Sql.rows (database w)) /\ satisfies c r = true)
      /\ newest_first selected
      /\ database w' = database w.
Proof.
  intros raw c w Hs Hv Hq.
  destruct (search_statement _ Hs Hv) as (Hsearch & Hsat).
  destruct (query_quiet (Sql.SelectWhere (conjuncts raw)) Hq)
    as (k & w' & Hr & _ & Hd & _).
  cbn [Sql.exec fst snd] in Hr, Hd.
  eexists. exists w'. split; [|split; [|split; [|exact Hd]]].
  - unfold service_searchEntries, BlacklistService.searchEntries.
    rewrite Hs. unfold lift at 1. unfold bind at 1. unfold ret at 1.
    rewrite Hv. cbn [negb]. apply try_catch_ok.
    change (search BlacklistRepository.repository) with BlacklistRepository.search.
    rewrite Hsearch. apply try_catch_ok. rewrite (bind_ok _ Hr). reflexivity.
  - intros r. rewrite order_by_In, filter_In, Hsat. reflexivity.
  - apply order_by_sorted.
Qed.

Lemma searchEntries_selects_all_criteria_witness :
  exists selected w',
    service_searchEntries
      (Criteria.mkCriteria (JString " 0812345678") (JString "john") JUndefined)
      one_entry
    = (Ok (map BlacklistRepository.mapRowToEntry selected), w')
    /\ (forall r, In r selected
                  <-> In r (Sql.rows (database one_entry))
                      /\ satisfies (Criteria.mkCriteria (JString "0812345678")
                                      (JString "john") JUndefined) r = true)
    /\ newest_first selected
    /\ database w' = database one_entry.
Proof.
  apply searchEntries_selects_all_criteria.
  - vm_compute. reflexivity.
  - vm_compute. reflexivity.
  - reflexivity.
Defined.

(** ** The finders *)

Lemma findByIdentifier_quiet (s : string) (w : World) :
  BlacklistRepository.blank_identifier (JString s) = false ->
  no_faults w ->
  exists w',
    service_findByIdentifier (JString s) w
    = (Ok (map BlacklistRepository.mapRowToEntry
             (Sql.order_by_created_at_desc
                (filter (fun r => Sql.str_eq (Sql.identifier r) (trim s))
                        (Sql.rows (database w))))), w')
    /\ database w' = database w.
Proof.
  intros Hb Hq.
  assert (Hb' : BlacklistRepository.blank_identifier (JString (trim s)) = false).
  { unfold BlacklistRepository.blank_identifier in *.
    apply orb_false_iff in Hb as [_ Hb]. rewrite is_empty_length in Hb.
    rewrite trim_idempotent, !is_empty_length, Hb. reflexivity. }
  unfold service_findByIdentifier, BlacklistServiceFinders.findByIdentifier,
    BlacklistRepositoryFinders.findByIdentifier.
  rewrite Hb. cbn [text_of]. rewrite Hb'. cbn [text_of]. rewrite trim_idempotent.
  destruct (query_quiet (Sql.SelectWhere [Sql.IdentifierEq (trim s)]) Hq)
    as (k & w' & Hr & _ & Hd & _).
  cbn [Sql.exec fst snd] in Hr, Hd.
  rewrite (filter_ext _ (fun r => Sql.str_eq (Sql.identifier r) (trim s))) in Hr
    by (intros r; cbn [forallb Sql.holds]; apply andb_true_r).
  exists w'. split; [|exact Hd].
  apply try_catch_ok. apply try_catch_ok. rewrite (bind_ok _ Hr). reflexivity.
Qed.

(** X7. [findByIdentifier] of the service refuses an identifier that is
    missing, not a string, empty or blank with its validation error before
    anything is asked of the store, the world being as before; for any
    other identifier, on a store that answers, it returns the entries whose
    identifier equals the trimmed identifier (as the store compares
    identifiers), newest first, and leaves the table as it is. *)
Theorem findByIdentifier_exact_match :
  forall (identifier : JsVal) (w : World),
    (BlacklistRepository.blank_identifier identifier = true ->
     service_findByIdentifier identifier w
     = (Throw "Invalid identifier: Identifier must be a non-empty string", w))
    /\ (BlacklistRepository.blank_identifier identifier = false ->
        no_faults w ->
        exists selected w',
          service_findByIdentifier identifier w
          = (Ok (map BlacklistRepository.mapRowToEntry selected), w')
          /\ (forall r, In r selected
                        <-> In r (Sql.rows (database w))
                            /\ Sql.str_eq (Sql.identifier r)
                                 (trim (text_of identifier)) = true)
          /\ newest_first selected
          /\ database w' = database w).
Proof.
  intros identifier w. split.
  - intros Hb. unfold service_findByIdentifier,
      BlacklistServiceFinders.findByIdentifier. rewrite Hb. reflexivity.
  - intros Hb Hq. destruct identifier as [| |?|?|s]; try discriminate.
    destruct (findByIdentifier_quiet s Hb Hq) as (w' & Hr & Hd).
    eexists. exists w'. split; [exact Hr|]. split; [|split; [|exact Hd]].
    + intros r. rewrite order_by_In, filter_In. reflexivity.
    + apply order_by_sorted.
Qed.

Lemma findByIdentifier_exact_match_witness :
  service_findByIdentifier (JString "   ") one_entry
  = (Throw "Invalid identifier: Identifier must be a non-empty string", one_entry)
  /\ exists selected w',
      service_findByIdentifier (JString " 0812345678 ") one_entry
      = (Ok (map BlacklistRepository.mapRowToEntry selected), w')
      /\ (forall r, In r selected
                    <-> In r (Sql.rows (database one_entry))
                        /\ Sql.str_eq (Sql.identifier r)
                             (trim (text_of (JString " 0812345678 "))) = true)
      /\ newest_first selected
      /\ database w' = database one_entry.
Proof.
  split.
  - apply (proj1 (findByIdentifier_exact_match (JString "   ") one_entry)).
    vm_compute. reflexivity.
  - apply (proj2 (findByIdentifier_exact_match (JString " 0812345678 ") one_entry)).
    + vm_compute. reflexivity.
    + reflexivity.
Defined.

Lemma filter_all {A : Type} (l : list A) : filter (fun _ => true) l = l.
Proof. induction l as [|x l IH]; simpl; congruence. Qed.

(** X8. A name that is not empty but blank gets past the guard of
    [findByName] and adds no condition: with a blank first name and no last
    name, on a store that answers, [findByName] returns every stored entry,
    newest first. *)
Theorem findByName_blank_selects_all :
  forall (firstName : string) (w : World),
    is_empty firstName = false ->
    is_empty (trim firstName) = true ->
    no_faults w ->
    exists w',
      service_findByName (JString firstName) JUndefined w
      = (Ok (map BlacklistRepository.mapRowToEntry
               (Sql.order_by_created_at_desc (Sql.rows (database w)))), w').
Proof.
  intros f w Hne Hblank Hq.
  unfold service_findByName, BlacklistServiceFinders.findByName,
    BlacklistRepositoryFinders.findByName,
    BlacklistRepositoryFinders.name_param.
  cbn [truthy negb andb]. rewrite Hne, Hblank. cbn [negb andb lift].
  destruct (query_quiet (Sql.SelectWhere []) Hq) as (k & w' & Hr & _).
  cbn [Sql.exec fst forallb] in Hr. rewrite filter_all in Hr.
  exists w'. apply try_catch_ok.
  rewrite bind_ok with (a := []) (w' := w) by reflexivity.
  rewrite bind_ok with (a := []) (w' := w) by reflexivity.
  apply try_catch_ok. cbn [app]. rewrite (bind_ok _ Hr). reflexivity.
Qed.

Lemma findByName_blank_selects_all_witness :
  exists w',
    service_findByName (JString "  ") JUndefined one_entry
    = (Ok (map BlacklistRepository.mapRowToEntry
             (Sql.order_by_created_at_desc (Sql.rows (database one_entry)))), w').
Proof.
  apply findByName_blank_selects_all; vm_compute; reflexivity.
Defined.

Lemma name_param_conjunct (e : string) (like : string -> Sql.Pred)
    (v v' : JsVal) :
  trim_if_present e v = Ok v' ->
  forall e', BlacklistRepositoryFinders.name_param e' like v
             = Ok (conjunct like around v).
Proof.
  unfold trim_if_present, BlacklistRepositoryFinders.name_param, conjunct,
    optional_text, around.
  destruct v as [| |b|n|s]; cbn [truthy]; intros H e';
    try reflexivity;
    try (destruct b; [discriminate | reflexivity]);
    try (destruct (n =? 0)%Z; [reflexivity | discriminate]).
  destruct s as [|c r]; [reflexivity|]. cbn [is_empty negb].
  destruct (is_empty (trim (String c r))); reflexivity.
Qed.

Lemma truthy_if_kept (v : JsVal) :
  truthy (of_option (optional_text v)) = true -> truthy v = true.
Proof.
  destruct v as [| |?|?|s]; simpl; try discriminate.
  destruct s; [discriminate | reflexivity].
Qed.

(** X9. The two ways to search by name agree: for names that pass the
    validation of [searchEntries] once sanitized, on a store that answers,
    [findByName] does exactly what [searchEntries] does with the criteria
    made of these two names, sending the same statement and returning the
    same entries. *)
Theorem findByName_agrees_with_searchEntries :
  forall (firstName lastName : JsVal) (c : SearchCriteria) (w : World),
    sanitizeSearchCriteria (by_names firstName lastName) = Ok c ->
    isValid (validateSearchCriteria c) = true ->
    no_faults w ->
    service_findByName firstName lastName w
    = service_searchEntries (by_names firstName lastName) w.
Proof.
  intros f l c w Hs Hv Hq.
  destruct (search_statement _ Hs Hv) as (Hsearch & _).
  destruct (query_quiet (Sql.SelectWhere (conjuncts (by_names f l))) Hq)
    as (k & w' & Hr & _).
  assert (Hright : service_searchEntries (by_names f l) w
                   = (Ok (map BlacklistRepository.mapRowToEntry
                            (fst (Sql.exec (Sql.SelectWhere (conjuncts (by_names f l)))
                                    (database w)))), w')).
  { unfold service_searchEntries, BlacklistService.searchEntries.
    rewrite Hs. unfold lift at 1. unfold bind at 1. unfold ret at 1.
    rewrite Hv. cbn [negb]. apply try_catch_ok.
    change (search BlacklistRepository.repository) with BlacklistRepository.search.
    rewrite Hsearch. apply try_catch_ok. rewrite (bind_ok _ Hr). reflexivity. }
  rewrite Hright.
  pose proof Hs as Hparts. unfold sanitizeSearchCriteria, by_names in Hparts.
  cbn [Criteria.identifier Criteria.firstName Criteria.lastName] in Hparts.
  change (trim_if_present "criteria.identifier.trim" JUndefined)
    with (@Ok JsVal JUndefined) in Hparts.
  destruct (trim_if_present "criteria.firstName.trim" f) as [f'|] eqn:Ef;
    [|discriminate].
  destruct (trim_if_present "criteria.lastName.trim" l) as [l'|] eqn:El;
    [|discriminate].
  assert (Hguard : negb (truthy f) && negb (truthy l) = false).
  { destruct (criteria_validation_rules c) as (_ & _ & Hn).
    rewrite Hv in Hn. symmetry in Hn. unfold no_violation in Hn.
    cbn [criteria_rules forallb violated] in Hn.
    apply andb_prop in Hn as [Hone _].
    rewrite andb_true_r in Hone. apply negb_true_iff in Hone.
    rewrite (sanitized_criteria_shape _ Hs) in Hone.
    cbn [by_names Criteria.identifier Criteria.firstName Criteria.lastName
         optional_text of_option truthy negb andb] in Hone.
    apply andb_false_iff in Hone as [Hone|Hone];
      apply negb_false_iff, truthy_if_kept in Hone; rewrite Hone;
      [reflexivity | apply andb_false_r]. }
  unfold service_findByName, BlacklistServiceFinders.findByName,
    BlacklistRepositoryFinders.findByName.
  rewrite Hguard.
  rewrite (@name_param_conjunct _ Sql.FirstNameLike _ _ Ef),
    (@name_param_conjunct _ Sql.LastNameLike _ _ El).
  apply try_catch_ok.
  rewrite bind_ok with (a := conjunct Sql.FirstNameLike around f) (w' := w)
    by reflexivity.
  rewrite bind_ok with (a := conjunct Sql.LastNameLike around l) (w' := w)
    by reflexivity.
  apply try_catch_ok.
  change (conjunct Sql.FirstNameLike around f ++ conjunct Sql.LastNameLike around l)
    with (conjuncts (by_names f l)).
  rewrite (bind_ok _ Hr). reflexivity.
Qed.

Lemma findByName_agrees_with_searchEntries_witness :
  service_findByName (JString " john") (JString "Doe ") one_entry
  = service_searchEntries (by_names (JString " john") (JString "Doe ")) one_entry.
Proof.
  apply findByName_agrees_with_searchEntries
    with (c := by_names (JString "john") (JString "Doe")).
  - vm_compute. reflexivity.
  - vm_compute. reflexivity.
  - reflexivity.
Defined.

(** ** The connection manager against any environment *)

Section ConnectFrame.

Context {X : Type} (proj : World -> X).

Hypothesis proj_script : forall s w, proj (set_script s w) = proj w.
Hypothesis proj_pool : forall b w, proj (set_pool b w) = proj w.
Hypothesis proj_next_conn : forall n w, proj (set_next_conn n w) = proj w.
Hypothesis proj_attempts : forall n w, proj (set_reconnectAttempts n w) = proj w.
Hypothesis proj_emit :
  forall e w, connect_event e = true -> proj (emit e w) = proj w.

Lemma emit_ok (e : Event) (H : connect_event e = true) :
  preserves proj (modify (emit e)).
Proof. apply preserves_modify. intros w. apply proj_emit, H. Qed.

Lemma connect_try_preserves : preserves proj connect_try.
Proof.
  pose proof (preserves_driver_call proj proj_script) as Hd.
  unfold connect_try, createPool, testConnection, pool_getConnection, ping,
    release, log.
  repeat first
    [ progress intros
    | apply preserves_bind | apply preserves_try_catch
    | apply preserves_try_finally | apply preserves_if
    | apply preserves_ret | apply preserves_throw | apply preserves_get
    | exact Hd
    | apply emit_ok; reflexivity
    | apply preserves_modify; solve [auto] ].
Qed.

Lemma connect_fuel_preserves (fuel : nat) :
  forall w r w', connect_fuel fuel w = Some (r, w') -> proj w' = proj w.
Proof.
  induction fuel as [|fuel IH]; intros w r w'; simpl; [discriminate|].
  pose proof (connect_try_preserves w) as Ht.
  destruct (connect_try w) as [[u|e] w1]; simpl in Ht.
  - intros [= <- <-]. exact Ht.
  - destruct (ErrorHandler.shouldRetry e).
    + unfold handleConnectionError.
      destruct (maxReconnectAttempts <=? reconnectAttempts w1).
      * intros [= <- <-]. exact Ht.
      * unfold sleep, modify. intros H. apply IH in H.
        rewrite H, proj_emit, proj_attempts by reflexivity. exact Ht.
    + intros [= <- <-]. exact Ht.
Qed.

Lemma connect_preserves : preserves proj connect.
Proof.
  intros w. destruct (connect_returns w) as (r & w' & Hf & Hc).
  rewrite Hc. simpl. exact (connect_fuel_preserves _ _ Hf).
Qed.

End ConnectFrame.

(** X10. One call of [connect] always returns, and whatever the
    environment does it waits at most five times, the n-th wait of the
    process (counted by the attempt counter) lasting 1000 * 2^(n-1) ms and
    the waits following each other in that order; it never waits once the
    counter has reached 5. *)
Theorem connect_waits_by_schedule :
  forall w : World,
    exists k,
      slept (snd (connect w))
      = rev (map backoff (seq (S (reconnectAttempts w)) k)) ++ slept w
      /\ k <= maxReconnectAttempts
      /\ (k = 0 \/ reconnectAttempts w + k <= maxReconnectAttempts).
Proof.
  intros w. destruct (connect_returns w) as (r & w' & Hf & Hc).
  rewrite Hc. cbn [snd].
  destruct (connect_fuel_backoff _ _ Hf) as (k & Hk & Hb).
  exists k. split; [exact Hk|]. split; [lia | exact Hb].
Qed.

(** X11. An error that the error handler does not classify as retryable
    is never retried: [connect] throws it at once, without waiting and
    without counting an attempt. *)
Theorem connect_does_not_retry_fatal :
  forall (w : World) (e : string) (w1 : World),
    connect_try w = (Throw e, w1) ->
    ErrorHandler.shouldRetry e = false ->
    connect w = (Throw e, w1)
    /\ slept w1 = slept w
    /\ reconnectAttempts w1 = reconnectAttempts w.
Proof.
  intros w e w1 Ht Hr. split; [|split].
  - unfold connect. cbn [connect_fuel]. rewrite Ht, Hr. reflexivity.
  - pose proof (connect_try_keeps_slept w) as H. rewrite Ht in H. exact H.
  - apply connect_try_attempts in Ht. exact Ht.
Qed.

Lemma connect_does_not_retry_fatal_witness :
  connect access_denied
  = (Throw "Access denied for user 'bot'@'localhost'", fresh_world [])
  /\ slept (fresh_world []) = slept access_denied
  /\ reconnectAttempts (fresh_world []) = reconnectAttempts access_denied.
Proof.
  apply connect_does_not_retry_fatal; vm_compute; reflexivity.
Defined.

(** X12. [connect] on a manager that has a pool returns at once: no pool
    is created, nothing is probed, nothing waits, and the attempt counter
    keeps its value, also when it is not zero.  (The debug line it writes
    is not part of the trace, which records warnings and errors only.) *)
Theorem connect_with_pool_is_noop :
  forall w : World, isConnected w = true -> connect w = (Ok tt, w).
Proof.
  intros w Hp. unfold isConnected in Hp.
  unfold connect. cbn [connect_fuel].
  unfold connect_try, bind, get. rewrite Hp. reflexivity.
Qed.

Lemma connect_with_pool_is_noop_witness :
  connect (connected_world 3 [Some "connect ECONNREFUSED"])
  = (Ok tt, connected_world 3 [Some "connect ECONNREFUSED"]).
Proof. apply connect_with_pool_is_noop. reflexivity. Defined.

(** *** Connections taken and given back *)

Lemma in_use_emit (e : Event) (w : World) :
  (forall c, e <> EvAcquire c) -> (forall c, e <> EvRelease c) ->
  in_use (emit e w) = in_use w.
Proof.
  intros Ha Hr. unfold in_use. simpl.
  destruct e; try reflexivity; [destruct (Ha c) | destruct (Hr c)]; reflexivity.
Qed.

Lemma driver_call_in_use : preserves in_use driver_call.
Proof. apply preserves_driver_call. reflexivity. Qed.

Lemma pool_getConnection_in_use (w : World) :
  match pool_getConnection w with
  | (Ok c, w') => in_use w' = (in_use w + 1)%Z
  | (Throw _, w') => in_use w' = in_use w
  end.
Proof.
  unfold pool_getConnection, bind, get, modify, ret.
  pose proof (driver_call_in_use w) as H.
  destruct (driver_call w) as [[u|e] w1]; simpl in H; [|exact H].
  unfold in_use in *. simpl. rewrite H. reflexivity.
Qed.

Lemma testConnection_in_use : preserves in_use testConnection.
Proof.
  intros w. unfold testConnection. unfold bind at 1. unfold get at 1.
  destruct (pool w); cbn [negb]; [|reflexivity].
  unfold bind at 1.
  pose proof (pool_getConnection_in_use w) as Hg.
  destruct (pool_getConnection w) as [[c|e] w1]; [|exact Hg].
  assert (Hbody : preserves in_use
                    (try_catch (ping c)
                       (fun error =>
                          log "error" "Database connection test failed" ;;;
                          throw error))).
  { unfold ping, log.
    repeat first
      [ progress intros
      | apply preserves_bind | apply preserves_try_catch
      | apply preserves_throw | apply driver_call_in_use
      | apply preserves_modify; intros; apply in_use_emit; discriminate ]. }
  specialize (Hbody w1). unfold try_finally, release, modify.
  destruct (try_catch _ _ w1) as [r w2]. cbn [snd] in *.
  unfold in_use in *. simpl. lia.
Qed.

Lemma connect_try_in_use : preserves in_use connect_try.
Proof.
  unfold connect_try, createPool.
  repeat first
    [ progress intros
    | apply driver_call_in_use | apply testConnection_in_use
    | apply preserves_modify; intros; first [apply in_use_emit; discriminate | reflexivity]
    | apply preserves_ret | apply preserves_get
    | apply preserves_if
    | apply preserves_bind ].
Qed.

Lemma connect_fuel_in_use (fuel : nat) :
  forall w r w', connect_fuel fuel w = Some (r, w') -> in_use w' = in_use w.
Proof.
  induction fuel as [|fuel IH]; intros w r w'; simpl; [discriminate|].
  pose proof (connect_try_in_use w) as Ht.
  destruct (connect_try w) as [[u|e] w1]; simpl in Ht.
  - intros [= <- <-]. exact Ht.
  - destruct (ErrorHandler.shouldRetry e).
    + unfold handleConnectionError.
      destruct (maxReconnectAttempts <=? reconnectAttempts w1).
      * intros [= <- <-]. exact Ht.
      * unfold sleep, modify. intros H. apply IH in H. rewrite H. exact Ht.
    + intros [= <- <-]. exact Ht.
Qed.

Lemma connect_in_use : preserves in_use connect.
Proof.
  intros w. destruct (connect_returns w) as (r & w' & Hf & Hc).
  rewrite Hc. simpl. apply connect_fuel_in_use with (1 := Hf).
Qed.

Lemma disconnect_in_use : preserves in_use disconnect.
Proof.
  unfold disconnect, pool_end, log.
  repeat first
    [ progress intros
    | apply driver_call_in_use
    | apply preserves_modify; intros; first [apply in_use_emit; discriminate | reflexivity]
    | apply preserves_ret | apply preserves_get | apply preserves_throw
    | apply preserves_if | apply preserves_try_catch
    | apply preserves_bind ].
Qed.

(** X13. The connection manager accounts for every connection, whatever
    the environment does: [connect] (with its probe and its retries) gives
    back every connection it takes, and [getConnection], with its reconnect
    cycle, takes exactly one connection when it returns one and none when
    it throws. *)
Theorem getConnection_accounts_for_connections :
  forall w : World,
    in_use (snd (connect w)) = in_use w
    /\ match getConnection w with
       | (Ok _, w') => in_use w' = (in_use w + 1)%Z
       | (Throw _, w') => in_use w' = in_use w
       end.
Proof.
  intros w. split; [apply connect_in_use|].
  unfold getConnection. unfold bind at 1. unfold get at 1.
  assert (Hfirst : preserves in_use (if negb (pool w) then connect else ret tt))
    by (apply preserves_if; [apply connect_in_use | apply preserves_ret]).
  specialize (Hfirst w). unfold bind at 1.
  destruct ((if negb (pool w) then connect else ret tt) w) as [[u|e] w1];
    cbn [snd] in Hfirst; [|exact Hfirst].
  unfold bind at 1. unfold get at 1.
  destruct (pool w1); cbn [negb]; [|exact Hfirst].
  unfold try_catch.
  pose proof (pool_getConnection_in_use w1) as Hg.
  destruct (pool_getConnection w1) as [[c|e] w2]; [lia|].
  destruct (ErrorHandler.shouldRetry e); [|unfold throw; lia].
  assert (Hre : preserves in_use reconnect).
  { unfold reconnect, log.
    repeat first
      [ progress intros
      | apply disconnect_in_use | apply connect_in_use
      | apply preserves_throw
      | apply preserves_modify; intros; apply in_use_emit; discriminate
      | apply preserves_try_catch
      | apply preserves_bind ]. }
  specialize (Hre w2). unfold bind at 1.
  destruct (reconnect w2) as [[u'|e'] w3]; cbn [snd] in Hre; [|lia].
  unfold bind at 1. unfold get at 1.
  destruct (pool w3); cbn [negb]; [|unfold throw; lia].
  pose proof (pool_getConnection_in_use w3) as Hg3.
  destruct (pool_getConnection w3) as [[c|e3] w4]; lia.
Qed.

(** X14. [disconnect] is safe on a manager without a pool, where it
    changes nothing (but for a debug line, which the trace does not
    record).  On a manager with a pool it calls [pool.end()] once: when the
    call resolves, [disconnect] returns and the manager has no pool; when
    the call rejects, [disconnect] logs the failure and throws the very
    error of the call, and the pool is still in place.  Nothing else is
    touched either way. *)
Theorem disconnect_closes_the_pool :
  forall w : World,
    (isConnected w = false -> disconnect w = (Ok tt, w))
    /\ (isConnected w = true ->
        match script w with
        | Some error :: rest =>
            disconnect w
            = (Throw error,
               emit (EvLog "error" "Error closing database connection pool")
                 (set_script rest (emit EvPoolEnd w)))
        | None :: rest =>
            disconnect w
            = (Ok tt, set_pool false (set_script rest (emit EvPoolEnd w)))
        | [] => disconnect w = (Ok tt, set_pool false (emit EvPoolEnd w))
        end)
    /\ match disconnect w with
       | (Ok _, w') => isConnected w' = false
       | (Throw _, w') => isConnected w = true /\ isConnected w' = true
       end.
Proof.
  intros w. unfold isConnected. split; [|split].
  - intros Hp. unfold disconnect, bind, get. rewrite Hp. reflexivity.
  - intros Hp.
    destruct (script w) as [|[error|] rest] eqn:Hs;
      unfold disconnect, try_catch, pool_end, log;
      cbv [bind get modify throw driver_call]; rewrite Hp;
      cbn [script emit]; rewrite Hs; reflexivity.
  - unfold disconnect. unfold bind at 1. unfold get at 1.
    destruct (pool w) eqn:Hp; [|cbn; exact Hp].
    unfold try_catch, pool_end, log. cbv [bind modify throw].
    pose proof (preserves_driver_call pool (fun _ _ => eq_refl) (emit EvPoolEnd w))
      as Hd.
    destruct (driver_call (emit EvPoolEnd w)) as [[u|e] w1]; cbn in Hd |- *.
    + reflexivity.
    + rewrite Hd. auto.
Qed.

Lemma disconnect_closes_the_pool_witness :
  disconnect (fresh_world [Some "boom"]) = (Ok tt, fresh_world [Some "boom"])
  /\ fst (disconnect (connected_world 0 [Some "Connection lost"]))
     = Throw "Connection lost"
  /\ isConnected (snd (disconnect (connected_world 0 [Some "Connection lost"])))
     = true
  /\ fst (disconnect (connected_world 0 [])) = Ok tt
  /\ isConnected (snd (disconnect (connected_world 0 []))) = false.
Proof.
  split; [|split; [|split; [|split]]].
  - apply (proj1 (disconnect_closes_the_pool (fresh_world [Some "boom"]))).
    reflexivity.
  - rewrite (proj1 (proj2 (disconnect_closes_the_pool
                             (connected_world 0 [Some "Connection lost"]))) eq_refl).
    reflexivity.
  - rewrite (proj1 (proj2 (disconnect_closes_the_pool
                             (connected_world 0 [Some "Connection lost"]))) eq_refl).
    reflexivity.
  - rewrite (proj1 (proj2 (disconnect_closes_the_pool (connected_world 0 []))) eq_refl).
    reflexivity.
  - rewrite (proj1 (proj2 (disconnect_closes_the_pool (connected_world 0 []))) eq_refl).
    reflexivity.
Defined.

(** X15. [getConnection] closes the pool at most once: after a failed
    acquisition it goes through one reconnect cycle and one more
    acquisition, never more. *)
Theorem getConnection_reconnects_once :
  forall w : World,
    pool_closed (snd (getConnection w)) <= S (pool_closed w).
Proof.
  assert (Hemit : forall e w, connect_event e = true ->
                              pool_closed (emit e w) = pool_closed w).
  { intros e w H. unfold pool_closed, pool_ends. simpl.
    destruct e; try discriminate; reflexivity. }
  assert (Hconnect : preserves pool_closed connect).
  { apply connect_preserves; try reflexivity. exact Hemit. }
  assert (Hd : preserves pool_closed driver_call)
    by (apply preserves_driver_call; reflexivity).
  assert (Hget : preserves pool_closed pool_getConnection).
  { unfold pool_getConnection.
    repeat first
      [ progress intros
      | apply preserves_bind | apply preserves_ret | apply preserves_get
      | exact Hd
      | apply preserves_modify; intros; first [apply Hemit; reflexivity | reflexivity] ]. }
  assert (Hdis : forall w, pool_closed (snd (disconnect w)) <= S (pool_closed w)).
  { intros w. unfold disconnect. unfold bind at 1. unfold get at 1.
    destruct (pool w); [|cbn; lia].
    unfold try_catch, pool_end, log. cbv [bind modify throw].
    pose proof (Hd (emit EvPoolEnd w)) as H.
    destruct (driver_call (emit EvPoolEnd w)) as [[u|e] w1]; cbn [snd] in H |- *.
    - change (pool_closed (set_pool false w1)) with (pool_closed w1).
      rewrite H. unfold pool_closed, pool_ends. simpl. lia.
    - rewrite Hemit by reflexivity. rewrite H.
      unfold pool_closed, pool_ends. simpl. lia. }
  intros w. unfold getConnection. unfold bind at 1. unfold get at 1.
  assert (Hfirst : preserves pool_closed (if negb (pool w) then connect else ret tt))
    by (apply preserves_if; [exact Hconnect | apply preserves_ret]).
  specialize (Hfirst w). unfold bind at 1.
  destruct ((if negb (pool w) then connect else ret tt) w) as [[u|e] w1];
    cbn [snd] in Hfirst |- *; [|lia].
  unfold bind at 1. unfold get at 1.
  destruct (pool w1); cbn [negb]; [|cbn; lia].
  unfold try_catch.
  pose proof (Hget w1) as Hg.
  destruct (pool_getConnection w1) as [[c|e] w2]; cbn [snd] in Hg |- *; [lia|].
  destruct (ErrorHandler.shouldRetry e); [|cbn; lia].
  assert (Hre : pool_closed (snd (reconnect w2)) <= S (pool_closed w2)).
  { unfold reconnect, try_catch. unfold bind at 1.
    pose proof (Hdis w2) as H2.
    destruct (disconnect w2) as [[u'|e'] w3]; cbn [snd] in H2.
    - pose proof (Hconnect w3) as H3.
      destruct (connect w3) as [[u''|e''] w4]; cbn [snd] in H3 |- *.
      + lia.
      + unfold log, bind, modify, throw. cbn [snd].
        rewrite Hemit by reflexivity. lia.
    - unfold log, bind, modify, throw. cbn [snd].
      rewrite Hemit by reflexivity. lia. }
  unfold bind at 1.
  destruct (reconnect w2) as [[u'|e'] w3]; cbn [snd] in Hre |- *; [|lia].
  unfold bind at 1. unfold get at 1.
  destruct (pool w3); cbn [negb]; [|cbn; lia].
  pose proof (Hget w3) as Hg3.
  destruct (pool_getConnection w3) as [[c|e3] w4]; cbn [snd] in Hg3 |- *; lia.
Qed.

(** ** Which errors are retried *)

Lemma strip_prefix_ci_app (lit mid post : string) :
  same_text lit mid = true ->
  ErrorHandler.strip_prefix_ci lit (mid ++ post) = Some post.
Proof.
  revert mid. induction lit as [|a lit IH]; intros [|b mid]; simpl;
    try discriminate; [reflexivity|].
  intros H. apply andb_prop in H as [Hc H]. rewrite Hc. apply IH, H.
Qed.

Lemma test_here (p : ErrorHandler.Pattern) (s : string) :
  existsb (fun alt => ErrorHandler.alternative_at alt s) p = true ->
  ErrorHandler.test p s = true.
Proof. intros H. destruct s; simpl; rewrite H; reflexivity. Qed.

Lemma test_later (p : ErrorHandler.Pattern) (pre s : string) :
  ErrorHandler.test p s = true -> ErrorHandler.test p (pre ++ s) = true.
Proof.
  induction pre as [|c pre IH]; intros H; [exact H|].
  simpl. rewrite (IH H). apply orb_true_r.
Qed.

(** A pattern with the one-word alternative [word] matches every message
    that mentions [word]. *)
Lemma test_mentions (p : ErrorHandler.Pattern) (word m : string) :
  In [word] p -> mentions word m -> ErrorHandler.test p m = true.
Proof.
  intros Hin (pre & mid & post & -> & Heq).
  apply test_later, test_here. apply existsb_exists.
  exists [word]. split; [exact Hin|].
  simpl. rewrite strip_prefix_ci_app by exact Heq. reflexivity.
Qed.

(** X16. An error whose message mentions ECONNREFUSED, ENOTFOUND,
    ETIMEDOUT or timeout, in any letter case and whatever else it says, is
    classified as retryable. *)
Theorem connection_errors_are_retryable :
  forall m : string,
    mentions "ECONNREFUSED" m \/ mentions "ENOTFOUND" m
    \/ mentions "ETIMEDOUT" m \/ mentions "timeout" m ->
    ErrorHandler.shouldRetry m = true.
Proof.
  intros m H. unfold ErrorHandler.shouldRetry.
  assert (Hfirst : forall word, In [word] (fst (hd ([], true) ErrorHandler.errorPatterns)) ->
                                mentions word m ->
                                ErrorHandler.categorize ErrorHandler.errorPatterns m = true).
  { intros word Hin Hm. cbn [ErrorHandler.errorPatterns ErrorHandler.categorize hd fst] in *.
    rewrite (@test_mentions _ word m Hin Hm). reflexivity. }
  destruct H as [H|[H|[H|H]]].
  - apply (Hfirst "ECONNREFUSED"); [simpl; auto | exact H].
  - apply (Hfirst "ENOTFOUND"); [simpl; auto | exact H].
  - apply (Hfirst "ETIMEDOUT"); [simpl; auto | exact H].
  - unfold ErrorHandler.errorPatterns. cbn [ErrorHandler.categorize].
    match goal with
    | |- (if ?b then _ else _) = _ => destruct b; [reflexivity|]
    end.
    rewrite (@test_mentions [["timeout"]; ["query"; "timeout"]] "timeout" m
               (or_introl eq_refl) H).
    reflexivity.
Qed.

Lemma connection_errors_are_retryable_witness :
  ErrorHandler.shouldRetry "Access denied: connect econnrefused 10.0.0.1" = true.
Proof.
  apply connection_errors_are_retryable. left.
  exists "Access denied: connect ", "econnrefused", " 10.0.0.1".
  split; reflexivity.
Defined.

(** ** The service against any environment *)

(** X17. [checkDuplicate] refuses an identifier that is missing, not a
    string, empty or blank, the world being as before.  For any other
    identifier it answers exactly whether some stored entry has the trimmed
    identifier (as the store compares identifiers), or fails with its own
    message 'Failed to check for duplicate entry'; whatever the environment
    does it never changes the table and never sends an INSERT. *)
Theorem checkDuplicate_answers_or_fails :
  forall (identifier : JsVal) (w : World),
    (BlacklistRepository.blank_identifier identifier = true ->
     service_checkDuplicate identifier w
     = (Throw "Invalid identifier: Identifier must be a non-empty string", w))
    /\ (BlacklistRepository.blank_identifier identifier = false ->
        match service_checkDuplicate identifier w with
        | (Ok b, _) => b = stored (trim (text_of identifier)) (database w)
        | (Throw e, _) => e = "Failed to check for duplicate entry"
        end
        /\ database (snd (service_checkDuplicate identifier w)) = database w
        /\ inserts (trace (snd (service_checkDuplicate identifier w)))
           = inserts (trace w)).
Proof.
  intros identifier w. split.
  - intros Hb. unfold service_checkDuplicate, BlacklistService.checkDuplicate.
    rewrite Hb. reflexivity.
  - intros Hb. destruct identifier as [| | |n|s]; try discriminate Hb.
    cbn [text_of]. pose proof Hb as Hb'. simpl in Hb'.
    apply orb_false_iff in Hb' as [Hne Hlen]. rewrite is_empty_length in Hlen.
    assert (Heq : service_checkDuplicate (JString s) w
                  = service_checkDuplicate (JString (trim s)) w).
    { unfold service_checkDuplicate, BlacklistService.checkDuplicate. rewrite Hb.
      unfold BlacklistRepository.blank_identifier. cbn [text_of].
      rewrite trim_idempotent, is_empty_length, Hlen. reflexivity. }
    rewrite Heq. apply checkDuplicate_cases; [exact Hlen | apply trim_idempotent].
Qed.

Lemma checkDuplicate_answers_or_fails_witness :
  service_checkDuplicate (JString "  ") one_entry
  = (Throw "Invalid identifier: Identifier must be a non-empty string", one_entry)
  /\ (match service_checkDuplicate (JString " 0812345678 ") one_entry_down with
      | (Ok b, _) =>
          b = stored (trim (text_of (JString " 0812345678 "))) (database one_entry_down)
      | (Throw e, _) => e = "Failed to check for duplicate entry"
      end
      /\ database (snd (service_checkDuplicate (JString " 0812345678 ") one_entry_down))
         = database one_entry_down
      /\ inserts (trace (snd (service_checkDuplicate (JString " 0812345678 ")
                                one_entry_down)))
         = inserts (trace one_entry_down)).
Proof.
  split.
  - apply (proj1 (checkDuplicate_answers_or_fails (JString "  ") one_entry)).
    vm_compute. reflexivity.
  - apply (proj2 (checkDuplicate_answers_or_fails (JString " 0812345678 ")
                    one_entry_down)).
    vm_compute. reflexivity.
Defined.

Lemma findById_cases (i : Z) (w : World) :
  database (snd (BlacklistRepository.findById i w)) = database w
  /\ forall e, fst (BlacklistRepository.findById i w) = Ok (Some e) ->
               exists row, In row (Sql.rows (database w))
                           /\ Sql.id row = i
                           /\ e = BlacklistRepository.mapRowToEntry row.
Proof.
  unfold BlacklistRepository.findById.
  destruct (BlacklistRepository.invalid_id i); [split; [reflexivity | discriminate]|].
  pose proof (query_cases (Sql.SelectById i) w) as [_ Hq].
  unfold try_catch, bind.
  destruct (DatabaseConnection.query (Sql.SelectById i) w) as [[rows|err] w1];
    cbn [fst snd] in Hq.
  - destruct Hq as [-> Hd]. cbn [Sql.exec fst snd] in *.
    destruct (filter (Sql.has_id i) (Sql.rows (database w))) as [|row rest] eqn:Hf;
      cbn [ret fst snd]; split; try exact Hd; [discriminate|].
    intros e [= <-]. exists row.
    assert (Hin : In row (filter (Sql.has_id i) (Sql.rows (database w))))
      by (rewrite Hf; left; reflexivity).
    apply filter_In in Hin as [Hin Hid]. unfold Sql.has_id in Hid.
    apply Z.eqb_eq in Hid. auto.
  - cbn. split; [exact Hq | discriminate].
Qed.

(** X18. [getById] only reads: whatever the environment does the table is
    as before, and an entry it returns is a stored entry with the id that
    was asked for. *)
Theorem getById_reads_stored_entry :
  forall (i : Z) (w : World),
    database (snd (service_getById i w)) = database w
    /\ forall e, fst (service_getById i w) = Ok (Some e) ->
                 id e = Some i
                 /\ exists row, In row (Sql.rows (database w))
                                /\ e = BlacklistRepository.mapRowToEntry row.
Proof.
  intros i w. unfold service_getById, BlacklistService.getById.
  destruct (BlacklistRepository.invalid_id i); [split; [reflexivity | discriminate]|].
  change (findById BlacklistRepository.repository) with BlacklistRepository.findById.
  destruct (findById_cases i w) as [Hd He]. unfold try_catch.
  destruct (BlacklistRepository.findById i w) as [[o|err] w1]; cbn [fst snd] in *.
  - split; [exact Hd|]. intros e [= ->].
    destruct (He e eq_refl) as (row & Hin & Hid & ->).
    split; [simpl; congruence | eauto].
  - split; [exact Hd | discriminate].
Qed.

Lemma getById_reads_stored_entry_witness :
  exists e : BlacklistEntry,
    fst (service_getById 1 one_entry) = Ok (Some e)
    /\ id e = Some 1%Z
    /\ exists row, In row (Sql.rows (database one_entry))
                   /\ e = BlacklistRepository.mapRowToEntry row.
Proof.
  destruct (fst (service_getById 1 one_entry)) as [[e|]|err] eqn:He.
  - exists e. split; [reflexivity|].
    apply (proj2 (getById_reads_stored_entry 1 one_entry) e). exact He.
  - vm_compute in He. discriminate He.
  - vm_compute in He. discriminate He.
Defined.


